(** * Serializer usage analysis: a shallow embedding and its properties

    The development embeds the two management commands of the repository:

    - [common/management/commands/analyze_serializer_usage.py]
      (class [SerializerUsageAnalyzer] and the report of [Command.handle]),
      and
    - [common/management/commands/find_unused_serializers.py]
      (class [SerializerFinder] and the batch loop of [Command.handle] with
      its progress file).

    Conventions of the embedding:

    - Source text is a [string] whose characters are code points below 256.
    - A Python exception is a value of the [outcome] type, and a
      [try]/[except] is a [match] on it.
    - The project on disk is a [FileSystem] record: the files each walk
      yields, and for every path either its text or the reason why it cannot
      be read.
    - Python's [re] engine is a backtracking matcher over the syntax tree of
      a pattern.  Each pattern of the source is given as the tree that
      [re.compile] builds for the pattern string, which is quoted next to it
      token by token, the tokens separated by blanks.  A name that the source
      substitutes into a pattern is a run of literal characters here; this is
      what the substitution means for names without pattern metacharacters
      ([plain_names]), identifiers among them, and the properties of a scan
      are stated for such names.
    - A method that appends to [self.results] is a function that returns the
      entries it appends, in order; [analyze] puts them together. *)

From stdpp Require Import base list strings gmap sets pretty.
From Stdlib Require Import Ascii NArith Lia Sorted.

#[local] Set Warnings "-clear-no-such-hyp".

(** ** Exceptions *)

Inductive exn : Type :=
| ValueError
| IOError
| UnicodeDecodeError.

Inductive outcome (A : Type) : Type :=
| Ok (a : A)
| Raise (e : exn).
Arguments Ok {A} a.
Arguments Raise {A} e.

#[global] Instance outcome_ret : MRet outcome := λ A a, Ok a.

#[global] Instance outcome_bind : MBind outcome := λ A B f x,
  match x with
  | Ok a => f a
  | Raise e => Raise e
  end.

(** ** Text primitives (the [str] methods the source calls) *)

(** [str.isspace] on one character, for code points below 256. *)
Definition is_space (c : ascii) : bool :=
  let n := N_of_ascii c in
  ((9 <=? n) && (n <=? 13) || (28 <=? n) && (n <=? 32)
   || (n =? 133) || (n =? 160))%N.

Definition in_range (lo hi : N) (c : ascii) : bool :=
  ((lo <=? N_of_ascii c) && (N_of_ascii c <=? hi))%N.

(** The class [\w] of a [str] pattern: alphanumeric or underscore. *)
Definition is_word (c : ascii) : bool :=
  in_range 48 57 c || in_range 65 90 c || in_range 97 122 c
  || (N_of_ascii c =? 95)%N
  || (N_of_ascii c =? 170)%N || (N_of_ascii c =? 181)%N
  || (N_of_ascii c =? 186)%N
  || in_range 178 179 c || (N_of_ascii c =? 185)%N || in_range 188 190 c
  || in_range 192 214 c || in_range 216 246 c || in_range 248 255 c.

(** [s.split(sep)] for a one-character separator: never empty, empty
    segments are kept. *)
Fixpoint split (sep : ascii) (s : string) : list string :=
  match s with
  | EmptyString => [EmptyString]
  | String c s' =>
      if Ascii.eqb c sep then EmptyString :: split sep s'
      else match split sep s' with
           | seg :: segs => String c seg :: segs
           | [] => [String c EmptyString]
           end
  end.

(** [sep.join(parts)]. *)
Fixpoint join (sep : ascii) (parts : list string) : string :=
  match parts with
  | [] => EmptyString
  | [p] => p
  | p :: ps => p +:+ String sep (join sep ps)
  end.

(** [sub in s]. *)
Fixpoint contains (sub s : string) : bool :=
  String.prefix sub s ||
  match s with
  | EmptyString => false
  | String _ s' => contains sub s'
  end.

Fixpoint lstrip (s : string) : string :=
  match s with
  | String c s' => if is_space c then lstrip s' else s
  | EmptyString => EmptyString
  end.

Fixpoint rstrip (s : string) : string :=
  match s with
  | EmptyString => EmptyString
  | String c s' =>
      match rstrip s' with
      | EmptyString => if is_space c then EmptyString else String c EmptyString
      | t => String c t
      end
  end.

(** [s.strip()]. *)
Definition strip (s : string) : string := rstrip (lstrip s).

(** [s.startswith(p)] is [String.prefix p s]. *)
Definition startswith (s p : string) : bool := String.prefix p s.

(** [s.endswith(suffix)]. *)
Definition endswith (s suffix : string) : bool :=
  (String.length suffix <=? String.length s) &&
  String.eqb (String.substring (String.length s - String.length suffix)
                (String.length suffix) s) suffix.

(** [s.count(c)] for one character. *)
Fixpoint count_char (c : ascii) (s : string) : nat :=
  match s with
  | EmptyString => 0
  | String a s' => (if Ascii.eqb a c then 1 else 0) + count_char c s'
  end.

(** [s[:n]]. *)
Definition take_str (n : nat) (s : string) : string := String.substring 0 n s.

(** ** PathResolver: [SerializerUsageAnalyzer._parse_serializer_path] *)

Definition last_str (l : list string) : string := default EmptyString (last l).

(** [parts[-2]] *)
Definition penultimate (l : list string) : string :=
  default EmptyString (l !! (length l - 2)).

Definition _parse_serializer_path (serializer_path : string)
  : outcome (string * string * string) :=
  let parts := split "."%char serializer_path in
  if length parts <? 3 then Raise ValueError
  else if 3 <? length parts then
    Ok (default EmptyString (parts !! 0), penultimate parts, last_str parts)
  else
    Ok (default EmptyString (parts !! 0),
        default EmptyString (parts !! 1),
        default EmptyString (parts !! 2)).

(** ** The [re] engine

    A pattern is the syntax tree of a Python regular expression.  Only the
    constructs that occur in the patterns of the two commands are present. *)

Inductive cls : Type :=
| CChar (c : ascii)          (* a literal or escaped character *)
| CDot                       (* [.]: any character but a newline *)
| CDotAll                    (* [.] under [re.DOTALL] *)
| CSpace                     (* [\s] *)
| CWord                      (* [\w] *)
| CSet (negated : bool) (ranges : list (ascii * ascii)).  (* [[...]], [[^...]] *)

Definition newline : ascii := Ascii.ascii_of_nat 10.
Definition tab : ascii := Ascii.ascii_of_nat 9.
Definition dquote : ascii := Ascii.ascii_of_nat 34.

Definition in_ranges (ranges : list (ascii * ascii)) (c : ascii) : bool :=
  existsb (λ '(lo, hi), in_range (N_of_ascii lo) (N_of_ascii hi) c) ranges.

Definition cls_match (k : cls) (c : ascii) : bool :=
  match k with
  | CChar a => Ascii.eqb c a
  | CDot => negb (Ascii.eqb c newline)
  | CDotAll => true
  | CSpace => is_space c
  | CWord => is_word c
  | CSet negated ranges => xorb negated (in_ranges ranges c)
  end.

Inductive regex : Type :=
| Eps
| Chr (k : cls)
| Seq (r1 r2 : regex)
| Alt (r1 r2 : regex)                                    (* [r1|r2] *)
| Rep (r : regex) (lo : nat) (hi : option nat) (greedy : bool)
                                   (* [r{lo,hi}], lazy when [greedy] is off *)
| Grp (r : regex).                                       (* the group [(r)] *)

Definition star (r : regex) : regex := Rep r 0 None true.        (* [r*] *)
Definition plus (r : regex) : regex := Rep r 1 None true.        (* [r+] *)
Definition opt (r : regex) : regex := Rep r 0 (Some 1) true.     (* [r?] *)
Definition star_lazy (r : regex) : regex := Rep r 0 None false.  (* [r*?] *)

(** A run of literal characters. *)
Fixpoint Lit (s : string) : regex :=
  match s with
  | EmptyString => Eps
  | String c s' => Seq (Chr (CChar c)) (Lit s')
  end.

Definition seqs (rs : list regex) : regex := foldr Seq Eps rs.

(** The state of one match attempt: the position reached, the text left, and
    the span of group 1 (start position and text) once it has closed. *)
Record mstate : Type := MState {
  pos : nat;
  rest : string;
  grp1 : option (nat * string)
}.

Definition or_else {A : Type} (x : option A) (y : unit → option A) : option A :=
  match x with
  | Some a => Some a
  | None => y tt
  end.

Definition below (hi : option nat) (n : nat) : bool :=
  match hi with
  | Some h => n <? h
  | None => true
  end.

(** The loop of a repetition [body{lo,hi}]: [n] rounds are done, [k] is the
    rest of the pattern.  A greedy repetition tries one more round before it
    stops, a lazy one stops first.  A round that consumes nothing is not
    repeated; every repeated sub-pattern of the two commands consumes at least
    one character, so [fuel], the length of the text left, bounds the rounds. *)
Fixpoint rep_loop {A : Type}
    (body : mstate → (mstate → option A) → option A)
    (lo : nat) (hi : option nat) (greedy : bool) (k : mstate → option A)
    (fuel n : nat) (st : mstate) {struct fuel} : option A :=
  let stop := λ _ : unit, if lo <=? n then k st else None in
  let more := λ _ : unit,
    match fuel with
    | 0 => None
    | S fuel' =>
        if below hi n then
          body st (λ st',
            if String.length (rest st') <? String.length (rest st)
            then rep_loop body lo hi greedy k fuel' (S n) st' else None)
        else None
    end in
  if greedy then or_else (more tt) stop else or_else (stop tt) more.

(** Backtracking matcher in continuation-passing style: [k] is the rest of the
    pattern, and alternatives are tried in the engine's order, the left branch
    of [|] first. *)
Fixpoint rmatch {A : Type} (r : regex) (st : mstate) (k : mstate → option A)
  : option A :=
  match r with
  | Eps => k st
  | Chr c =>
      match rest st with
      | String a s' =>
          if cls_match c a then k (MState (S (pos st)) s' (grp1 st)) else None
      | EmptyString => None
      end
  | Seq r1 r2 => rmatch r1 st (λ st', rmatch r2 st' k)
  | Alt r1 r2 => or_else (rmatch r1 st k) (λ _, rmatch r2 st k)
  | Grp r1 =>
      rmatch r1 st (λ st',
        k (MState (pos st') (rest st')
             (Some (pos st, take_str (pos st' - pos st) (rest st)))))
  | Rep r1 lo hi greedy =>
      rep_loop (rmatch r1) lo hi greedy k (String.length (rest st)) 0 st
  end.

(** One attempt at a fixed start; [must_advance] rejects an empty match. *)
Definition match_at (r : regex) (p : nat) (s : string) (must_advance : bool)
  : option mstate :=
  rmatch r (MState p s None)
    (λ st, if must_advance && (pos st =? p) then None else Some st).

(** What a match object gives: [start()], [group(0)], [end()] with the text
    after it, and [start(1)], [group(1)]. *)
Record found : Type := Found {
  f_start : nat;
  f_text : string;
  f_end : nat;
  f_rest : string;
  f_group1 : option (nat * string)
}.

(** Leftmost match at or after the current position. *)
Fixpoint search_from (r : regex) (p : nat) (s : string) (must_advance : bool)
  : option found :=
  match match_at r p s must_advance with
  | Some st => Some (Found p (take_str (pos st - p) s) (pos st) (rest st) (grp1 st))
  | None =>
      match s with
      | EmptyString => None
      | String _ s' => search_from r (S p) s' false
      end
  end.

(** [re.search(pattern, s)] used as a condition. *)
Definition re_search (r : regex) (s : string) : bool :=
  bool_decide (is_Some (search_from r 0 s false)).

Fixpoint finditer_from (fuel : nat) (r : regex) (p : nat) (s : string)
    (must_advance : bool) : list found :=
  match fuel with
  | 0 => []
  | S fuel' =>
      match search_from r p s must_advance with
      | None => []
      | Some m =>
          m :: finditer_from fuel' r (f_end m) (f_rest m) (f_end m =? f_start m)
      end
  end.

(** [re.finditer(pattern, s)]: successive non-overlapping matches.  After an
    empty match the scan stays in place but the next match must advance, so
    twice the length of the text bounds the number of matches. *)
Definition re_finditer (r : regex) (s : string) : list found :=
  finditer_from (2 * String.length s + 2) r 0 s false.

(** [re.findall(pattern, s)] for a pattern without groups. *)
Definition re_findall (r : regex) (s : string) : list string :=
  f_text <$> re_finditer r s.

(** ** The file tree

    What the commands see of the project: the application directories of the
    Django registry, the files [os.walk] yields below a directory (as pairs of
    the file name and of [os.path.relpath(os.path.join(root, file))], in
    order), which paths exist, and what reading a file as UTF-8 text gives. *)

Inductive unreadable : Type :=
| NoAccess        (* the file cannot be opened or read: [IOError] *)
| Undecodable.    (* its bytes are not UTF-8: [UnicodeDecodeError] *)

Record FileSystem : Type := {
  project_dirs : list string;      (* iteration order of [set(django_apps)] *)
  app_dirs : list string;          (* [[app.path for app in get_app_configs()]] *)
  os_walk : string → list (string * string);
  path_exists : string → bool;
  file_text : string → string + unreadable
}.

(** [with open(file_path, 'r', encoding='utf-8') as f: content = f.read()] *)
Definition read_text (fs : FileSystem) (file_path : string) : outcome string :=
  match file_text fs file_path with
  | inl content => Ok content
  | inr NoAccess => Raise IOError
  | inr Undecodable => Raise UnicodeDecodeError
  end.

(** The files a pass visits:
    [for app_dir in dirs: for root, _, files in os.walk(app_dir):
       for file in files: if file.endswith('.py')]. *)
Definition python_files (fs : FileSystem) (dirs : list string) : list string :=
  app_dir ← dirs;
  '(file, file_path) ← os_walk fs app_dir;
  if endswith file ".py" then [file_path] else [].

(** The loop over files with its
    [try: ... except (UnicodeDecodeError, IOError): continue].
    The body reads the file before it records anything, so a caught error
    leaves nothing of that file behind. *)
Fixpoint for_files {A : Type} (files : list string)
    (body : string → outcome (list A)) : outcome (list A) :=
  match files with
  | [] => Ok []
  | file_path :: files' =>
      match body file_path with
      | Ok found_here =>
          later ← for_files files' body; Ok (found_here ++ later)
      | Raise UnicodeDecodeError | Raise IOError => for_files files' body
      | Raise e => Raise e
      end
  end.

(** [content.split('\n')] with the running [line_num]. *)
Definition numbered_lines (content : string) : list (nat * string) :=
  imap (λ i line, (S i, line)) (split newline content).

(** ** Occurrences and scan results *)

(** The two shapes of a result entry: [{"file", "import_stmt"}] and
    [{"file", "line", "content"}]. *)
Inductive item : Type :=
| ImportItem (file import_stmt : string)
| LineItem (file : string) (line : nat) (content : string).

Definition item_file (it : item) : string :=
  match it with
  | ImportItem f _ => f
  | LineItem f _ _ => f
  end.

(** [item.get("line", 0)] *)
Definition item_line (it : item) : nat :=
  match it with
  | ImportItem _ _ => 0
  | LineItem _ n _ => n
  end.

Definition item_content (it : item) : string :=
  match it with
  | ImportItem _ s => s
  | LineItem _ _ s => s
  end.

#[global] Instance item_eq_dec : EqDecision item.
Proof. solve_decision. Defined.

Record Results : Type := {
  direct_imports : list item;
  serializer_class_declarations : list item;
  field_usages : list item;
  serializer_inheritance : list item;
  direct_instantiations : list item;
  many_true_usages : list item;
  inner_class_usages : list item;
  meta_class_references : list item
}.

(** The state [__init__] sets up from the dotted path. *)
Record Analyzer : Type := {
  app_name : string;
  file_name : string;
  serializer_name : string
}.

Definition SerializerUsageAnalyzer (serializer_path : string) : outcome Analyzer :=
  '(a, f, n) ← _parse_serializer_path serializer_path;
  Ok {| app_name := a; file_name := f; serializer_name := n |}.

Definition spaces : regex := plus (Chr CSpace).          (* [\s+] *)
Definition spaces0 : regex := star (Chr CSpace).         (* [\s*] *)
Definition word : regex := plus (Chr CWord).             (* [\w+] *)
Definition any : regex := star (Chr CDot).               (* [.*] *)
Definition letters : regex :=                            (* [[A-Za-z]+] *)
  plus (Chr (CSet false [("A", "Z"); ("a", "z")]%char)).

(** The frame shared by the line-based passes: every file is read, split
    into lines, and [per_line rel_path line_num line] gives what the loop body
    appends for one line. *)
Definition scan_lines (fs : FileSystem)
    (per_line : string → nat → string → list item) : outcome (list item) :=
  for_files (python_files fs (project_dirs fs)) (λ file_path,
    content ← read_text fs file_path;
    Ok ('(line_num, line) ← numbered_lines content;
        per_line file_path line_num line)).

(** *** Pass 1: direct imports *)

Definition import_patterns (self : Analyzer) : list regex :=
  let app := Lit (app_name self) in
  let file := Lit (file_name self) in
  let name := Lit (serializer_name self) in
  [ (* from \s+ {app} \. {file} \s+ import \s+ .* {name} *)
    seqs [Lit "from"; spaces; app; Lit "."; file; spaces; Lit "import"; spaces;
          any; name];
    (* from \s+ {app} \. {file} \s+ import \s+ \( .* {name} .* \) *)
    seqs [Lit "from"; spaces; app; Lit "."; file; spaces; Lit "import"; spaces;
          Lit "("; any; name; any; Lit ")"];
    (* from \s+ {app} \.serializers \s+ import \s+ .* {name} *)
    seqs [Lit "from"; spaces; app; Lit ".serializers"; spaces; Lit "import";
          spaces; any; name];
    (* from \s+ {app} \.serializers \s+ import \s+ \( .* {name} .* \) *)
    seqs [Lit "from"; spaces; app; Lit ".serializers"; spaces; Lit "import";
          spaces; Lit "("; any; name; any; Lit ")"];
    (* from \s+ {app} \.rest\.serializers\. {file} \s+ import \s+ .* {name} *)
    seqs [Lit "from"; spaces; app; Lit ".rest.serializers."; file; spaces;
          Lit "import"; spaces; any; name];
    (* from \s+ {app} \.rest\.serializers \s+ import \s+ .* {name} *)
    seqs [Lit "from"; spaces; app; Lit ".rest.serializers"; spaces;
          Lit "import"; spaces; any; name] ].

Definition _scan_for_direct_imports (fs : FileSystem) (self : Analyzer)
  : outcome (list item) :=
  for_files (python_files fs (project_dirs fs)) (λ file_path,
    content ← read_text fs file_path;
    Ok (pattern ← import_patterns self;
        match re_findall pattern content with
        | first_match :: _ => [ImportItem file_path first_match]
        | [] => []
        end)).

(** *** Pass 2: declarations as a view's serializer *)

Definition declaration_patterns (self : Analyzer) : list regex :=
  let name := Lit (serializer_name self) in
  [ (* serializer_class \s* = \s* {name} *)
    seqs [Lit "serializer_class"; spaces0; Lit "="; spaces0; name];
    (* serializer_class \s* = \s* {name} \. [A-Za-z]+ *)
    seqs [Lit "serializer_class"; spaces0; Lit "="; spaces0; name; Lit ".";
          letters];
    (* (?:return|yield) \s+ {name} *)
    seqs [Alt (Lit "return") (Lit "yield"); spaces; name];
    (* serializer \s* = \s* {name} *)
    seqs [Lit "serializer"; spaces0; Lit "="; spaces0; name];
    (* {name} between two characters of the class of the single and the
       double quote *)
    seqs [Chr (CSet false [("'"%char, "'"%char); (dquote, dquote)]); name;
          Chr (CSet false [("'"%char, "'"%char); (dquote, dquote)])];
    (* : \s* {name} *)
    seqs [Lit ":"; spaces0; name] ].

(** The multi-line pattern, token by token:
    def \s+ get_serializer (?:_class)? \s* \( [^)]* \): \s*
    (?: \n [^\n]* ){0,20}? \n [ \t]+ (?:return|yield) \s+ ( [^()\n]* ) *)
Definition get_serializer_pattern : regex :=
  seqs [Lit "def"; spaces; Lit "get_serializer"; opt (Lit "_class"); spaces0;
        Lit "("; star (Chr (CSet true [(")", ")")]%char)); Lit "):"; spaces0;
        Rep (Seq (Chr (CChar newline))
                 (star (Chr (CSet true [(newline, newline)]))))
            0 (Some 20) false;
        Chr (CChar newline);
        plus (Chr (CSet false [(" "%char, " "%char); (tab, tab)]));
        Alt (Lit "return") (Lit "yield"); spaces;
        Grp (star (Chr (CSet true [("("%char, "("%char); (")"%char, ")"%char);
                                   (newline, newline)])))].

Definition _scan_for_serializer_class_declarations (fs : FileSystem)
    (self : Analyzer) : outcome (list item) :=
  for_files (python_files fs (project_dirs fs)) (λ file_path,
    content ← read_text fs file_path;
    Ok ((* standard patterns, line by line *)
        ('(line_num, line) ← numbered_lines content;
         pattern ← declaration_patterns self;
         if re_search pattern line
         then [LineItem file_path line_num (strip line)] else [])
        ++
        (* get_serializer_class methods spanning several lines *)
        (m ← re_finditer get_serializer_pattern content;
         match f_group1 m with
         | Some (start_pos, method_body) =>
             if contains (serializer_name self) method_body then
               let line_count :=
                 count_char newline (take_str start_pos content) + 1 in
               [LineItem file_path line_count
                  ("Dynamic selection in get_serializer_class: "
                   +:+ strip method_body)]
             else []
         | None => []
         end))).

(** *** Pass 3: field usages *)

Definition field_patterns (self : Analyzer) : list regex :=
  let name := Lit (serializer_name self) in
  [ (* \w+ \s* = \s* {name} \( *)
    seqs [word; spaces0; Lit "="; spaces0; name; Lit "("];
    (* \w+ \s* = \s* {name} \. \w+ \( *)
    seqs [word; spaces0; Lit "="; spaces0; name; Lit "."; word; Lit "("] ].

Definition _scan_for_field_usages (fs : FileSystem) (self : Analyzer)
  : outcome (list item) :=
  scan_lines fs (λ rel_path line_num line,
    pattern ← field_patterns self;
    if re_search pattern line
    then [LineItem rel_path line_num (strip line)] else []).

(** *** Pass 4: inheritance *)

(** class \s+ \w+ \( {name} .* \): *)
Definition inheritance_pattern (self : Analyzer) : regex :=
  seqs [Lit "class"; spaces; word; Lit "("; Lit (serializer_name self); any;
        Lit "):"].

Definition _scan_for_serializer_inheritance (fs : FileSystem) (self : Analyzer)
  : outcome (list item) :=
  scan_lines fs (λ rel_path line_num line,
    if re_search (inheritance_pattern self) line
    then [LineItem rel_path line_num (strip line)] else []).

(** *** Pass 5: direct instantiations *)

Definition instantiation_patterns (self : Analyzer) : list regex :=
  let name := Lit (serializer_name self) in
  [ (* {name} \( *)
    seqs [name; Lit "("];
    (* {name} \. \w+ \( *)
    seqs [name; Lit "."; word; Lit "("] ].

(** The loop over files for a pass that carries state: a caught read error
    leaves the state as it was. *)
Fixpoint for_files_st {S : Type} (files : list string)
    (body : string → S → outcome S) (s : S) : outcome S :=
  match files with
  | [] => Ok s
  | file_path :: files' =>
      match body file_path s with
      | Ok s' => for_files_st files' body s'
      | Raise UnicodeDecodeError | Raise IOError => for_files_st files' body s
      | Raise e => Raise e
      end
  end.

(** [self.seen_results] paired with [self.results["direct_instantiations"]]. *)
Definition inst_state : Type := gset (string * nat * string) * list item.

(** The body of the innermost loop, for one line and one pattern. *)
Definition instantiation_step (rel_path : string) (line_num : nat)
    (line : string) (st : inst_state) (pattern : regex) : inst_state :=
  if re_search pattern line && negb (contains "class" line)
     && negb (contains "=" line)
  then
    let key := (rel_path, line_num, strip line) in
    if decide (key ∈ st.1) then st
    else ({[key]} ∪ st.1, st.2 ++ [LineItem rel_path line_num (strip line)])
  else st.

Definition instantiation_file (self : Analyzer) (rel_path content : string)
    (st : inst_state) : inst_state :=
  foldl (λ st '(line_num, line),
           foldl (instantiation_step rel_path line_num line) st
             (instantiation_patterns self))
    st (numbered_lines content).

Definition _scan_for_direct_instantiations (fs : FileSystem) (self : Analyzer)
  : outcome (list item) :=
  st ← for_files_st (python_files fs (project_dirs fs))
         (λ file_path st,
            content ← read_text fs file_path;
            Ok (instantiation_file self file_path content st))
         (∅, []);
  Ok st.2.

(** *** Pass 6: many=True usages *)

Definition many_true_patterns (self : Analyzer) : list regex :=
  let name := Lit (serializer_name self) in
  [ (* {name} \( .* many=True *)
    seqs [name; Lit "("; any; Lit "many=True"];
    (* {name} \. \w+ \( .* many=True *)
    seqs [name; Lit "."; word; Lit "("; any; Lit "many=True"] ].

Definition _scan_for_many_true_usages (fs : FileSystem) (self : Analyzer)
  : outcome (list item) :=
  scan_lines fs (λ rel_path line_num line,
    pattern ← many_true_patterns self;
    if re_search pattern line
    then [LineItem rel_path line_num (strip line)] else []).

(** *** Pass 7: inner class usages *)

(** {name} \. [A-Za-z]+ *)
Definition inner_class_pattern (self : Analyzer) : regex :=
  seqs [Lit (serializer_name self); Lit "."; letters].

Definition _scan_for_inner_class_usages (fs : FileSystem) (self : Analyzer)
  : outcome (list item) :=
  scan_lines fs (λ rel_path line_num line,
    if re_search (inner_class_pattern self) line
       && negb (contains "serializer_class" line)
    then [LineItem rel_path line_num (strip line)] else []).

(** *** Pass 8: Meta class references *)

(** {name} \. Meta *)
Definition meta_class_pattern (self : Analyzer) : regex :=
  seqs [Lit (serializer_name self); Lit "."; Lit "Meta"].

Definition _scan_for_meta_class_references (fs : FileSystem) (self : Analyzer)
  : outcome (list item) :=
  scan_lines fs (λ rel_path line_num line,
    if re_search (meta_class_pattern self) line
    then [LineItem rel_path line_num (strip line)] else []).

(** *** The fallback through an enclosing serializer *)

(** class \s+ ( \w+ Serializer ) .*? class \s+ {name}, under [re.DOTALL] *)
Definition potential_parent_pattern (self : Analyzer) : regex :=
  seqs [Lit "class"; spaces; Grp (Seq word (Lit "Serializer"));
        star_lazy (Chr CDotAll); Lit "class"; spaces;
        Lit (serializer_name self)].

Definition _find_potential_parent_serializers (fs : FileSystem)
    (self : Analyzer) : outcome (list string) :=
  for_files (python_files fs (project_dirs fs)) (λ file_path,
    content ← read_text fs file_path;
    Ok (m ← re_finditer (potential_parent_pattern self) content;
        match f_group1 m with
        | Some (_, parent_serializer) => [parent_serializer]
        | None => []
        end)).

(** The loop [for parent in parent_serializers]. *)
Fixpoint parent_usages (fs : FileSystem) (self : Analyzer)
    (parent_serializers : list string) : outcome (list item) :=
  match parent_serializers with
  | [] => Ok []
  | parent :: parents' =>
      (* {parent} \. {name} *)
      let pattern := seqs [Lit parent; Lit "."; Lit (serializer_name self)] in
      here ← scan_lines fs (λ rel_path line_num line,
               if re_search pattern line
               then [LineItem rel_path line_num
                       ("Used through parent: " +:+ strip line)]
               else []);
      later ← parent_usages fs self parents';
      Ok (here ++ later)
  end.

Definition _scan_for_parent_serializer_usages (fs : FileSystem)
    (self : Analyzer) : outcome (list item) :=
  parent_serializers ← _find_potential_parent_serializers fs self;
  parent_usages fs self parent_serializers.

(** *** ClassLocator: [find_serializer_in_file] *)

(** [os.path.basename] *)
Definition basename (path : string) : string := last_str (split "/" path).

(** The first loop: the conventional locations of the defining file. *)
Fixpoint check_possible_files (fs : FileSystem) (self : Analyzer)
    (possible_file_patterns : list string) : outcome bool :=
  match possible_file_patterns with
  | [] => Ok false
  | file_pattern :: others =>
      let attempt : outcome bool :=
        if path_exists fs file_pattern then
          content ← read_text fs file_pattern;
          (* class \s+ {name} \( *)
          let class_pattern :=
            seqs [Lit "class"; spaces; Lit (serializer_name self); Lit "("] in
          (* class \s+ \w+ Serializer .*? class \s+ {name} \(, re.DOTALL *)
          let inner_class_pattern :=
            seqs [Lit "class"; spaces; word; Lit "Serializer";
                  star_lazy (Chr CDotAll); Lit "class"; spaces;
                  Lit (serializer_name self); Lit "("] in
          Ok (re_search class_pattern content
              || re_search inner_class_pattern content)
        else Ok false in
      match attempt with
      | Ok true => Ok true
      | Ok false => check_possible_files fs self others
      | Raise UnicodeDecodeError | Raise IOError =>
          check_possible_files fs self others
      | Raise e => Raise e
      end
  end.

(** The last resort: any file below the directory named like the app. *)
Fixpoint check_app_files (fs : FileSystem) (self : Analyzer)
    (files : list string) : outcome bool :=
  match files with
  | [] => Ok false
  | file_path :: others =>
      let attempt : outcome bool :=
        content ← read_text fs file_path;
        (* class \s+ \w+ .*? class \s+ {name} \(, re.DOTALL *)
        let inner_class_pattern :=
          seqs [Lit "class"; spaces; word; star_lazy (Chr CDotAll);
                Lit "class"; spaces; Lit (serializer_name self); Lit "("] in
        Ok (re_search inner_class_pattern content) in
      match attempt with
      | Ok true => Ok true
      | Ok false => check_app_files fs self others
      | Raise UnicodeDecodeError | Raise IOError =>
          check_app_files fs self others
      | Raise e => Raise e
      end
  end.

Definition find_serializer_in_file (fs : FileSystem) (self : Analyzer)
  : outcome bool :=
  let possible_file_patterns :=
    [ app_name self +:+ "/rest/serializers/" +:+ file_name self +:+ ".py";
      app_name self +:+ "/" +:+ file_name self +:+ ".py";
      app_name self +:+ "/serializers/" +:+ file_name self +:+ ".py";
      app_name self +:+ "/custom_serializer/" +:+ file_name self +:+ ".py" ] in
  found_directly ← check_possible_files fs self possible_file_patterns;
  if found_directly : bool then Ok true else
  parent_serializers ← _find_potential_parent_serializers fs self;
  match parent_serializers with
  | _ :: _ => Ok true
  | [] =>
      match head (filter (λ dir_path, basename dir_path = app_name self)
                    (project_dirs fs)) with
      | Some app_dir =>
          if decide (app_dir = EmptyString) then Ok false   (* [if app_dir:] *)
          else check_app_files fs self (python_files fs [app_dir])
      | None => Ok false
      end
  end.

(** *** Deduplicator: [_deduplicate_results] *)

(** [(item["file"], item.get("line", 0))] *)
Definition item_key (it : item) : string * nat := (item_file it, item_line it).

(** The loop over one category, [seen] being the keys met so far. *)
Fixpoint unique_from (seen : gset (string * nat)) (items : list item)
  : list item :=
  match items with
  | [] => []
  | it :: items' =>
      if decide (item_key it ∈ seen) then unique_from seen items'
      else it :: unique_from ({[item_key it]} ∪ seen) items'
  end.

Definition unique_results (items : list item) : list item := unique_from ∅ items.

Definition _deduplicate_results (r : Results) : Results :=
  {| direct_imports := unique_results (direct_imports r);
     serializer_class_declarations :=
       unique_results (serializer_class_declarations r);
     field_usages := unique_results (field_usages r);
     serializer_inheritance := unique_results (serializer_inheritance r);
     direct_instantiations := unique_results (direct_instantiations r);
     many_true_usages := unique_results (many_true_usages r);
     inner_class_usages := unique_results (inner_class_usages r);
     meta_class_references := unique_results (meta_class_references r) |}.

(** *** [analyze] *)

Definition analyze (fs : FileSystem) (self : Analyzer) : outcome Results :=
  _ ← find_serializer_in_file fs self;
  imports ← _scan_for_direct_imports fs self;
  declarations ← _scan_for_serializer_class_declarations fs self;
  fields ← _scan_for_field_usages fs self;
  inheritance ← _scan_for_serializer_inheritance fs self;
  instantiations ← _scan_for_direct_instantiations fs self;
  many_true ← _scan_for_many_true_usages fs self;
  inner ← _scan_for_inner_class_usages fs self;
  meta ← _scan_for_meta_class_references fs self;
  through_parent ← _scan_for_parent_serializer_usages fs self;
  Ok (_deduplicate_results
        {| direct_imports := imports;
           serializer_class_declarations := declarations ++ through_parent;
           field_usages := fields;
           serializer_inheritance := inheritance;
           direct_instantiations := instantiations;
           many_true_usages := many_true;
           inner_class_usages := inner;
           meta_class_references := meta |}).

(** [SerializerUsageAnalyzer(serializer_path).analyze()] *)
Definition analyze_path (fs : FileSystem) (serializer_path : string)
  : outcome Results :=
  self ← SerializerUsageAnalyzer serializer_path;
  analyze fs self.

(** ** The command [analyze_serializer_usage] *)

Module AnalyzeSerializerUsage.

(** The message of the [ValueError] that [_parse_serializer_path] raises. *)
Definition path_format_message : string :=
  "Serializer path must be in format 'app.file_name.serializer_name' or 'app.path.to.file_name.serializer_name'".

(** How [Command.handle] ends, up to the lines it prints or saves: with its
    report, with the [CommandError] made from a [ValueError], or with an
    exception that its [except (ValueError, ImportError)] lets through. *)
Inductive run_end : Type :=
| Report (output_lines : list string)
| CommandError (message : string)
| KeyError
| Uncaught (e : exn).

(** The line of an import entry; its two keys are looked up. *)
Definition import_line (imp : item) : option string :=
  match imp with
  | ImportItem file import_stmt => Some ("  - " +:+ file +:+ ": " +:+ import_stmt)
  | LineItem _ _ _ => None
  end.

(** The line of an entry with a line number; its three keys are looked up. *)
Definition usage_line (usage : item) : option string :=
  match usage with
  | LineItem file line content =>
      Some ("  - " +:+ file +:+ ":" +:+ pretty line +:+ ": " +:+ content)
  | ImportItem _ _ => None
  end.

(** One [if results[...]: ... else: ...] of the verbose part. *)
Definition detail_block (heading nothing : string)
    (render : item → option string) (items : list item)
  : option (list string) :=
  match items with
  | [] => Some [nothing]
  | _ :: _ => entries ← mapM render items; Some (heading :: entries)
  end.

Definition summary_lines (results : Results) : list string :=
  [ "  - Direct imports: " +:+ pretty (length (direct_imports results));
    "  - Used as serializer_class: "
      +:+ pretty (length (serializer_class_declarations results));
    "  - Used as a field: " +:+ pretty (length (field_usages results));
    "  - Other serializers inherit from it: "
      +:+ pretty (length (serializer_inheritance results));
    "  - Direct instantiations: "
      +:+ pretty (length (direct_instantiations results));
    "  - Used with many=True: " +:+ pretty (length (many_true_usages results));
    "  - Inner class usages: " +:+ pretty (length (inner_class_usages results));
    "  - Meta class references: "
      +:+ pretty (length (meta_class_references results)) ].

Definition detail_lines (results : Results) : option (list string) :=
  imports ←
    detail_block (String newline "Direct imports:")
      (String newline "No direct imports found.")
      import_line (direct_imports results);
  declarations ←
    detail_block (String newline "Used as serializer_class in views:")
      (String newline "Not used as serializer_class in any view.")
      usage_line (serializer_class_declarations results);
  fields ←
    detail_block (String newline "Used as a field in other serializers:")
      (String newline "Not used as a field in other serializers.")
      usage_line (field_usages results);
  inheritance ←
    detail_block
      (String newline "Other serializers inherit from this serializer:")
      (String newline "No serializers inherit from this serializer.")
      usage_line (serializer_inheritance results);
  instantiations ←
    detail_block (String newline "Direct instantiations:")
      (String newline "No direct instantiations found.")
      usage_line (direct_instantiations results);
  many_true ←
    detail_block (String newline "Used with many=True:")
      (String newline "Not used with many=True.")
      usage_line (many_true_usages results);
  inner ←
    detail_block (String newline "Inner class usages:")
      (String newline "No inner class usages found.")
      usage_line (inner_class_usages results);
  meta ←
    detail_block (String newline "Meta class references:")
      (String newline "No Meta class references found.")
      usage_line (meta_class_references results);
  Some (imports ++ declarations ++ fields ++ inheritance ++ instantiations
        ++ many_true ++ inner ++ meta).

Definition output_lines (serializer_path : string) (verbose : bool)
    (results : Results) : option (list string) :=
  let summary :=
    ("Analysis of serializer " +:+ serializer_path +:+ ":")
    :: String newline "Summary:" :: summary_lines results in
  if verbose then details ← detail_lines results; Some (summary ++ details)
  else Some (summary
             ++ [String newline
                   "Run with --verbose to see details of each usage."]).

(** [Command.handle], up to [output_lines]. *)
Definition handle (fs : FileSystem) (serializer_path : string)
    (verbose : bool) : run_end :=
  match analyze_path fs serializer_path with
  | Ok results =>
      match output_lines serializer_path verbose results with
      | Some lines => Report lines
      | None => KeyError
      end
  | Raise ValueError => CommandError path_format_message
  | Raise e => Uncaught e
  end.

End AnalyzeSerializerUsage.

(** ** The batch command [find_unused_serializers] *)

(** *** ClassEnumerator: [SerializerFinder.find_all_serializers] *)

Record Candidate : Type := {
  c_name : string;
  c_path : string;
  c_file : string
}.

Definition serializer_patterns : list regex :=
  [ (* class \s+ ( \w+ Serializer ) \s* \( *)
    seqs [Lit "class"; spaces; Grp (Seq word (Lit "Serializer")); spaces0;
          Lit "("];
    (* class \s+ ( \w+ Serializer ) \s* : *)
    seqs [Lit "class"; spaces; Grp (Seq word (Lit "Serializer")); spaces0;
          Lit ":"] ].

(** [os.path.splitext(base)[0]] for a name without a directory part: the text
    before the last dot, unless only dots come before it. *)
Definition splitext_root (base : string) : string :=
  let segments := split "." base in
  let before := removelast segments in
  if forallb (λ seg, String.eqb seg EmptyString) before then base
  else join "." before.

Definition candidate_path (rel_path serializer_name : string) : string :=
  let parts := split "/" rel_path in
  let app_name := default EmptyString (parts !! 0) in
  let file_name := splitext_root (last_str parts) in
  if contains "rest/serializers" rel_path then
    app_name +:+ ".rest.serializers." +:+ file_name +:+ "." +:+ serializer_name
  else if contains "serializers" rel_path then
    app_name +:+ ".serializers." +:+ file_name +:+ "." +:+ serializer_name
  else
    app_name +:+ "." +:+ file_name +:+ "." +:+ serializer_name.

(** The [Remove duplicates] loop: first candidate of each name. *)
Fixpoint unique_by_name (seen : gset string) (l : list Candidate)
  : list Candidate :=
  match l with
  | [] => []
  | c :: l' =>
      if decide (c_name c ∈ seen) then unique_by_name seen l'
      else c :: unique_by_name ({[c_name c]} ∪ seen) l'
  end.

Definition find_all_serializers (fs : FileSystem) : outcome (list Candidate) :=
  serializers ←
    for_files (python_files fs (app_dirs fs)) (λ file_path,
      content ← read_text fs file_path;
      Ok (pattern ← serializer_patterns;
          m ← re_finditer pattern content;
          match f_group1 m with
          | Some (_, serializer_name) =>
              [ {| c_name := serializer_name;
                   c_path := candidate_path file_path serializer_name;
                   c_file := file_path |} ]
          | None => []
          end));
  Ok (unique_by_name ∅ serializers).

(** *** ReportAggregator: the loop of [Command.handle] *)

Record Options : Type := {
  threshold : Z;
  limit : option Z;
  target_app : option string
}.

Record SerializerResult : Type := {
  r_name : string;
  r_path : string;
  r_file : string;
  total_usages : nat;
  details : Results
}.

(** The [sum([...])] over the eight categories. *)
Definition sum_usages (results : Results) : nat :=
  length (direct_imports results)
  + length (serializer_class_declarations results)
  + length (field_usages results)
  + length (serializer_inheritance results)
  + length (direct_instantiations results)
  + length (many_true_usages results)
  + length (inner_class_usages results)
  + length (meta_class_references results).

Definition serializer_result (c : Candidate) (results : Results)
  : SerializerResult :=
  {| r_name := c_name c; r_path := c_path c; r_file := c_file c;
     total_usages := sum_usages results; details := results |}.

(** [unused_serializers] and [all_results] *)
Definition batch_state : Type := list SerializerResult * list SerializerResult.

(** One round of [for i, serializer in enumerate(serializers)], with its
    [try: ... except Exception]; [scan] is the per-class scan
    [SerializerUsageAnalyzer(serializer['path']).analyze()]. *)
Definition analyze_candidate (scan : string → outcome Results) (threshold : Z)
    (st : batch_state) (serializer : Candidate) : batch_state :=
  match scan (c_path serializer) with
  | Ok results =>
      let result := serializer_result serializer results in
      (if (Z.of_nat (total_usages result) <=? threshold)%Z
       then st.1 ++ [result] else st.1,
       st.2 ++ [result])
  | Raise _ => st
  end.

(** [list.sort(key=lambda x: x['total_usages'])]: the sort is stable, and a
    stable sort has one possible result; it is computed here by insertion. *)
Fixpoint insert_sorted (x : SerializerResult) (l : list SerializerResult)
  : list SerializerResult :=
  match l with
  | [] => [x]
  | y :: l' =>
      if total_usages x <=? total_usages y then x :: y :: l'
      else y :: insert_sorted x l'
  end.

Definition sort_by_total_usages (l : list SerializerResult)
  : list SerializerResult :=
  foldr insert_sorted [] l.

(** The candidates after the [--app] filter and the [--limit] cut. *)
Definition select_candidates (opts : Options) (serializers : list Candidate)
  : list Candidate :=
  let filtered :=
    match target_app opts with
    | Some app =>
        if decide (app = EmptyString) then serializers
        else filter (λ s, startswith (c_path s) (app +:+ ".") = true) serializers
    | None => serializers
    end in
  match limit opts with
  | Some n => if (0 <? n)%Z then take (Z.to_nat n) filtered else filtered
  | None => filtered
  end.

(** The loop and the final sort, from the candidates on. *)
Definition run_batch (scan : string → outcome Results) (threshold : Z)
    (serializers : list Candidate) : batch_state :=
  let st := foldl (analyze_candidate scan threshold) ([], []) serializers in
  (sort_by_total_usages st.1, st.2).

(** [Command.handle], up to the report: the sorted unused list and all
    results. *)
Definition handle (fs : FileSystem) (opts : Options) : outcome batch_state :=
  serializers ← find_all_serializers fs;
  Ok (run_batch (analyze_path fs) (threshold opts)
        (select_candidates opts serializers)).

(** *** The progress file of the loop *)

(** What [_save_intermediate_results] is given and derives: the unused list
    as it stands, [len(all_results)], and the [total_found] of the JSON
    form. *)
Record Snapshot : Type := {
  s_unused : list SerializerResult;
  analyzed_so_far : nat;
  total_found : nat
}.

Definition _save_intermediate_results
    (unused_serializers all_results : list SerializerResult) : Snapshot :=
  {| s_unused := unused_serializers;
     analyzed_so_far := length all_results;
     total_found := length all_results + 1 |}.

(** One round of the loop of [Command.handle] with its progress file:
    [saving] tells whether [intermediate_file] is set, [i] is the index
    [enumerate] gives, and the last component lists the snapshots written. *)
Definition analyze_candidate_saving (scan : string → outcome Results)
    (threshold : Z) (saving : bool) (st : batch_state * list Snapshot)
    (entry : nat * Candidate) : batch_state * list Snapshot :=
  let '(i, serializer) := entry in
  match scan (c_path serializer) with
  | Ok results =>
      let result := serializer_result serializer results in
      let all_results := st.1.2 ++ [result] in
      let unused_serializers :=
        if (Z.of_nat (total_usages result) <=? threshold)%Z
        then st.1.1 ++ [result] else st.1.1 in
      ((unused_serializers, all_results),
       if saving && ((i + 1) mod 10 =? 0)
       then st.2 ++ [_save_intermediate_results unused_serializers all_results]
       else st.2)
  | Raise _ => st
  end.

Definition batch_loop_saving (scan : string → outcome Results) (threshold : Z)
    (saving : bool) (serializers : list Candidate)
  : batch_state * list Snapshot :=
  foldl (analyze_candidate_saving scan threshold saving) (([], []), [])
    (imap pair serializers).

(** * Specification vocabulary

    The notions the properties are stated with, and the fixtures they are
    tried on. *)

Definition concat_str (ws : list string) : string := foldr String.append EmptyString ws.

(** [upto hi n]: [n] rounds respect the upper bound of a repetition. *)
Definition upto (hi : option nat) (n : nat) : Prop :=
  match hi with
  | Some h => n ≤ h
  | None => True
  end.

(** The texts a pattern matches.  The rounds of a repetition are not empty,
    as in the matcher. *)
Fixpoint lang (r : regex) (w : string) : Prop :=
  match r with
  | Eps => w = EmptyString
  | Chr k => ∃ c, w = String c EmptyString ∧ cls_match k c = true
  | Seq r1 r2 => ∃ w1 w2, w = w1 +:+ w2 ∧ lang r1 w1 ∧ lang r2 w2
  | Alt r1 r2 => lang r1 w ∨ lang r2 w
  | Grp r1 => lang r1 w
  | Rep r1 lo hi _ =>
      ∃ ws, w = concat_str ws ∧ lo ≤ length ws ∧ upto hi (length ws)
            ∧ Forall (λ x, lang r1 x ∧ x ≠ EmptyString) ws
  end.

(** The two moves of the repetition loop: stop here, or run one more round. *)
Definition rep_stop {A : Type} (lo : nat) (k : mstate → option A) (n : nat)
    (st : mstate) : option A :=
  if lo <=? n then k st else None.

Definition rep_more {A : Type}
    (body : mstate → (mstate → option A) → option A)
    (lo : nat) (hi : option nat) (greedy : bool) (k : mstate → option A)
    (fuel n : nat) (st : mstate) : option A :=
  match fuel with
  | 0 => None
  | S fuel' =>
      if below hi n then
        body st (λ st',
          if String.length (rest st') <? String.length (rest st)
          then rep_loop body lo hi greedy k fuel' (S n) st' else None)
      else None
  end.

Fixpoint all_chars (f : ascii → bool) (s : string) : bool :=
  match s with
  | EmptyString => true
  | String c s' => f c && all_chars f s'
  end.

(** What a pass gets out of one file: nothing when it cannot be read. *)
Definition visible {B : Type} (fs : FileSystem) (g : string → string → list B)
    (p : string) : list B :=
  match file_text fs p with
  | inl content => g p content
  | inr _ => []
  end.

Definition found_lines (fs : FileSystem)
    (per_line : string → nat → string → list item) : list item :=
  python_files fs (project_dirs fs) ≫=
    visible fs (λ p content,
      '(line_num, line) ← numbered_lines content; per_line p line_num line).

Definition ok_or {A : Type} (d : A) (x : outcome A) : A :=
  match x with
  | Ok a => a
  | Raise _ => d
  end.

(** The eight categories as the passes leave them, before deduplication. *)
Definition scanned (fs : FileSystem) (self : Analyzer) : Results :=
  {| direct_imports := ok_or [] (_scan_for_direct_imports fs self);
     serializer_class_declarations :=
       ok_or [] (_scan_for_serializer_class_declarations fs self)
       ++ ok_or [] (_scan_for_parent_serializer_usages fs self);
     field_usages := ok_or [] (_scan_for_field_usages fs self);
     serializer_inheritance := ok_or [] (_scan_for_serializer_inheritance fs self);
     direct_instantiations := ok_or [] (_scan_for_direct_instantiations fs self);
     many_true_usages := ok_or [] (_scan_for_many_true_usages fs self);
     inner_class_usages := ok_or [] (_scan_for_inner_class_usages fs self);
     meta_class_references := ok_or [] (_scan_for_meta_class_references fs self) |}.

Definition keys_of (items : list item) : gset (string * nat) :=
  list_to_set (item_key <$> items).

(** The eight categories of a result. *)
Definition categories : list (Results → list item) :=
  [ direct_imports; serializer_class_declarations; field_usages;
    serializer_inheritance; direct_instantiations; many_true_usages;
    inner_class_usages; meta_class_references ].

(** How many entries of a category sit at a (file, line) key. *)
Definition count_at (key : string * nat) (items : list item) : nat :=
  length (filter (λ it, item_key it = key) items).

(** An entry that comes from a line of a readable scanned file which matches
    an instantiation pattern and holds neither [class] nor an equals sign. *)
Definition passed_guard (fs : FileSystem) (self : Analyzer) (it : item) : Prop :=
  ∃ p content i line pattern,
    p ∈ python_files fs (project_dirs fs)
    ∧ file_text fs p = inl content
    ∧ split newline content !! i = Some line
    ∧ it = LineItem p (S i) (strip line)
    ∧ pattern ∈ instantiation_patterns self
    ∧ re_search pattern line = true
    ∧ contains "class" line = false
    ∧ contains "=" line = false.

(** The characters with a meaning of their own in a pattern. *)
Definition is_special (c : ascii) : bool :=
  existsb (Ascii.eqb c) (String.list_ascii_of_string "\^$.|?*+()[]{}").

Definition plain (s : string) : bool := all_chars (λ c, negb (is_special c)) s.

(** The three names an analyzer substitutes into its patterns are free of
    special characters, as identifiers are. *)
Definition plain_names (self : Analyzer) : bool :=
  plain (app_name self) && plain (file_name self) && plain (serializer_name self).

(** The shape the inheritance pattern looks for in a line: [class], white
    space, a word, an opening parenthesis directly followed by the characters
    of the target name, and a closing parenthesis with a colon further on. *)
Definition class_header_with_base (target line : string) : Prop :=
  ∃ before blanks other more after,
    line = before +:+ "class" +:+ blanks +:+ other +:+ "(" +:+ target
           +:+ more +:+ "):" +:+ after
    ∧ blanks ≠ EmptyString ∧ all_chars is_space blanks = true
    ∧ other ≠ EmptyString ∧ all_chars is_word other = true
    ∧ all_chars (λ c, negb (Ascii.eqb c newline)) more = true.

(** The same tree with the file at [p] absent: no walk yields it, it does not
    exist, and opening it fails. *)
Definition without_file (p : string) (fs : FileSystem) : FileSystem :=
  {| project_dirs := project_dirs fs;
     app_dirs := app_dirs fs;
     os_walk dir := filter (λ entry, entry.2 ≠ p) (os_walk fs dir);
     path_exists q := if decide (q = p) then false else path_exists fs q;
     file_text q := if decide (q = p) then inr NoAccess else file_text fs q |}.

(** The passes of [analyze], in the order it runs them. *)
Definition passes : list (FileSystem → Analyzer → outcome (list item)) :=
  [ _scan_for_direct_imports; _scan_for_serializer_class_declarations;
    _scan_for_field_usages; _scan_for_serializer_inheritance;
    _scan_for_direct_instantiations; _scan_for_many_true_usages;
    _scan_for_inner_class_usages; _scan_for_meta_class_references;
    _scan_for_parent_serializer_usages ].

(** The results of the candidates whose scan returns, in candidate order. *)
Definition completed (scan : string → outcome Results)
    (serializers : list Candidate) : list SerializerResult :=
  c ← serializers;
  match scan (c_path c) with
  | Ok results => [serializer_result c results]
  | Raise _ => []
  end.

Definition within_threshold (threshold : Z) (r : SerializerResult) : Prop :=
  (Z.of_nat (total_usages r) ≤ threshold)%Z.

#[global] Instance within_threshold_dec threshold r :
  Decision (within_threshold threshold r).
Proof. unfold within_threshold. apply _. Defined.

Definition by_total_usages (x y : SerializerResult) : Prop :=
  total_usages x ≤ total_usages y.

(** [--threshold] defaults to 0, the other options to none. *)
Definition default_options : Options :=
  {| threshold := 0; limit := None; target_app := None |}.

(** A project of one application directory [app] holding one file. *)
Definition single_file (file rel_path content : string) : FileSystem :=
  {| project_dirs := ["app"];
     app_dirs := ["app"];
     os_walk dir := if decide (dir = "app") then [(file, rel_path)] else [];
     path_exists p := bool_decide (p = rel_path);
     file_text p := if decide (p = rel_path) then inl content else inr NoAccess |}.

Definition lines (ls : list string) : string := join newline ls.

(** Two files below [app], the second one not valid UTF-8. *)
Definition two_files : FileSystem :=
  {| project_dirs := ["app"];
     app_dirs := ["app"];
     os_walk dir :=
       if decide (dir = "app")
       then [("views.py", "app/views.py"); ("legacy.py", "app/legacy.py")]
       else [];
     path_exists q := bool_decide (q = "app/views.py" ∨ q = "app/legacy.py");
     file_text q :=
       if decide (q = "app/views.py")
       then inl "serializer_class = UserSerializer"
       else if decide (q = "app/legacy.py") then inr Undecodable
       else inr NoAccess |}.

(** A views module that uses UserSerializer in each of the eight ways. *)
Definition views_module : string :=
  lines ["from app.serializers import UserSerializer";
         "class V(APIView):";
         "    serializer_class = UserSerializer";
         "    def get_serializer_class(self):";
         "        x = 1";
         "        return UserSerializer";
         "class PSerializer(S):";
         "    profile = UserSerializer(many=True)";
         "    class Meta(UserSerializer.Meta):";
         "        pass";
         "print(UserSerializer(data))";
         "class UserSerializer(Base):";
         EmptyString].

Definition user_serializer : Analyzer :=
  {| app_name := "app"; file_name := "views"; serializer_name := "UserSerializer" |}.

Definition foo_serializer : Analyzer :=
  {| app_name := "app"; file_name := "serializers"; serializer_name := "Foo" |}.

(** A project with one used and one unused serializer class. *)
Definition two_classes : FileSystem :=
  single_file "serializers.py" "app/serializers.py"
    (lines ["class UsedSerializer(Base):";
            "    pass";
            "class UnusedSerializer(Base):";
            "    pass";
            "payload = UsedSerializer(data)"]).

Definition used_candidate : Candidate :=
  {| c_name := "UsedSerializer";
     c_path := "app.serializers.serializers.UsedSerializer";
     c_file := "app/serializers.py" |}.

Definition unused_candidate : Candidate :=
  {| c_name := "UnusedSerializer";
     c_path := "app.serializers.serializers.UnusedSerializer";
     c_file := "app/serializers.py" |}.

Definition no_usages : Results :=
  {| direct_imports := []; serializer_class_declarations := [];
     field_usages := []; serializer_inheritance := [];
     direct_instantiations := []; many_true_usages := [];
     inner_class_usages := []; meta_class_references := [] |}.

(** An entry that is the stripped text of a line of a readable scanned file. *)
Definition line_entry (fs : FileSystem) (it : item) : Prop :=
  ∃ p content i line,
    p ∈ python_files fs (project_dirs fs)
    ∧ file_text fs p = inl content
    ∧ split newline content !! i = Some line
    ∧ it = LineItem p (S i) (strip line).

Definition inst_key (it : item) : string * nat * string :=
  (item_file it, item_line it, item_content it).

(** What the loop keeps true of [seen_results] and the list it fills. *)
Definition inst_inv (fs : FileSystem) (st : inst_state) : Prop :=
  NoDup st.2
  ∧ (∀ it, it ∈ st.2 → inst_key it ∈ st.1)
  ∧ (∀ it, it ∈ st.2 → line_entry fs it).

(** An entry that names a readable scanned file and, when it has a line, one
    of the lines of that file. *)
Definition well_placed (fs : FileSystem) (it : item) : Prop :=
  item_file it ∈ python_files fs (project_dirs fs)
  ∧ ∃ content, file_text fs (item_file it) = inl content
      ∧ match it with
        | ImportItem _ _ => True
        | LineItem _ n _ => 1 ≤ n ≤ length (split newline content)
        end.

Definition is_line_item (it : item) : Prop :=
  match it with
  | ImportItem _ _ => False
  | LineItem _ _ _ => True
  end.

(** The texts group 1 can hold after a match of the pattern. *)
Fixpoint grp_lang (r : regex) (t : string) : Prop :=
  match r with
  | Eps | Chr _ => False
  | Seq r1 r2 | Alt r1 r2 => grp_lang r1 t ∨ grp_lang r2 t
  | Rep r1 _ _ _ => grp_lang r1 t
  | Grp r1 => lang r1 t ∨ grp_lang r1 t
  end.

(** The matcher went from [st] to [st'] over the text [w]. *)
Definition span (w : string) (st st' : mstate) : Prop :=
  rest st = w +:+ rest st' ∧ pos st' = pos st + String.length w.

(** Group 1 is as it was, or holds a text of [G]. *)
Definition captured (G : string → Prop) (st st' : mstate) : Prop :=
  grp1 st' = grp1 st ∨ ∃ q t, grp1 st' = Some (q, t) ∧ G t.

(** A match object: its text is a text of the pattern, its end is its start
    plus the length of the text, and its group 1, when set, holds a text of a
    group of the pattern. *)
Definition match_of (r : regex) (m : found) : Prop :=
  lang r (f_text m)
  ∧ f_end m = f_start m + String.length (f_text m)
  ∧ match f_group1 m with
    | Some (_, t) => grp_lang r t
    | None => True
    end.

(** [parts[0]] of a relative path. *)
Definition top_dir (rel_path : string) : string :=
  default EmptyString (split "/" rel_path !! 0).

(** [os.path.splitext(parts[-1])[0]] of a relative path. *)
Definition file_stem (rel_path : string) : string :=
  splitext_root (last_str (split "/" rel_path)).

(** Every Python file below an application directory lies in a top directory
    and has a stem made of word characters, as importable modules do. *)
Definition identifier_modules (fs : FileSystem) : bool :=
  forallb (λ p, all_chars is_word (top_dir p) && all_chars is_word (file_stem p))
    (python_files fs (app_dirs fs)).

(** What one readable file adds to [self.serializers]. *)
Definition class_matches (file_path content : string) : list Candidate :=
  pattern ← serializer_patterns;
  m ← re_finditer pattern content;
  match f_group1 m with
  | Some (_, serializer_name) =>
      [ {| c_name := serializer_name;
           c_path := candidate_path file_path serializer_name;
           c_file := file_path |} ]
  | None => []
  end.

(** The conventional locations [find_serializer_in_file] tries first. *)
Definition possible_file_patterns (self : Analyzer) : list string :=
  [ app_name self +:+ "/rest/serializers/" +:+ file_name self +:+ ".py";
    app_name self +:+ "/" +:+ file_name self +:+ ".py";
    app_name self +:+ "/serializers/" +:+ file_name self +:+ ".py";
    app_name self +:+ "/custom_serializer/" +:+ file_name self +:+ ".py" ].

(** The text holds [class], white space and the name, in a row. *)
Definition class_header (name content : string) : Prop :=
  ∃ blanks, all_chars is_space blanks = true ∧ blanks ≠ EmptyString
            ∧ contains ("class" +:+ blanks +:+ name) content = true.

(** Some readable file holds a class header of the name. *)
Definition header_somewhere (fs : FileSystem) (name : string) : Prop :=
  ∃ p content, file_text fs p = inl content ∧ class_header name content.

(** What one readable file adds to [parent_serializers]. *)
Definition parent_matches (self : Analyzer) (file_path content : string)
  : list string :=
  m ← re_finditer (potential_parent_pattern self) content;
  match f_group1 m with
  | Some (_, parent_serializer) => [parent_serializer]
  | None => []
  end.

(** First occurrences by an arbitrary key, [seen] being the keys met so
    far. *)
Fixpoint unique_by {A K : Type} `{Countable K} (key : A → K) (seen : gset K)
    (l : list A) : list A :=
  match l with
  | [] => []
  | x :: l' =>
      if decide (key x ∈ seen) then unique_by key seen l'
      else x :: unique_by key ({[key x]} ∪ seen) l'
  end.

(** Append [x] unless its key was met. *)
Definition record_new {A K : Type} `{Countable K} (key : A → K)
    (st : gset K * list A) (x : A) : gset K * list A :=
  if decide (key x ∈ st.1) then st else ({[key x]} ∪ st.1, st.2 ++ [x]).

(** The entries the instantiation pass would record for one file if it kept
    no seen-set: one per line and pattern that pass its test. *)
Definition inst_candidates (self : Analyzer) (rel_path content : string)
  : list item :=
  '(line_num, line) ← numbered_lines content;
  pattern ← instantiation_patterns self;
  if re_search pattern line && negb (contains "class" line)
     && negb (contains "=" line)
  then [LineItem rel_path line_num (strip line)] else [].

(** The same files, another list of directories to walk. *)
Definition with_project_dirs (dirs : list string) (fs : FileSystem)
  : FileSystem :=
  {| project_dirs := dirs;
     app_dirs := app_dirs fs;
     os_walk := os_walk fs;
     path_exists := path_exists fs;
     file_text := file_text fs |}.

(** Two lists of entries with the same places and, whatever was met before,
    the same first occurrences. *)
Definition same_firsts (l l' : list item) : Prop :=
  keys_of l = keys_of l' ∧ ∀ seen, unique_from seen l = unique_from seen l'.

(** What one readable file adds to the direct imports. *)
Definition import_matches (self : Analyzer) (file_path content : string)
  : list item :=
  pattern ← import_patterns self;
  match re_findall pattern content with
  | first_match :: _ => [ImportItem file_path first_match]
  | [] => []
  end.

(** The snapshot after the candidates of a front part of the list. *)
Definition snapshot_of (scan : string → outcome Results) (threshold : Z)
    (analysed : list Candidate) : Snapshot :=
  _save_intermediate_results
    (filter (within_threshold threshold) (completed scan analysed))
    (completed scan analysed).

(** The snapshots the loop writes, read off the list of candidates. *)
Definition snapshots (scan : string → outcome Results) (threshold : Z)
    (saving : bool) (serializers : list Candidate) : list Snapshot :=
  '(i, serializer) ← imap pair serializers;
  match scan (c_path serializer) with
  | Ok _ =>
      if saving && ((i + 1) mod 10 =? 0)
      then [snapshot_of scan threshold (take (S i) serializers)] else []
  | Raise _ => []
  end.

(** The line the verbose report gives an entry. *)
Definition entry_line (it : item) : string :=
  match it with
  | ImportItem file import_stmt => "  - " +:+ file +:+ ": " +:+ import_stmt
  | LineItem file line content =>
      "  - " +:+ file +:+ ":" +:+ pretty line +:+ ": " +:+ content
  end.

(** The eight numbers of a summary. *)
Definition counts (results : Results) : list nat :=
  (λ category, length (category results)) <$> categories.

(** The analyzer of the used class of [two_classes]. *)
Definition used_serializer : Analyzer :=
  {| app_name := "app"; file_name := "serializers";
     serializer_name := "UsedSerializer" |}.

(** A serializer class with a class nested in it, which a view reaches
    through the outer class. *)
Definition nested_classes : FileSystem :=
  single_file "serializers.py" "app/serializers.py"
    (lines ["class OuterSerializer(Base):";
            "    class Inner(Base):";
            "        pass";
            "field = OuterSerializer.Inner"]).

Definition inner_serializer : Analyzer :=
  {| app_name := "app"; file_name := "serializers"; serializer_name := "Inner" |}.

(** * Properties *)

(** ** Text *)

Section Text.

Implicit Types (s t u : string) (c : ascii).

Lemma str_app_nil_l s : EmptyString +:+ s = s.
Proof. reflexivity. Qed.

Lemma str_app_cons c s t : String c s +:+ t = String c (s +:+ t).
Proof. reflexivity. Qed.

Lemma str_app_nil_r s : s +:+ EmptyString = s.
Proof. induction s as [|c s IH]; [done|]. by rewrite str_app_cons, IH. Qed.

Lemma app_assoc_str s t u : (s +:+ t) +:+ u = s +:+ (t +:+ u).
Proof. induction s as [|c s IH]; [done|]. by rewrite !str_app_cons, IH. Qed.

Lemma length_app_str s t :
  String.length (s +:+ t) = String.length s + String.length t.
Proof. induction s as [|c s IH]; [done|]. rewrite str_app_cons. simpl. by rewrite IH. Qed.

Lemma split_nonempty sep s : split sep s ≠ [].
Proof.
  destruct s as [|c s]; simpl; [done|].
  destruct (Ascii.eqb c sep); [done|]. by destruct (split sep s).
Qed.

(** The number of segments is one more than the number of separators. *)
Lemma length_split sep s : length (split sep s) = S (count_char sep s).
Proof.
  induction s as [|c s IH]; simpl; [done|].
  destruct (Ascii.eqb c sep); simpl; [by rewrite IH|].
  destruct (split sep s) eqn:E; simpl in *; lia.
Qed.

Lemma split_no_sep sep s : count_char sep s = 0 → split sep s = [s].
Proof.
  induction s as [|c s IH]; simpl; [done|].
  destruct (Ascii.eqb c sep); [done|]. intros H. by rewrite IH.
Qed.

Lemma split_app_sep sep s t :
  count_char sep s = 0 → split sep (s +:+ String sep t) = s :: split sep t.
Proof.
  induction s as [|c s IH]; intros H.
  - rewrite str_app_nil_l. simpl. by rewrite Ascii.eqb_refl.
  - rewrite str_app_cons. simpl in *.
    destruct (Ascii.eqb c sep); [done|]. by rewrite IH.
Qed.

(** Splitting undoes joining when no part holds the separator. *)
Lemma split_join sep (parts : list string) :
  parts ≠ [] → Forall (λ p, count_char sep p = 0) parts →
  split sep (join sep parts) = parts.
Proof.
  induction parts as [|p ps IH]; [done|]. intros _ Hall.
  apply Forall_cons in Hall as [Hp Hps].
  destruct ps as [|q ps]; simpl.
  - by apply split_no_sep.
  - rewrite split_app_sep by done. f_equal. by apply IH.
Qed.

End Text.

(** ** PathResolver *)

(** C3: a dotted path of exactly three segments g.m.c resolves to
    (g, m, c), and a path of more than three segments resolves to its first,
    second-to-last and last segment. *)
Theorem C3_parse_segments (parts : list string) :
  Forall (λ p, count_char "." p = 0) parts →
  3 ≤ length parts →
  _parse_serializer_path (join "." parts)
  = Ok (default EmptyString (head parts),
        default EmptyString (parts !! (length parts - 2)),
        default EmptyString (last parts))
  ∧ ∀ g m c, parts = [g; m; c] →
      _parse_serializer_path (g +:+ "." +:+ m +:+ "." +:+ c) = Ok (g, m, c).
Proof.
  intros Hall Hlen.
  assert (split "." (join "." parts) = parts) as Hsplit.
  { apply split_join; [|done]. intros ->. simpl in Hlen. lia. }
  split.
  - unfold _parse_serializer_path. rewrite Hsplit.
    destruct parts as [|a [|b [|c [|d l]]]]; simpl in Hlen; try lia; done.
  - intros g m c ->.
    change (g +:+ "." +:+ m +:+ "." +:+ c) with (join "." [g; m; c]).
    unfold _parse_serializer_path. by rewrite Hsplit.
Qed.

Lemma C3_parse_segments_witness :
  _parse_serializer_path "g.p1.p2.m.c" = Ok ("g", "m", "c")
  ∧ _parse_serializer_path "g.m.c" = Ok ("g", "m", "c").
Proof.
  split.
  - exact (proj1 (C3_parse_segments ["g"; "p1"; "p2"; "m"; "c"]
                    ltac:(repeat constructor) ltac:(simpl; lia))).
  - exact (proj2 (C3_parse_segments ["g"; "m"; "c"]
                    ltac:(repeat constructor) ltac:(simpl; lia))
             "g" "m" "c" eq_refl).
Defined.

(** C7: the resolver raises its error exactly for paths of fewer than three
    segments (fewer than two dots); any path of three or more segments is
    accepted, whatever the segments are, empty ones included. *)
Theorem C7_parse_error_iff (s : string) :
  (_parse_serializer_path s = Raise ValueError ↔ length (split "." s) < 3) ∧
  length (split "." s) = S (count_char "." s) ∧
  match _parse_serializer_path s with
  | Ok (g, m, c) =>
      3 ≤ length (split "." s)
      ∧ g ∈ split "." s ∧ m ∈ split "." s ∧ c ∈ split "." s
  | Raise e => e = ValueError ∧ length (split "." s) < 3
  end ∧
  _parse_serializer_path ".." = Ok (EmptyString, EmptyString, EmptyString).
Proof.
  split_and!; [|apply length_split| |reflexivity].
  - unfold _parse_serializer_path. cbv zeta.
    destruct (length (split "." s) <? 3) eqn:E1.
    + apply Nat.ltb_lt in E1. done.
    + apply Nat.ltb_ge in E1. split; [|lia].
      by destruct (3 <? length (split "." s)).
  - unfold _parse_serializer_path, penultimate, last_str. cbv zeta.
    destruct (split "." s) as [|a [|b [|c l]]] eqn:E; simpl; try (split; [done|lia]).
    destruct l as [|d l]; simpl.
    + split_and!; [lia|set_solver..].
    + destruct (lookup_lt_is_Some_2 (a :: b :: c :: d :: l)
                  (length (a :: b :: c :: d :: l) - 2)) as [m Hm];
        [simpl; lia|].
      destruct (last (a :: b :: c :: d :: l)) as [z|] eqn:Hz;
        [|by apply last_None in Hz].
      simpl in Hm, Hz. rewrite Hm, Hz. simpl.
      split_and!; [lia|set_solver| |].
      * apply list_elem_of_lookup_2 in Hm. set_solver.
      * apply last_Some in Hz as [l' Hl']. rewrite Hl'. set_solver.
Qed.

(** ** The matcher against the language of a pattern *)

Section Matcher.

Context {A : Type}.
Implicit Types (st : mstate) (k : mstate → option A) (w s : string).

Lemma or_else_Some (x : option A) y a :
  or_else x y = Some a → x = Some a ∨ (x = None ∧ y tt = Some a).
Proof. destruct x; simpl; [left|right]; done. Qed.

Lemma or_else_is_Some (x : option A) y :
  is_Some x ∨ is_Some (y tt) → is_Some (or_else x y).
Proof. destruct x; simpl; [eauto|]. intros [[? ?]|?]; done. Qed.

Lemma length_lt_nonempty w s s' :
  s = w +:+ s' → String.length s' < String.length s → w ≠ EmptyString.
Proof. intros -> Hlt ->. rewrite str_app_nil_l in Hlt. lia. Qed.

Section Loop.

Variables (body : mstate → (mstate → option A) → option A) (L : string → Prop).
Variables (lo : nat) (hi : option nat) (greedy : bool).

Hypothesis body_sound : ∀ st k a,
  body st k = Some a →
  ∃ w st', rest st = w +:+ rest st' ∧ L w ∧ k st' = Some a.

Hypothesis body_complete : ∀ st k w s',
  L w → rest st = w +:+ s' →
  (∀ st', rest st' = s' → is_Some (k st')) → is_Some (body st k).

Lemma rep_loop_unfold k fuel n st :
  rep_loop body lo hi greedy k fuel n st =
    if greedy then or_else (rep_more body lo hi greedy k fuel n st) (λ _, rep_stop lo k n st)
    else or_else (rep_stop lo k n st) (λ _, rep_more body lo hi greedy k fuel n st).
Proof. by destruct fuel. Qed.

Lemma rep_loop_cases k fuel n st a :
  rep_loop body lo hi greedy k fuel n st = Some a →
  rep_stop lo k n st = Some a ∨ rep_more body lo hi greedy k fuel n st = Some a.
Proof.
  rewrite rep_loop_unfold.
  destruct greedy; intros [?|[_ ?]]%or_else_Some; auto.
Qed.

Lemma rep_loop_is_Some k fuel n st :
  is_Some (rep_stop lo k n st) ∨ is_Some (rep_more body lo hi greedy k fuel n st) →
  is_Some (rep_loop body lo hi greedy k fuel n st).
Proof.
  rewrite rep_loop_unfold.
  destruct greedy; intros [?|?]; apply or_else_is_Some; auto.
Qed.

Lemma rep_loop_sound k fuel : ∀ n st a,
  rep_loop body lo hi greedy k fuel n st = Some a →
  ∃ ws st', rest st = concat_str ws +:+ rest st'
            ∧ Forall (λ x, L x ∧ x ≠ EmptyString) ws
            ∧ lo ≤ n + length ws
            ∧ (upto hi n → upto hi (n + length ws))
            ∧ k st' = Some a.
Proof.
  induction fuel as [|fuel IH]; intros n st a Hrun;
    apply rep_loop_cases in Hrun as [Hstop|Hmore]; unfold rep_stop in *;
    try done.
  - destruct (lo <=? n) eqn:E; [|done]. apply Nat.leb_le in E.
    exists [], st. rewrite Nat.add_0_r. by split_and!.
  - destruct (lo <=? n) eqn:E; [|done]. apply Nat.leb_le in E.
    exists [], st. rewrite Nat.add_0_r. by split_and!.
  - simpl in Hmore. destruct (below hi n) eqn:Hbelow; [|done].
    apply body_sound in Hmore as (w & st1 & Hw & HL & Hk).
    destruct (String.length (rest st1) <? String.length (rest st)) eqn:Hlt;
      [|done].
    apply Nat.ltb_lt in Hlt.
    apply IH in Hk as (ws & st' & Hws & Hall & Hlo & Hhi & Hk).
    exists (w :: ws), st'. simpl. split_and!.
    + by rewrite Hw, Hws, app_assoc_str.
    + constructor; [|done]. split; [done|]. by eapply length_lt_nonempty.
    + lia.
    + intros _. replace (n + S (length ws)) with (S n + length ws) by lia.
      apply Hhi. destruct hi as [h|]; simpl in *; [|done].
      apply Nat.ltb_lt in Hbelow. lia.
    + done.
Qed.

Lemma rep_loop_complete k s' ws : ∀ fuel n st,
  Forall (λ x, L x ∧ x ≠ EmptyString) ws →
  rest st = concat_str ws +:+ s' →
  lo ≤ n + length ws → upto hi (n + length ws) →
  String.length (rest st) ≤ fuel →
  (∀ st', rest st' = s' → is_Some (k st')) →
  is_Some (rep_loop body lo hi greedy k fuel n st).
Proof.
  induction ws as [|w ws IH]; intros fuel n st Hall Hrest Hlo Hhi Hfuel Hk.
  - apply rep_loop_is_Some. left. unfold rep_stop.
    simpl in Hlo. rewrite Nat.add_0_r in Hlo.
    apply Nat.leb_le in Hlo. rewrite Hlo. by apply Hk.
  - apply Forall_cons in Hall as [[HL Hne] Hall]. simpl in Hrest.
    rewrite app_assoc_str in Hrest.
    assert (0 < String.length w) by (destruct w; [done|simpl; lia]).
    assert (String.length (rest st) =
            String.length w + String.length (concat_str ws +:+ s')) as Hlen
      by (by rewrite Hrest, length_app_str).
    destruct fuel as [|fuel]; [lia|].
    apply rep_loop_is_Some. right. simpl.
    assert (below hi n = true) as ->.
    { destruct hi as [h|]; simpl in *; [|done]. apply Nat.ltb_lt. lia. }
    eapply body_complete; [done..|]. intros st1 Hst1.
    assert (String.length (rest st1) < String.length (rest st)) as Hlt
      by (rewrite Hst1; lia).
    apply Nat.ltb_lt in Hlt as Hlt'. rewrite Hlt'.
    apply IH; [done..|simpl in *; lia| |lia|done].
    by replace (S n + length ws) with (n + S (length ws)) by lia.
Qed.

End Loop.

Lemma rmatch_sound r : ∀ st k a,
  rmatch r st k = Some a →
  ∃ w st', rest st = w +:+ rest st' ∧ lang r w ∧ k st' = Some a.
Proof.
  induction r as [|c|r1 IH1 r2 IH2|r1 IH1 r2 IH2|r1 IH1 lo hi g|r1 IH1];
    intros st k a Hrun; simpl in Hrun.
  - exists EmptyString, st. by rewrite str_app_nil_l.
  - destruct (rest st) as [|x s] eqn:E; [done|].
    destruct (cls_match c x) eqn:Hc; [|done].
    exists (String x EmptyString), (MState (S (pos st)) s (grp1 st)).
    split_and!; [done|by exists x|done].
  - apply IH1 in Hrun as (w1 & st1 & H1 & HL1 & Hrun).
    apply IH2 in Hrun as (w2 & st2 & H2 & HL2 & Hk).
    exists (w1 +:+ w2), st2. split_and!; [|by exists w1, w2|done].
    by rewrite H1, H2, app_assoc_str.
  - apply or_else_Some in Hrun as [Hrun|[_ Hrun]].
    + apply IH1 in Hrun as (w & st' & ? & ? & ?). exists w, st'. simpl. auto.
    + apply IH2 in Hrun as (w & st' & ? & ? & ?). exists w, st'. simpl. auto.
  - eapply rep_loop_sound in Hrun as (ws & st' & Hws & Hall & Hlo & Hhi & Hk);
      [|exact IH1].
    exists (concat_str ws), st'. split_and!; [done| |done].
    exists ws. split_and!; [done|lia| |done].
    apply Hhi. destruct hi; simpl; [lia|done].
  - apply IH1 in Hrun as (w & st' & Hw & HL & Hk).
    eexists w, (MState _ (rest st') _). simpl. eauto.
Qed.

Lemma rmatch_complete r : ∀ st k w s',
  lang r w → rest st = w +:+ s' →
  (∀ st', rest st' = s' → is_Some (k st')) → is_Some (rmatch r st k).
Proof.
  induction r as [|c|r1 IH1 r2 IH2|r1 IH1 r2 IH2|r1 IH1 lo hi g|r1 IH1];
    intros st k w s' HL Hrest Hk; simpl in HL |- *.
  - subst w. by apply Hk.
  - destruct HL as (x & -> & Hc). rewrite Hrest. simpl. rewrite Hc.
    by apply Hk.
  - destruct HL as (w1 & w2 & -> & HL1 & HL2).
    rewrite app_assoc_str in Hrest.
    eapply IH1; [done..|]. intros st1 Hst1. by eapply IH2.
  - apply or_else_is_Some. destruct HL; [left; by eapply IH1|right; by eapply IH2].
  - destruct HL as (ws & -> & Hlo & Hhi & Hall).
    eapply rep_loop_complete; [exact IH1|done..].
  - eapply IH1; [done..|]. intros st1 Hst1. by apply Hk.
Qed.

End Matcher.

Lemma match_at_anywhere r p s :
  match_at r p s false = rmatch r (MState p s None) Some.
Proof. reflexivity. Qed.

(** [re.search] succeeds exactly on the texts that hold a match. *)
Lemma search_from_is_Some r : ∀ s p,
  is_Some (search_from r p s false)
  ↔ ∃ pre w post, s = pre +:+ w +:+ post ∧ lang r w.
Proof.
  induction s as [|c s IH]; intros p; simpl; rewrite match_at_anywhere.
  - split.
    + destruct (rmatch r (MState p EmptyString None) Some) as [st|] eqn:E;
        [|by intros [? ?]].
      intros _. apply rmatch_sound in E as (w & st' & Hw & HL & _).
      simpl in Hw. by exists EmptyString, w, (rest st').
    + intros (pre & w & post & Hs & HL).
      destruct pre; [|done]. rewrite str_app_nil_l in Hs.
      destruct (rmatch_complete (A:=mstate) r (MState p EmptyString None)
                  Some w post) as [st ->]; eauto.
  - split.
    + destruct (rmatch r (MState p (String c s) None) Some) as [st|] eqn:E.
      * intros _. apply rmatch_sound in E as (w & st' & Hw & HL & _).
        simpl in Hw. by exists EmptyString, w, (rest st').
      * intros (pre & w & post & -> & HL)%IH.
        by exists (String c pre), w, post.
    + intros (pre & w & post & Hs & HL).
      destruct (rmatch r (MState p (String c s) None) Some) as [st|] eqn:E;
        [done|].
      destruct pre as [|c' pre].
      * rewrite str_app_nil_l in Hs.
        destruct (rmatch_complete (A:=mstate) r (MState p (String c s) None)
                    Some w post) as [st Hst]; eauto. congruence.
      * rewrite str_app_cons in Hs. injection Hs as -> ->. apply IH. eauto.
Qed.

Lemma re_search_true r s :
  re_search r s = true ↔ ∃ pre w post, s = pre +:+ w +:+ post ∧ lang r w.
Proof.
  unfold re_search. rewrite bool_decide_eq_true. apply search_from_is_Some.
Qed.

(** ** Languages of the building blocks *)

Lemma lang_Lit s w : lang (Lit s) w ↔ w = s.
Proof.
  revert w. induction s as [|c s IH]; intros w; simpl; [done|]. split.
  - intros (w1 & w2 & -> & (x & -> & Hx) & ->%IH).
    by apply Ascii.eqb_eq in Hx as ->.
  - intros ->. exists (String c EmptyString), s. split_and!; [done| |by apply IH].
    exists c. by rewrite Ascii.eqb_refl.
Qed.

Lemma lang_seqs_nil w : lang (seqs []) w ↔ w = EmptyString.
Proof. done. Qed.

Lemma lang_seqs_cons r rs w :
  lang (seqs (r :: rs)) w
  ↔ ∃ w1 w2, w = w1 +:+ w2 ∧ lang r w1 ∧ lang (seqs rs) w2.
Proof. done. Qed.

Lemma chars_concat k ws :
  Forall (λ x, lang (Chr k) x ∧ x ≠ EmptyString) ws →
  all_chars (cls_match k) (concat_str ws) = true
  ∧ String.length (concat_str ws) = length ws.
Proof.
  induction 1 as [|x ws [(c & -> & Hc) _] _ [IH1 IH2]]; [done|].
  change (concat_str (String c EmptyString :: ws))
    with (String c (concat_str ws)).
  simpl. rewrite Hc, IH1, IH2. done.
Qed.

Lemma chars_split k w :
  all_chars (cls_match k) w = true →
  ∃ ws, w = concat_str ws ∧ length ws = String.length w
        ∧ Forall (λ x, lang (Chr k) x ∧ x ≠ EmptyString) ws.
Proof.
  induction w as [|c w IH]; simpl.
  - by exists [].
  - intros [Hc (ws & -> & Hlen & Hall)%IH]%andb_prop.
    exists (String c EmptyString :: ws).
    change (concat_str (String c EmptyString :: ws))
      with (String c (concat_str ws)).
    simpl. split_and!; [done|lia|].
    constructor; [|done]. split; [by exists c|done].
Qed.

(** A repeated character class: [k*], [k+] and the like. *)
Lemma lang_rep_chr k lo g w :
  lang (Rep (Chr k) lo None g) w
  ↔ all_chars (cls_match k) w = true ∧ lo ≤ String.length w.
Proof.
  simpl. split.
  - intros (ws & -> & Hlo & _ & Hall).
    apply chars_concat in Hall as [-> ->]. done.
  - intros [(ws & -> & Hlen & Hall)%chars_split Hlo].
    exists ws. split_and!; [done|lia|done|done].
Qed.

(** ** Substrings *)

Lemma prefix_app s t : String.prefix s (s +:+ t) = true.
Proof.
  induction s as [|c s IH]; [by destruct t|].
  rewrite str_app_cons. simpl. by destruct (ascii_dec c c).
Qed.

Lemma prefix_inv s t :
  String.prefix s t = true → ∃ u, t = s +:+ u.
Proof.
  revert t. induction s as [|c s IH]; intros t; [by exists t|].
  destruct t as [|c' t]; simpl; [done|].
  destruct (ascii_dec c c') as [->|]; [|done].
  intros [u ->]%IH. by exists u.
Qed.

Lemma contains_unfold sub s :
  contains sub s =
    String.prefix sub s ||
    match s with
    | EmptyString => false
    | String _ s' => contains sub s'
    end.
Proof. by destruct s. Qed.

Lemma contains_true sub s :
  contains sub s = true ↔ ∃ pre post, s = pre +:+ sub +:+ post.
Proof.
  induction s as [|c s IH]; rewrite contains_unfold.
  - rewrite orb_false_r. split.
    + intros [u Hu]%prefix_inv. by exists EmptyString, u.
    + intros (pre & post & H). destruct pre; [|done]. rewrite str_app_nil_l in H.
      rewrite H. apply prefix_app.
  - rewrite orb_true_iff, IH. split.
    + intros [[u Hu]%prefix_inv|(pre & post & ->)].
      * by exists EmptyString, u.
      * by exists (String c pre), post.
    + intros (pre & post & H). destruct pre as [|c' pre].
      * left. rewrite str_app_nil_l in H. rewrite H. apply prefix_app.
      * right. rewrite str_app_cons in H. injection H as -> ->. eauto.
Qed.

(** ** The loops over files and lines *)

Section Scanning.

Context (fs : FileSystem).

Lemma for_files_read {B} (g : string → string → list B) files :
  for_files files (λ p, content ← read_text fs p; Ok (g p content))
  = Ok (files ≫= visible fs g).
Proof.
  induction files as [|p files IH]; [done|].
  rewrite bind_cons. cbn [for_files]. rewrite IH.
  generalize (files ≫= visible fs g). intros tail.
  unfold visible, read_text.
  by destruct (file_text fs p) as [content|[]].
Qed.

Lemma for_files_st_read {S} (g : string → string → S → S) files : ∀ s,
  for_files_st files (λ p s, content ← read_text fs p; Ok (g p content s)) s
  = Ok (foldl (λ s p, match file_text fs p with
                      | inl content => g p content s
                      | inr _ => s
                      end) s files).
Proof.
  induction files as [|p files IH]; intros s; [done|].
  simpl. unfold read_text.
  destruct (file_text fs p) as [content|[]]; simpl; by rewrite IH.
Qed.

Lemma scan_lines_found per_line :
  scan_lines fs per_line = Ok (found_lines fs per_line).
Proof. apply for_files_read. Qed.

Lemma elem_of_visible {B} (g : string → string → list B) files (x : B) :
  x ∈ files ≫= visible fs g
  ↔ ∃ p content, p ∈ files ∧ file_text fs p = inl content ∧ x ∈ g p content.
Proof.
  rewrite list_elem_of_bind. unfold visible. split.
  - intros (p & Hx & Hp). destruct (file_text fs p) as [content|] eqn:E.
    + by exists p, content.
    + by apply elem_of_nil in Hx.
  - intros (p & content & Hp & E & Hx). exists p. by rewrite E.
Qed.

Lemma elem_of_numbered_lines n line content :
  (n, line) ∈ numbered_lines content
  ↔ ∃ i, n = S i ∧ split newline content !! i = Some line.
Proof.
  unfold numbered_lines. rewrite elem_of_lookup_imap. split.
  - intros (i & y & [= -> ->] & Hi). eauto.
  - intros (i & -> & Hi). eauto.
Qed.

(** An item is found by a line-based pass exactly when the loop body yields
    it for some line of some readable Python file. *)
Lemma elem_of_found_lines per_line it :
  it ∈ found_lines fs per_line
  ↔ ∃ p content i line,
      p ∈ python_files fs (project_dirs fs)
      ∧ file_text fs p = inl content
      ∧ split newline content !! i = Some line
      ∧ it ∈ per_line p (S i) line.
Proof.
  unfold found_lines. rewrite elem_of_visible. split.
  - intros (p & content & Hp & E & Hit).
    apply list_elem_of_bind in Hit as ([n line] & Hit & Hn).
    apply elem_of_numbered_lines in Hn as (i & -> & Hi).
    by exists p, content, i, line.
  - intros (p & content & i & line & Hp & E & Hi & Hit).
    exists p, content. split_and!; [done..|].
    apply list_elem_of_bind. exists (S i, line). split; [done|].
    apply elem_of_numbered_lines. eauto.
Qed.

End Scanning.

(** A line contributes to a pass once for each pattern that matches it. *)
Lemma elem_of_per_pattern (patterns : list regex) p n line it :
  it ∈ (pattern ← patterns;
        if re_search pattern line then [LineItem p n (strip line)] else [])
  ↔ it = LineItem p n (strip line)
    ∧ ∃ pattern, pattern ∈ patterns ∧ re_search pattern line = true.
Proof.
  rewrite list_elem_of_bind. split.
  - intros (pattern & Hit & Hp). destruct (re_search pattern line) eqn:E.
    + apply list_elem_of_singleton in Hit. eauto.
    + by apply elem_of_nil in Hit.
  - intros (-> & pattern & Hp & E). exists pattern. rewrite E.
    split; [|done]. by apply list_elem_of_singleton.
Qed.

(** ** The scan always completes *)

Section Totality.

Context (fs : FileSystem) (self : Analyzer).

Lemma check_possible_files_ok l : ∃ b, check_possible_files fs self l = Ok b.
Proof.
  induction l as [|p l [b IH]]; simpl; [eauto|].
  destruct (path_exists fs p); [|eauto].
  unfold read_text. destruct (file_text fs p) as [content|[]]; simpl; eauto.
  match goal with |- context [if ?c then _ else _] => destruct c end; eauto.
Qed.

Lemma check_app_files_ok l : ∃ b, check_app_files fs self l = Ok b.
Proof.
  induction l as [|p l [b IH]]; simpl; [eauto|].
  unfold read_text. destruct (file_text fs p) as [content|[]]; simpl; eauto.
  match goal with |- context [if ?c then _ else _] => destruct c end; eauto.
Qed.

Lemma parents_ok :
  ∃ parents, _find_potential_parent_serializers fs self = Ok parents.
Proof. eexists. apply for_files_read. Qed.

Lemma find_serializer_in_file_ok : ∃ b, find_serializer_in_file fs self = Ok b.
Proof.
  unfold find_serializer_in_file.
  match goal with |- context [check_possible_files fs self ?l] =>
    destruct (check_possible_files_ok l) as [b ->] end.
  simpl. destruct b; [eauto|].
  destruct parents_ok as [parents ->]. simpl.
  destruct parents; [|eauto].
  destruct (head _) as [app_dir|]; [|eauto].
  destruct (decide (app_dir = EmptyString)); [eauto|].
  apply check_app_files_ok.
Qed.

Lemma parent_usages_ok :
  ∃ l, _scan_for_parent_serializer_usages fs self = Ok l.
Proof.
  unfold _scan_for_parent_serializer_usages.
  destruct parents_ok as [parents ->]. cbn [mbind outcome_bind].
  induction parents as [|parent parents [l IH]]; [by eexists|].
  cbn [parent_usages]. rewrite scan_lines_found, IH. by eexists.
Qed.

Lemma instantiations_ok :
  ∃ l, _scan_for_direct_instantiations fs self = Ok l.
Proof.
  unfold _scan_for_direct_instantiations.
  rewrite (for_files_st_read fs (instantiation_file self)). simpl. eauto.
Qed.

(** [analyze] returns, and what it returns is the deduplicated scan. *)
Lemma analyze_scanned :
  analyze fs self = Ok (_deduplicate_results (scanned fs self)).
Proof.
  unfold analyze, scanned.
  destruct find_serializer_in_file_ok as [b ->].
  destruct parent_usages_ok as [through_parent ->].
  destruct instantiations_ok as [insts ->].
  unfold _scan_for_direct_imports, _scan_for_serializer_class_declarations.
  rewrite !for_files_read.
  unfold _scan_for_field_usages, _scan_for_serializer_inheritance,
    _scan_for_many_true_usages, _scan_for_inner_class_usages,
    _scan_for_meta_class_references.
  rewrite !scan_lines_found. reflexivity.
Qed.

End Totality.

(** ** Deduplicator *)

Section Dedup.

Implicit Types (seen : gset (string * nat)) (items : list item).

Lemma elem_of_keys_of k items :
  k ∈ keys_of items ↔ ∃ it, it ∈ items ∧ item_key it = k.
Proof.
  unfold keys_of. rewrite elem_of_list_to_set, list_elem_of_fmap. naive_solver.
Qed.

Lemma unique_from_app seen items1 items2 :
  unique_from seen (items1 ++ items2)
  = unique_from seen items1 ++ unique_from (keys_of items1 ∪ seen) items2.
Proof.
  revert seen. induction items1 as [|it items1 IH]; intros seen; simpl.
  - f_equal. unfold keys_of. simpl. set_solver.
  - destruct (decide (item_key it ∈ seen)) as [Hin|Hout].
    + rewrite IH. do 2 f_equal. unfold keys_of. simpl. set_solver.
    + simpl. rewrite IH. do 3 f_equal. unfold keys_of. simpl. set_solver.
Qed.

(** The loop, one entry at a time: the entry is kept exactly when its key has
    not been met, whatever its content. *)
Lemma unique_results_snoc items it :
  unique_results (items ++ [it])
  = unique_results items
    ++ (if decide (item_key it ∈ keys_of items) then [] else [it]).
Proof.
  unfold unique_results. rewrite unique_from_app. f_equal. simpl.
  rewrite (right_id_L ∅ (∪)). by destruct (decide _).
Qed.

Lemma unique_from_sublist seen items : sublist (unique_from seen items) items.
Proof.
  revert seen. induction items as [|it items IH]; intros seen; simpl; [done|].
  destruct (decide _); [by apply sublist_cons|by apply sublist_skip].
Qed.

Lemma unique_from_fresh seen items it :
  it ∈ unique_from seen items → item_key it ∉ seen.
Proof.
  revert seen. induction items as [|x items IH]; intros seen; simpl.
  - by intros ?%elem_of_nil.
  - destruct (decide _) as [|Hout]; [by apply IH|].
    intros [->|Hin]%elem_of_cons; [done|]. apply IH in Hin. set_solver.
Qed.

Lemma unique_from_NoDup seen items :
  NoDup (item_key <$> unique_from seen items).
Proof.
  revert seen. induction items as [|x items IH]; intros seen; simpl.
  - constructor.
  - destruct (decide _) as [|Hout]; [by apply IH|].
    rewrite fmap_cons. constructor; [|by apply IH].
    intros (it & Heq & Hin)%list_elem_of_fmap.
    apply unique_from_fresh in Hin. rewrite <-Heq in Hin.
    apply Hin, elem_of_union_l. by apply elem_of_singleton.
Qed.

Lemma unique_from_covers seen items it :
  it ∈ items → item_key it ∉ seen →
  ∃ it', it' ∈ unique_from seen items ∧ item_key it' = item_key it.
Proof.
  revert seen. induction items as [|x items IH]; intros seen; simpl.
  - by intros ?%elem_of_nil.
  - intros Hin Hout. destruct (decide (item_key x ∈ seen)) as [Hx|Hx].
    + apply elem_of_cons in Hin as [->|Hin]; [done|]. by apply IH.
    + destruct (decide (item_key x = item_key it)) as [Heq|Hne].
      * exists x. split; [by left|done].
      * apply elem_of_cons in Hin as [->|Hin]; [done|].
        destruct (IH ({[item_key x]} ∪ seen) Hin) as (it' & ? & ?);
          [set_solver|].
        exists it'. split; [by right|done].
Qed.

Lemma count_at_cons key it items :
  count_at key (it :: items)
  = (if decide (item_key it = key) then 1 else 0) + count_at key items.
Proof. unfold count_at. rewrite filter_cons. by destruct (decide _). Qed.

Lemma count_at_0 key items :
  (∀ it, it ∈ items → item_key it ≠ key) → count_at key items = 0.
Proof.
  induction items as [|x items IH]; intros Hall; [done|].
  rewrite count_at_cons, IH by set_solver.
  destruct (decide _) as [Heq|]; [|done]. destruct (Hall x); [by left|done].
Qed.

Lemma count_at_pos key items it :
  it ∈ items → item_key it = key → 1 ≤ count_at key items.
Proof.
  induction items as [|x items IH]; [by intros ?%elem_of_nil|].
  rewrite count_at_cons. intros [->|Hin]%elem_of_cons Hkey.
  - rewrite decide_True by done. lia.
  - specialize (IH Hin Hkey). lia.
Qed.

Lemma count_at_le_1 key items :
  NoDup (item_key <$> items) → count_at key items ≤ 1.
Proof.
  induction items as [|x items IH]; [unfold count_at; simpl; lia|].
  rewrite fmap_cons, count_at_cons. intros [Hx Hnd]%NoDup_cons.
  destruct (decide (item_key x = key)) as [Heq|]; [|auto].
  rewrite count_at_0; [lia|]. intros it Hin Hkey. apply Hx.
  apply list_elem_of_fmap. exists it. split; [congruence|done].
Qed.

(** After deduplication a key that was recorded at all is recorded once. *)
Lemma count_at_unique key items it :
  it ∈ items → item_key it = key → count_at key (unique_results items) = 1.
Proof.
  intros Hin Hkey.
  pose proof (count_at_le_1 key _ (unique_from_NoDup ∅ items)) as Hle.
  destruct (unique_from_covers ∅ items it Hin) as (it' & Hin' & Hkey');
    [set_solver|].
  pose proof (count_at_pos key _ it' Hin' ltac:(congruence)).
  unfold unique_results. lia.
Qed.

Lemma count_at_unique_0 key items :
  (∀ it, it ∈ items → item_key it ≠ key) →
  count_at key (unique_results items) = 0.
Proof.
  intros Hall. apply count_at_0. intros it Hin. apply Hall.
  eapply elem_of_sublist; [done|apply unique_from_sublist].
Qed.

End Dedup.

(** ** What each pass records *)

Lemma foldl_invariant {S B : Type} (f : S → B → S) (I : S → Prop) (l : list B) :
  ∀ s, I s → (∀ s x, x ∈ l → I s → I (f s x)) → I (foldl f s l).
Proof.
  induction l as [|x l IH]; intros s Hs Hstep; simpl; [done|].
  apply IH; [apply Hstep; [by left|done]|].
  intros s' y Hy. apply Hstep. by right.
Qed.

Section Passes.

Context (fs : FileSystem) (self : Analyzer).

Lemma imports_shape it :
  it ∈ ok_or [] (_scan_for_direct_imports fs self) →
  ∃ p import_stmt, it = ImportItem p import_stmt.
Proof.
  unfold _scan_for_direct_imports. rewrite for_files_read. cbn [ok_or].
  intros (p & content & _ & _ & Hit)%elem_of_visible.
  apply list_elem_of_bind in Hit as (pattern & Hit & _).
  destruct (re_findall pattern content) as [|m ms];
    [by apply elem_of_nil in Hit|].
  apply list_elem_of_singleton in Hit. eauto.
Qed.

(** A line that one of the declaration patterns matches is recorded. *)
Lemma declarations_line p content i line pattern :
  p ∈ python_files fs (project_dirs fs) →
  file_text fs p = inl content →
  split newline content !! i = Some line →
  pattern ∈ declaration_patterns self → re_search pattern line = true →
  LineItem p (S i) (strip line)
    ∈ ok_or [] (_scan_for_serializer_class_declarations fs self).
Proof.
  intros Hp Hc Hi Hpat Hm.
  unfold _scan_for_serializer_class_declarations. rewrite for_files_read.
  cbn [ok_or]. apply elem_of_visible. exists p, content. split_and!; [done..|].
  apply elem_of_app. left. apply list_elem_of_bind. exists (S i, line).
  split; [|apply elem_of_numbered_lines; eauto].
  apply elem_of_per_pattern. eauto.
Qed.

(** The entries of the stateful instantiation pass all passed its guard. *)
Lemma instantiations_guarded it :
  it ∈ ok_or [] (_scan_for_direct_instantiations fs self) → passed_guard fs self it.
Proof.
  unfold _scan_for_direct_instantiations.
  rewrite (for_files_st_read fs (instantiation_file self)).
  cbn [mbind outcome_bind ok_or]. revert it. apply (foldl_invariant _ (λ st : inst_state, ∀ it, it ∈ st.2 → passed_guard fs self it)).
  { intros it ?%elem_of_nil. done. }
  intros st p Hp Hst. destruct (file_text fs p) as [content|] eqn:Hc; [|done].
  unfold instantiation_file.
  apply (foldl_invariant _ (λ st : inst_state, ∀ it, it ∈ st.2 → passed_guard fs self it));
    [done|].
  clear st Hst. intros st [n line] Hn Hst.
  apply elem_of_numbered_lines in Hn as (i & -> & Hi).
  apply (foldl_invariant _ (λ st : inst_state, ∀ it, it ∈ st.2 → passed_guard fs self it));
    [done|].
  clear st Hst. intros st pattern Hpat Hst. unfold instantiation_step.
  destruct (re_search pattern line) eqn:Hm; [|done].
  destruct (contains "class" line) eqn:Hclass; [done|].
  destruct (contains "=" line) eqn:Heq; [done|]. simpl.
  destruct (decide _); [done|]. simpl.
  intros it [Hit| ->%list_elem_of_singleton]%elem_of_app; [by apply Hst|].
  by exists p, content, i, line, pattern.
Qed.

End Passes.

(** Entries recorded for a (file, line) key come from that line of that
    file. *)
Lemma found_lines_at fs per_line p content i line :
  file_text fs p = inl content →
  split newline content !! i = Some line →
  (∀ q n l it, it ∈ per_line q n l → item_key it = (q, n)) →
  ∀ it, it ∈ found_lines fs per_line → item_key it = (p, S i) →
  p ∈ python_files fs (project_dirs fs) ∧ it ∈ per_line p (S i) line.
Proof.
  intros Hc Hi Hkey it Hit Hk.
  apply elem_of_found_lines in Hit as (q & c' & j & l & Hq & Hc' & Hj & Hit).
  rewrite (Hkey _ _ _ _ Hit) in Hk. injection Hk as -> ->.
  rewrite Hc in Hc'. injection Hc' as <-.
  rewrite Hi in Hj. injection Hj as <-. done.
Qed.

(** ** Usage categories of a line *)

Lemma re_search_within r s before after :
  re_search r s = true → re_search r (before +:+ s +:+ after) = true.
Proof.
  rewrite !re_search_true. intros (pre & w & post & -> & HL).
  exists (before +:+ pre), w, (post +:+ after). split; [|done].
  by rewrite !app_assoc_str.
Qed.

Lemma contains_within sub s before after :
  contains sub s = true → contains sub (before +:+ s +:+ after) = true.
Proof.
  rewrite !contains_true. intros (pre & post & ->).
  exists (before +:+ pre), (post +:+ after). by rewrite !app_assoc_str.
Qed.

(** C1: with target UserSerializer, a line holding
    [profile = UserSerializer(many=True)] in a scanned file yields exactly one
    field_usages entry and exactly one many_true_usages entry at its
    (file, line), and no direct_instantiations entry there, the line holding
    an equals sign. *)
Theorem C1_field_and_many_true (fs : FileSystem) (self : Analyzer)
    (rel_path content : string) (i : nat) (indent trailing : string) :
  plain_names self = true →
  serializer_name self = "UserSerializer" →
  rel_path ∈ python_files fs (project_dirs fs) →
  file_text fs rel_path = inl content →
  split newline content !! i
    = Some (indent +:+ "profile = UserSerializer(many=True)" +:+ trailing) →
  ∃ res, analyze fs self = Ok res
    ∧ count_at (rel_path, S i) (field_usages res) = 1
    ∧ count_at (rel_path, S i) (many_true_usages res) = 1
    ∧ count_at (rel_path, S i) (direct_instantiations res) = 0.
Proof.
  intros _ Hname Hp Hc Hi. eexists. split; [apply analyze_scanned|].
  cbn [_deduplicate_results scanned field_usages many_true_usages
       direct_instantiations].
  set (line := indent +:+ "profile = UserSerializer(many=True)" +:+ trailing) in *.
  split_and!.
  - apply (count_at_unique _ _ (LineItem rel_path (S i) (strip line))); [|done].
    unfold _scan_for_field_usages. rewrite scan_lines_found. cbn [ok_or].
    apply elem_of_found_lines. exists rel_path, content, i, line.
    split_and!; [done..|]. apply elem_of_per_pattern. split; [done|].
    eexists. split; [by left|]. unfold field_patterns. rewrite Hname.
    apply re_search_within. by vm_compute.
  - apply (count_at_unique _ _ (LineItem rel_path (S i) (strip line))); [|done].
    unfold _scan_for_many_true_usages. rewrite scan_lines_found. cbn [ok_or].
    apply elem_of_found_lines. exists rel_path, content, i, line.
    split_and!; [done..|]. apply elem_of_per_pattern. split; [done|].
    eexists. split; [by left|]. unfold many_true_patterns. rewrite Hname.
    apply re_search_within. by vm_compute.
  - apply count_at_unique_0. intros it Hit Hkey.
    apply instantiations_guarded in Hit
      as (p & c' & j & l & pattern & _ & Hc' & Hj & -> & _ & _ & _ & Heq).
    injection Hkey as -> ->. rewrite Hc in Hc'. injection Hc' as <-.
    rewrite Hi in Hj. injection Hj as <-.
    unfold line in Heq. rewrite contains_within in Heq; [done|by vm_compute].
Qed.

Lemma C1_field_and_many_true_witness :
  ∃ res,
    analyze
      (single_file "serializers.py" "app/serializers.py"
         (lines ["class ProfileSerializer(Base):";
                 "    profile = UserSerializer(many=True)"]))
      user_serializer = Ok res
    ∧ count_at ("app/serializers.py", 2) (field_usages res) = 1
    ∧ count_at ("app/serializers.py", 2) (many_true_usages res) = 1
    ∧ count_at ("app/serializers.py", 2) (direct_instantiations res) = 0.
Proof.
  apply (C1_field_and_many_true _ user_serializer "app/serializers.py"
           (lines ["class ProfileSerializer(Base):";
                   "    profile = UserSerializer(many=True)"])
           1 "    " EmptyString).
  - reflexivity.
  - reflexivity.
  - apply (bool_decide_unpack _). by vm_compute.
  - reflexivity.
  - reflexivity.
Defined.

(** C5: scanning app.views.UserSerializer over a tree with a file that holds
    the line [serializer_class = UserSerializer] leaves, after deduplication,
    exactly one serializer_class_declarations entry at that (file, line). *)
Theorem C5_serializer_class_once (fs : FileSystem) (rel_path content : string)
    (i : nat) (indent trailing : string) :
  rel_path ∈ python_files fs (project_dirs fs) →
  file_text fs rel_path = inl content →
  split newline content !! i
    = Some (indent +:+ "serializer_class = UserSerializer" +:+ trailing) →
  ∃ res, analyze_path fs "app.views.UserSerializer" = Ok res
    ∧ count_at (rel_path, S i) (serializer_class_declarations res) = 1.
Proof.
  intros Hp Hc Hi. eexists. split.
  { change (analyze_path fs "app.views.UserSerializer")
      with (analyze fs user_serializer). apply analyze_scanned. }
  cbn [_deduplicate_results scanned serializer_class_declarations].
  set (line := indent +:+ "serializer_class = UserSerializer" +:+ trailing) in *.
  apply (count_at_unique _ _ (LineItem rel_path (S i) (strip line))); [|done].
  apply elem_of_app. left.
  eapply declarations_line; [done..|by left|].
  apply re_search_within. by vm_compute.
Qed.

Lemma C5_serializer_class_once_witness :
  ∃ res,
    analyze_path
      (single_file "views.py" "app/views.py"
         (lines ["class UserView(APIView):";
                 "    serializer_class = UserSerializer"]))
      "app.views.UserSerializer" = Ok res
    ∧ count_at ("app/views.py", 2) (serializer_class_declarations res) = 1.
Proof.
  apply (C5_serializer_class_once _ "app/views.py"
           (lines ["class UserView(APIView):";
                   "    serializer_class = UserSerializer"])
           1 "    " EmptyString).
  - apply (bool_decide_unpack _). by vm_compute.
  - reflexivity.
  - reflexivity.
Defined.

(** C6: every category is deduplicated by one loop that keeps, in the
    original order, the first entry of each (file, line) key and drops every
    later entry of that key whatever its content; import entries have no line
    and take line 0 in the key, so the deduplicated direct-imports category
    has at most one entry per file. *)
Theorem C6_deduplication (r : Results) (fs : FileSystem) (self : Analyzer) :
  plain_names self = true →
  Forall (λ category,
            category (_deduplicate_results r) = unique_results (category r)
            ∧ sublist (unique_results (category r)) (category r)
            ∧ NoDup (item_key <$> unique_results (category r)))
    categories
  ∧ unique_results [] = []
  ∧ (∀ items it,
       unique_results (items ++ [it])
       = unique_results items
         ++ (if decide (item_key it ∈ keys_of items) then [] else [it]))
  ∧ (∀ file import_stmt, item_key (ImportItem file import_stmt) = (file, 0))
  ∧ ∃ res, analyze fs self = Ok res
      ∧ ∀ file,
          length (filter (λ it, item_file it = file) (direct_imports res)) ≤ 1.
Proof.
  intros _. split_and!.
  - repeat constructor; apply unique_from_sublist || apply unique_from_NoDup.
  - done.
  - apply unique_results_snoc.
  - done.
  - eexists. split; [apply analyze_scanned|].
    cbn [_deduplicate_results scanned direct_imports]. intros file.
    set (items := unique_results _).
    assert (Forall (λ it, item_line it = 0) items) as Hshape.
    { apply Forall_forall. intros it Hit.
      pose proof (elem_of_sublist _ _ _ Hit (unique_from_sublist ∅ _)) as Hit'.
      by apply imports_shape in Hit' as (p & m & ->). }
    pose proof (count_at_le_1 (file, 0) items (unique_from_NoDup ∅ _)) as Hle.
    unfold count_at in Hle.
    assert (filter (λ it, item_file it = file) items
            = filter (λ it, item_key it = (file, 0)) items) as ->; [|done].
    clear Hle. induction Hshape as [|it items Hline _ IH]; [done|].
    rewrite !filter_cons, IH. unfold item_key. rewrite Hline.
    destruct (decide (item_file it = file)) as [->|Hne].
    + by rewrite decide_True.
    + rewrite decide_False; [done|]. by intros [= ?].
Qed.

Lemma C6_deduplication_witness :
  unique_results
    [ImportItem "app/views.py" "from app.views import UserSerializer";
     LineItem "app/views.py" 3 "serializer_class = UserSerializer";
     ImportItem "app/views.py" "from app.serializers import UserSerializer";
     LineItem "app/views.py" 3 "Used through parent: X.UserSerializer"]
  = [ImportItem "app/views.py" "from app.views import UserSerializer";
     LineItem "app/views.py" 3 "serializer_class = UserSerializer"]
  ∧ ∃ res, analyze two_files user_serializer = Ok res
      ∧ ∀ file,
          length (filter (λ it, item_file it = file) (direct_imports res)) ≤ 1.
Proof.
  split; [by vm_compute|].
  apply (C6_deduplication no_usages two_files user_serializer). reflexivity.
Defined.

(** C10: the direct-instantiations pass records nothing for a line that
    holds the text class or an equals sign anywhere, even when the line calls
    the target class. *)
Theorem C10_instantiation_guard (fs : FileSystem) (self : Analyzer)
    (p content : string) (i : nat) (line : string) :
  plain_names self = true →
  file_text fs p = inl content →
  split newline content !! i = Some line →
  contains "class" line = true ∨ contains "=" line = true →
  (∀ it, it ∈ ok_or [] (_scan_for_direct_instantiations fs self) →
         item_key it ≠ (p, S i))
  ∧ ∃ res, analyze fs self = Ok res
      ∧ count_at (p, S i) (direct_instantiations res) = 0.
Proof.
  intros _ Hc Hi Hguard.
  assert (∀ it, it ∈ ok_or [] (_scan_for_direct_instantiations fs self) →
                item_key it ≠ (p, S i)) as Hnone.
  { intros it Hit Hkey.
    apply instantiations_guarded in Hit
      as (q & c' & j & l & pattern & _ & Hc' & Hj & -> & _ & _ & Hclass & Heq).
    injection Hkey as -> ->. rewrite Hc in Hc'. injection Hc' as <-.
    rewrite Hi in Hj. injection Hj as <-.
    destruct Hguard; congruence. }
  split; [done|]. eexists. split; [apply analyze_scanned|].
  cbn [_deduplicate_results scanned direct_instantiations].
  by apply count_at_unique_0.
Qed.

Lemma C10_instantiation_guard_witness :
  re_search (seqs [Lit "Foo"; Lit "("]) "classify(Foo(payload))" = true
  ∧ ∃ res,
      analyze
        (single_file "views.py" "app/views.py"
           (lines ["import x"; "classify(Foo(payload))"]))
        foo_serializer = Ok res
      ∧ count_at ("app/views.py", 2) (direct_instantiations res) = 0.
Proof.
  split; [by vm_compute|].
  apply (C10_instantiation_guard
           (single_file "views.py" "app/views.py"
              (lines ["import x"; "classify(Foo(payload))"]))
           foo_serializer "app/views.py"
           (lines ["import x"; "classify(Foo(payload))"])
           1 "classify(Foo(payload))").
  - reflexivity.
  - reflexivity.
  - reflexivity.
  - left. reflexivity.
Defined.

(** ** Inner-class and Meta references *)

Lemma nonempty_length w : 1 ≤ String.length w ↔ w ≠ EmptyString.
Proof. destruct w; simpl; split; (done || lia). Qed.

Lemma meta_implies_inner self line :
  re_search (meta_class_pattern self) line = true →
  re_search (inner_class_pattern self) line = true.
Proof.
  rewrite !re_search_true. intros (pre & w & post & -> & HL).
  exists pre, w, post. split; [done|].
  unfold meta_class_pattern, inner_class_pattern in *.
  apply lang_seqs_cons in HL as (w1 & wa & -> & H1 & HL).
  apply lang_seqs_cons in HL as (w2 & wb & -> & H2 & HL).
  apply lang_seqs_cons in HL as (w3 & wc & -> & H3 & ->%lang_seqs_nil).
  apply lang_Lit in H3 as ->.
  apply lang_seqs_cons. exists w1, (w2 +:+ "Meta" +:+ EmptyString).
  split_and!; [done..|].
  apply lang_seqs_cons. exists w2, ("Meta" +:+ EmptyString).
  split_and!; [done..|].
  apply lang_seqs_cons. exists "Meta", EmptyString.
  split_and!; [done| |done].
  apply lang_rep_chr. split; [by vm_compute|simpl; lia].
Qed.

(** C9: a (file, line) recorded as a meta_class_references entry whose line
    does not hold the text serializer_class is recorded as an
    inner_class_usages entry too, so the line adds at least 2 to the sum of
    usages. *)
Theorem C9_meta_is_inner (fs : FileSystem) (self : Analyzer)
    (p content : string) (i : nat) (line : string) :
  plain_names self = true →
  file_text fs p = inl content →
  split newline content !! i = Some line →
  contains "serializer_class" line = false →
  ∃ res, analyze fs self = Ok res
    ∧ ∀ it, it ∈ meta_class_references res → item_key it = (p, S i) →
        it ∈ inner_class_usages res
        ∧ count_at (p, S i) (meta_class_references res)
          + count_at (p, S i) (inner_class_usages res) = 2
        ∧ 2 ≤ sum_usages res.
Proof.
  intros _ Hc Hi Hsc. exists (_deduplicate_results (scanned fs self)).
  split; [apply analyze_scanned|].
  pose (meta_line := λ rel_path line_num line,
          if re_search (meta_class_pattern self) line
          then [LineItem rel_path line_num (strip line)] else []).
  pose (inner_line := λ rel_path line_num line,
          if re_search (inner_class_pattern self) line
             && negb (contains "serializer_class" line)
          then [LineItem rel_path line_num (strip line)] else []).
  assert (meta_class_references (_deduplicate_results (scanned fs self))
          = unique_results (found_lines fs meta_line)) as Hmeta.
  { cbn [_deduplicate_results scanned meta_class_references].
    unfold _scan_for_meta_class_references. by rewrite scan_lines_found. }
  assert (inner_class_usages (_deduplicate_results (scanned fs self))
          = unique_results (found_lines fs inner_line)) as Hinn.
  { cbn [_deduplicate_results scanned inner_class_usages].
    unfold _scan_for_inner_class_usages. by rewrite scan_lines_found. }
  unfold sum_usages. rewrite Hmeta, Hinn.
  generalize (_deduplicate_results (scanned fs self)). intros res.
  assert (∀ q n l it, it ∈ meta_line q n l → item_key it = (q, n)) as Hkm.
  { intros q n l it. unfold meta_line. destruct (re_search _ l); [|by intros ?%elem_of_nil].
    by intros ->%list_elem_of_singleton. }
  assert (∀ q n l it, it ∈ inner_line q n l → item_key it = (q, n)) as Hki.
  { intros q n l it. unfold inner_line. destruct (_ && _); [|by intros ?%elem_of_nil].
    by intros ->%list_elem_of_singleton. }
  intros it Hit Hkey.
  pose proof (elem_of_sublist _ _ _ Hit (unique_from_sublist ∅ _)) as Hraw.
  destruct (found_lines_at fs meta_line p content i line Hc Hi Hkm it Hraw Hkey)
    as [Hp Hline].
  unfold meta_line in Hline.
  destruct (re_search (meta_class_pattern self) line) eqn:Hm;
    [|by apply elem_of_nil in Hline].
  apply list_elem_of_singleton in Hline as ->.
  assert (LineItem p (S i) (strip line) ∈ found_lines fs inner_line) as Hinner.
  { apply elem_of_found_lines. exists p, content, i, line.
    split_and!; [done..|]. unfold inner_line.
    rewrite (meta_implies_inner _ _ Hm), Hsc. by left. }
  destruct (unique_from_covers ∅ _ _ Hinner) as (it' & Hin' & Hkey');
    [set_solver|].
  pose proof (elem_of_sublist _ _ _ Hin' (unique_from_sublist ∅ _)) as Hraw'.
  destruct (found_lines_at fs inner_line p content i line Hc Hi Hki it' Hraw' Hkey')
    as [_ Hline'].
  unfold inner_line in Hline'. destruct (_ && _); [|by apply elem_of_nil in Hline'].
  apply list_elem_of_singleton in Hline' as ->.
  split; [done|].
  pose proof (count_at_unique (p, S i) _ _ Hraw eq_refl) as Hcm.
  pose proof (count_at_unique (p, S i) _ _ Hinner eq_refl) as Hci.
  split; [lia|].
  pose proof (length_filter (λ it, item_key it = (p, S i))
                (unique_results (found_lines fs meta_line))) as Hlm.
  pose proof (length_filter (λ it, item_key it = (p, S i))
                (unique_results (found_lines fs inner_line))) as Hli.
  unfold count_at in Hcm, Hci. lia.
Qed.

Lemma C9_meta_is_inner_witness :
  ∃ res,
    analyze
      (single_file "serializers.py" "app/serializers.py"
         (lines ["class Child(UserSerializer):";
                 "    class Meta(UserSerializer.Meta):"]))
      user_serializer = Ok res
    ∧ ∀ it, it ∈ meta_class_references res →
        item_key it = ("app/serializers.py", 2) →
        it ∈ inner_class_usages res
        ∧ count_at ("app/serializers.py", 2) (meta_class_references res)
          + count_at ("app/serializers.py", 2) (inner_class_usages res) = 2
        ∧ 2 ≤ sum_usages res.
Proof.
  apply (C9_meta_is_inner _ user_serializer "app/serializers.py"
           (lines ["class Child(UserSerializer):";
                   "    class Meta(UserSerializer.Meta):"])
           1 "    class Meta(UserSerializer.Meta):").
  - reflexivity.
  - reflexivity.
  - reflexivity.
  - reflexivity.
Defined.

(** ** Inheritance *)

Lemma inheritance_search self line :
  re_search (inheritance_pattern self) line = true
  ↔ class_header_with_base (serializer_name self) line.
Proof.
  rewrite re_search_true. unfold inheritance_pattern, class_header_with_base.
  split.
  - intros (pre & w & post & -> & HL).
    apply lang_seqs_cons in HL as (w1 & wa & -> & ->%lang_Lit & HL).
    apply lang_seqs_cons in HL as (w2 & wb & -> & H2 & HL).
    apply lang_seqs_cons in HL as (w3 & wc & -> & H3 & HL).
    apply lang_seqs_cons in HL as (w4 & wd & -> & ->%lang_Lit & HL).
    apply lang_seqs_cons in HL as (w5 & we & -> & ->%lang_Lit & HL).
    apply lang_seqs_cons in HL as (w6 & wf & -> & H6 & HL).
    apply lang_seqs_cons in HL as (w7 & wg & -> & ->%lang_Lit & ->%lang_seqs_nil).
    apply lang_rep_chr in H2 as [H2 ?%nonempty_length].
    apply lang_rep_chr in H3 as [H3 ?%nonempty_length].
    apply lang_rep_chr in H6 as [H6 _].
    exists pre, w2, w3, w6, post. rewrite str_app_nil_r.
    split_and!; try done. by rewrite !app_assoc_str.
  - intros (before & blanks & other & more & after & -> & ? & ? & ? & ? & ?).
    exists before,
      ("class" +:+ blanks +:+ other +:+ "(" +:+ serializer_name self
       +:+ more +:+ "):" +:+ EmptyString), after.
    split; [by rewrite str_app_nil_r, !app_assoc_str|].
    apply lang_seqs_cons. do 2 eexists. split_and!; [done|by apply lang_Lit|].
    apply lang_seqs_cons. do 2 eexists.
    split_and!; [done|by apply lang_rep_chr, conj, nonempty_length|].
    apply lang_seqs_cons. do 2 eexists.
    split_and!; [done|by apply lang_rep_chr, conj, nonempty_length|].
    apply lang_seqs_cons. do 2 eexists. split_and!; [done|by apply lang_Lit|].
    apply lang_seqs_cons. do 2 eexists. split_and!; [done|by apply lang_Lit|].
    apply lang_seqs_cons. do 2 eexists.
    split_and!; [done|apply lang_rep_chr; split; [done|lia]|].
    apply lang_seqs_cons. do 2 eexists. split_and!; [done|by apply lang_Lit|done].
Qed.

Lemma header_contains_base target line :
  class_header_with_base target line → contains ("(" +:+ target) line = true.
Proof.
  intros (before & blanks & other & more & after & -> & _).
  apply contains_true.
  exists (before +:+ "class" +:+ blanks +:+ other), (more +:+ "):" +:+ after).
  by rewrite !app_assoc_str.
Qed.

(** C4, as the code has it: for a target named by an identifier, a line of a
    readable file is recorded in serializer_inheritance exactly when the file
    is scanned and the line holds a class header whose parenthesis is directly
    followed by the characters of the target name.  So a line without the
    text "(Foo" is never recorded for Foo, the definition
    [class Foo(BaseSerializer):] among them. *)
Theorem C4_inheritance_by_header (fs : FileSystem) (self : Analyzer)
    (p content : string) (i : nat) (line : string) :
  plain_names self = true →
  file_text fs p = inl content →
  split newline content !! i = Some line →
  ∃ res, analyze fs self = Ok res
    ∧ (count_at (p, S i) (serializer_inheritance res) = 1
       ↔ p ∈ python_files fs (project_dirs fs)
         ∧ class_header_with_base (serializer_name self) line)
    ∧ count_at (p, S i) (serializer_inheritance res) ≤ 1
    ∧ (contains ("(" +:+ serializer_name self) line = false →
       count_at (p, S i) (serializer_inheritance res) = 0).
Proof.
  intros _ Hc Hi. eexists. split; [apply analyze_scanned|].
  cbn [_deduplicate_results scanned serializer_inheritance].
  unfold _scan_for_serializer_inheritance. rewrite scan_lines_found.
  cbn [ok_or].
  set (per_line := λ rel_path line_num line, if re_search _ line then _ else _).
  assert (∀ q n l it, it ∈ per_line q n l → item_key it = (q, n)) as Hk.
  { intros q n l it. unfold per_line.
    destruct (re_search _ l); [|by intros ?%elem_of_nil].
    by intros ->%list_elem_of_singleton. }
  assert (∀ it, it ∈ found_lines fs per_line → item_key it = (p, S i) →
                p ∈ python_files fs (project_dirs fs)
                ∧ class_header_with_base (serializer_name self) line) as Hfrom.
  { intros it Hit Hkey.
    destruct (found_lines_at fs per_line p content i line Hc Hi Hk it Hit Hkey)
      as [Hp Hline].
    split; [done|]. apply inheritance_search. unfold per_line in Hline.
    destruct (re_search _ line); [done|by apply elem_of_nil in Hline]. }
  pose proof (count_at_le_1 (p, S i) _
                (unique_from_NoDup ∅ (found_lines fs per_line))) as Hle.
  fold (unique_results (found_lines fs per_line)) in Hle.
  assert (count_at (p, S i) (unique_results (found_lines fs per_line)) = 0
          ∨ ∃ it, it ∈ found_lines fs per_line ∧ item_key it = (p, S i))
    as Hcases.
  { destruct (decide (count_at (p, S i)
                        (unique_results (found_lines fs per_line)) = 0))
      as [|Hne]; [by left|right].
    unfold count_at in Hne.
    destruct (filter _ _) as [|it l] eqn:Hf; [done|].
    assert (it ∈ filter (λ it, item_key it = (p, S i))
                   (unique_results (found_lines fs per_line))) as Hit
      by (rewrite Hf; by left).
    apply list_elem_of_filter in Hit as [Hkey Hit]. exists it. split; [|done].
    eapply elem_of_sublist; [done|apply unique_from_sublist]. }
  split_and!; [split| |].
  - intros Hone. destruct Hcases as [Hzero|(it & Hit & Hkey)]; [lia|eauto].
  - intros [Hp Hhead%inheritance_search].
    apply (count_at_unique _ _ (LineItem p (S i) (strip line))); [|done].
    apply elem_of_found_lines. exists p, content, i, line.
    split_and!; [done..|]. unfold per_line. rewrite Hhead. by left.
  - done.
  - intros Hno. destruct Hcases as [Hzero|(it & Hit & Hkey)]; [done|].
    destruct (Hfrom it Hit Hkey) as [_ Hhead%header_contains_base]. congruence.
Qed.

Lemma C4_inheritance_by_header_witness :
  ∃ res,
    analyze
      (single_file "serializers.py" "app/serializers.py"
         (lines ["class Foo(BaseSerializer):"; "class Bar(Foo):"]))
      foo_serializer = Ok res
    ∧ count_at ("app/serializers.py", 1) (serializer_inheritance res) = 0.
Proof.
  destruct (C4_inheritance_by_header
              (single_file "serializers.py" "app/serializers.py"
                 (lines ["class Foo(BaseSerializer):"; "class Bar(Foo):"]))
              foo_serializer "app/serializers.py"
              (lines ["class Foo(BaseSerializer):"; "class Bar(Foo):"])
              0 "class Foo(BaseSerializer):")
    as (res & Hres & _ & _ & Hzero).
  - reflexivity.
  - reflexivity.
  - reflexivity.
  - exists res. split; [exact Hres|]. apply Hzero. reflexivity.
Defined.

(** C4, counterexample: the line that defines Foo is recorded in
    serializer_inheritance when its first base begins with the characters
    Foo, and so is the definition of a class that lists FooBar, not Foo. *)
Lemma C4_definition_line_recorded :
  ∃ res,
    analyze
      (single_file "serializers.py" "app/serializers.py"
         (lines ["class Foo(FooMixin):"; "class Bar(FooBar):"]))
      foo_serializer = Ok res
    ∧ serializer_inheritance res
      = [LineItem "app/serializers.py" 1 "class Foo(FooMixin):";
         LineItem "app/serializers.py" 2 "class Bar(FooBar):"].
Proof. eexists. split; [apply analyze_scanned|]. by vm_compute. Qed.

(** ** Unreadable files *)

Section Unreadable.

Context (fs : FileSystem) (p : string) (e : unreadable).
Hypothesis unreadable_p : file_text fs p = inr e.

Lemma filter_bind_list {B C} (P : C → Prop) `{∀ x, Decision (P x)}
    (f : B → list C) (l : list B) :
  filter P (l ≫= f) = l ≫= (λ x, filter P (f x)).
Proof.
  induction l as [|x l IH]; [done|].
  by rewrite !bind_cons, filter_app, IH.
Qed.

Lemma python_files_without dirs :
  python_files (without_file p fs) dirs
  = filter (λ q, q ≠ p) (python_files fs dirs).
Proof.
  unfold python_files. rewrite filter_bind_list.
  apply list_bind_ext; [|done]. intros dir. simpl.
  induction (os_walk fs dir) as [|[file file_path] l IH]; [done|].
  rewrite filter_cons, !bind_cons, filter_app, <-IH. simpl.
  destruct (decide (file_path ≠ p)) as [Hne|Heq].
  - rewrite bind_cons. f_equal.
    destruct (endswith file ".py"); [|done].
    by rewrite filter_cons, decide_True.
  - destruct (endswith file ".py"); [|done].
    by rewrite filter_cons, decide_False.
Qed.

Lemma visible_unreadable {B} (g : string → string → list B) :
  visible fs g p = [].
Proof. unfold visible. by rewrite unreadable_p. Qed.

Lemma visible_other {B} (g : string → string → list B) q :
  q ≠ p → visible (without_file p fs) g q = visible fs g q.
Proof. intros Hne. unfold visible. simpl. by rewrite decide_False. Qed.

Lemma visible_without {B} (g : string → string → list B) files :
  filter (λ q, q ≠ p) files ≫= visible (without_file p fs) g
  = files ≫= visible fs g.
Proof.
  induction files as [|q files IH]; [done|].
  rewrite filter_cons, bind_cons, <-IH.
  destruct (decide (q ≠ p)) as [Hne|Heq].
  - by rewrite bind_cons, visible_other.
  - apply dec_stable in Heq as ->. by rewrite visible_unreadable.
Qed.

Lemma foldl_without {S} (g : string → string → S → S) files : ∀ s,
  foldl (λ s q, match file_text (without_file p fs) q with
                | inl content => g q content s
                | inr _ => s
                end) s (filter (λ q, q ≠ p) files)
  = foldl (λ s q, match file_text fs q with
                  | inl content => g q content s
                  | inr _ => s
                  end) s files.
Proof.
  induction files as [|q files IH]; intros s; [done|].
  rewrite filter_cons. destruct (decide (q ≠ p)) as [Hne|Heq].
  - simpl. rewrite decide_False by done. apply IH.
  - apply dec_stable in Heq as ->. simpl. rewrite unreadable_p. apply IH.
Qed.

Lemma found_lines_without per_line :
  found_lines (without_file p fs) per_line = found_lines fs per_line.
Proof.
  unfold found_lines.
  change (project_dirs (without_file p fs)) with (project_dirs fs).
  rewrite python_files_without. apply visible_without.
Qed.

Lemma for_files_without {B} (g : string → string → list B) :
  for_files (python_files (without_file p fs) (project_dirs fs))
    (λ q, content ← read_text (without_file p fs) q; Ok (g q content))
  = for_files (python_files fs (project_dirs fs))
      (λ q, content ← read_text fs q; Ok (g q content)).
Proof.
  rewrite !for_files_read, python_files_without. f_equal.
  apply visible_without.
Qed.

(** Every pass gives the same on the tree without the unreadable file. *)
Lemma passes_without self :
  Forall (λ pass, pass (without_file p fs) self = pass fs self) passes.
Proof.
  assert (_find_potential_parent_serializers (without_file p fs) self
          = _find_potential_parent_serializers fs self) as Hparents
    by apply for_files_without.
  repeat constructor.
  - apply for_files_without.
  - apply for_files_without.
  - unfold _scan_for_field_usages. by rewrite !scan_lines_found, found_lines_without.
  - unfold _scan_for_serializer_inheritance.
    by rewrite !scan_lines_found, found_lines_without.
  - unfold _scan_for_direct_instantiations.
    rewrite (for_files_st_read fs (instantiation_file self)).
    rewrite (for_files_st_read (without_file p fs) (instantiation_file self)).
    change (project_dirs (without_file p fs)) with (project_dirs fs).
    by rewrite python_files_without, foldl_without.
  - unfold _scan_for_many_true_usages.
    by rewrite !scan_lines_found, found_lines_without.
  - unfold _scan_for_inner_class_usages.
    by rewrite !scan_lines_found, found_lines_without.
  - unfold _scan_for_meta_class_references.
    by rewrite !scan_lines_found, found_lines_without.
  - unfold _scan_for_parent_serializer_usages. rewrite Hparents.
    destruct (_find_potential_parent_serializers fs self) as [parents|];
      [|done].
    cbn [mbind outcome_bind]. clear Hparents.
    induction parents as [|parent parents IH]; [done|].
    cbn [parent_usages].
    by rewrite !scan_lines_found, found_lines_without, IH.
Qed.

Lemma check_possible_files_without self candidates :
  check_possible_files (without_file p fs) self candidates
  = check_possible_files fs self candidates.
Proof.
  induction candidates as [|q candidates IH]; [done|].
  cbn [check_possible_files]. rewrite IH. unfold read_text.
  cbn [path_exists file_text without_file].
  destruct (decide (q = p)) as [->|Hne]; [|done].
  rewrite unreadable_p.
  by destruct (path_exists fs p), e.
Qed.

Lemma check_app_files_without self files :
  check_app_files (without_file p fs) self (filter (λ q, q ≠ p) files)
  = check_app_files fs self files.
Proof.
  induction files as [|q files IH]; [done|].
  rewrite filter_cons. destruct (decide (q ≠ p)) as [Hne|Heq].
  - cbn [check_app_files]. rewrite IH. unfold read_text.
    cbn [file_text without_file]. by rewrite decide_False.
  - apply dec_stable in Heq as ->. cbn [check_app_files]. unfold read_text.
    rewrite unreadable_p, IH. by destruct e.
Qed.

(** The class locator, too, gives the same without the unreadable file. *)
Lemma locator_without self :
  find_serializer_in_file (without_file p fs) self
  = find_serializer_in_file fs self.
Proof.
  unfold find_serializer_in_file. rewrite check_possible_files_without.
  destruct (check_possible_files fs self _) as [[]|]; [done| |done].
  cbn [mbind outcome_bind].
  assert (_find_potential_parent_serializers (without_file p fs) self
          = _find_potential_parent_serializers fs self) as ->
    by apply for_files_without.
  destruct (_find_potential_parent_serializers fs self) as [[|? ?]|];
    [|done..].
  cbn [mbind outcome_bind project_dirs without_file].
  destruct (head _) as [app_dir|]; [|done].
  destruct (decide _); [done|].
  rewrite python_files_without. apply check_app_files_without.
Qed.

End Unreadable.

Lemma passes_ok fs self :
  Forall (λ pass, ∃ found, pass fs self = Ok found) passes.
Proof.
  repeat constructor;
    try (eexists; apply for_files_read);
    try (eexists; apply scan_lines_found).
  - apply instantiations_ok.
  - apply parent_usages_ok.
Qed.

(** C8: when a file of the tree cannot be read or decoded, every pass skips
    it, and [analyze] returns normally with the result it gives on the same
    tree without that file. *)
Theorem C8_unreadable_file_skipped (fs : FileSystem) (self : Analyzer)
    (p : string) (e : unreadable) :
  plain_names self = true →
  file_text fs p = inr e →
  Forall (λ pass, ∃ found, pass fs self = Ok found
                           ∧ pass (without_file p fs) self = Ok found) passes
  ∧ (∃ located, find_serializer_in_file fs self = Ok located
                ∧ find_serializer_in_file (without_file p fs) self = Ok located)
  ∧ ∃ res, analyze fs self = Ok res
           ∧ analyze (without_file p fs) self = Ok res.
Proof.
  intros _ He. pose proof (passes_without fs p e He self) as Hpasses.
  split_and!.
  - pose proof (passes_ok fs self) as Hok.
    pose proof (proj2 (Forall_and _ _) (conj Hpasses Hok)) as Hboth.
    eapply Forall_impl; [exact Hboth|].
    intros pass [Heq [found Hfound]]. exists found. by rewrite Heq.
  - destruct (find_serializer_in_file_ok fs self) as [located Hlocated].
    exists located. by rewrite (locator_without fs p e He).
  - exists (_deduplicate_results (scanned fs self)).
    split; [apply analyze_scanned|]. rewrite analyze_scanned. do 2 f_equal.
    unfold passes in Hpasses.
    repeat match goal with
           | H : Forall _ (_ :: _) |- _ => apply Forall_cons in H as [? H]
           end.
    unfold scanned.
    by repeat match goal with H : _ = _ |- _ => rewrite H; clear H end.
Qed.

Lemma C8_unreadable_file_skipped_witness :
  ∃ res,
    analyze two_files user_serializer = Ok res
    ∧ analyze (without_file "app/legacy.py" two_files) user_serializer = Ok res.
Proof.
  apply (C8_unreadable_file_skipped two_files user_serializer
           "app/legacy.py" Undecodable).
  - reflexivity.
  - reflexivity.
Defined.

(** ** The batch report *)

Section Batch.

Context (scan : string → outcome Results) (threshold : Z).

Lemma batch_loop serializers : ∀ st,
  foldl (analyze_candidate scan threshold) st serializers
  = (st.1 ++ filter (within_threshold threshold) (completed scan serializers),
     st.2 ++ completed scan serializers).
Proof.
  induction serializers as [|c l IH]; intros [unused all].
  - simpl. by rewrite !app_nil_r.
  - cbn [foldl]. rewrite IH. unfold completed. rewrite bind_cons.
    unfold analyze_candidate.
    destruct (scan (c_path c)) as [results|]; [|done]. cbn [fst snd app].
    rewrite filter_cons.
    destruct (decide (within_threshold threshold (serializer_result c results)))
      as [Hin|Hout].
    + unfold within_threshold in Hin. apply Z.leb_le in Hin. rewrite Hin.
      by rewrite <-!app_assoc.
    + unfold within_threshold in Hout. apply Z.leb_nle in Hout. rewrite Hout.
      by rewrite <-!app_assoc.
Qed.

Lemma insert_sorted_perm x l : insert_sorted x l ≡ₚ x :: l.
Proof.
  induction l as [|y l IH]; simpl; [done|].
  destruct (_ <=? _); [done|]. by rewrite IH, Permutation_swap.
Qed.

Lemma sort_perm l : sort_by_total_usages l ≡ₚ l.
Proof.
  induction l as [|x l IH]; simpl; [done|].
  by rewrite insert_sorted_perm, IH.
Qed.

Lemma insert_sorted_Forall (P : SerializerResult → Prop) x l :
  P x → Forall P l → Forall P (insert_sorted x l).
Proof. intros Hx Hl. by rewrite insert_sorted_perm; constructor. Qed.

Lemma insert_sorted_sorted x l :
  StronglySorted by_total_usages l →
  StronglySorted by_total_usages (insert_sorted x l).
Proof.
  induction 1 as [|y l Hl IH Hy]; simpl; [repeat constructor|].
  destruct (total_usages x <=? total_usages y) eqn:E.
  - apply Nat.leb_le in E. constructor; [by constructor|].
    constructor; [done|]. eapply Forall_impl; [exact Hy|].
    unfold by_total_usages. intros z ?. lia.
  - apply Nat.leb_gt in E. constructor; [done|].
    apply insert_sorted_Forall; [|done]. unfold by_total_usages. lia.
Qed.

Lemma sort_sorted l : StronglySorted by_total_usages (sort_by_total_usages l).
Proof.
  induction l as [|x l IH]; simpl; [constructor|].
  by apply insert_sorted_sorted.
Qed.

(** Entries of equal count keep their relative order. *)
Lemma insert_sorted_stable k x l :
  filter (λ r, total_usages r = k) (insert_sorted x l)
  = filter (λ r, total_usages r = k) (x :: l).
Proof.
  induction l as [|y l IH]; simpl; [done|].
  destruct (total_usages x <=? total_usages y) eqn:E; [done|].
  apply Nat.leb_gt in E. rewrite filter_cons, IH, !filter_cons.
  destruct (decide (total_usages y = k)), (decide (total_usages x = k));
    try done. lia.
Qed.

Lemma sort_stable k l :
  filter (λ r, total_usages r = k) (sort_by_total_usages l)
  = filter (λ r, total_usages r = k) l.
Proof.
  induction l as [|x l IH]; simpl; [done|].
  by rewrite insert_sorted_stable, !filter_cons, IH.
Qed.

Lemma run_batch_unused serializers :
  (run_batch scan threshold serializers).1
  = sort_by_total_usages
      (filter (within_threshold threshold) (completed scan serializers)).
Proof. unfold run_batch. by rewrite batch_loop. Qed.

End Batch.

Lemma select_candidates_sublist opts serializers :
  sublist (select_candidates opts serializers) serializers.
Proof.
  unfold select_candidates.
  assert (sublist (match target_app opts with
                   | Some app =>
                       if decide (app = EmptyString) then serializers
                       else filter (λ s, startswith (c_path s) (app +:+ ".") = true)
                              serializers
                   | None => serializers
                   end) serializers) as Hfiltered.
  { destruct (target_app opts) as [app|]; [|done].
    destruct (decide _); [done|]. apply sublist_filter. }
  destruct (limit opts) as [n|]; [|done].
  destruct (0 <? n)%Z; [|done].
  etrans; [apply sublist_take|done].
Qed.

(** [handle] is the batch loop over the selected candidates, which come in
    the order of enumeration. *)
Lemma handle_run_batch fs opts candidates :
  find_all_serializers fs = Ok candidates →
  handle fs opts
  = Ok (run_batch (analyze_path fs) (threshold opts)
          (select_candidates opts candidates))
  ∧ sublist (select_candidates opts candidates) candidates.
Proof.
  intros Hfound. unfold handle. rewrite Hfound.
  split; [done|apply select_candidates_sublist].
Qed.

(** C2: in batch mode a candidate whose scan completes is in the unused list
    exactly when the sum of the sizes of its eight categories is at most the
    threshold; the unused list is sorted by ascending total, and candidates
    of equal total stay in the order in which they were enumerated. *)
Theorem C2_unused_iff_sorted (scan : string → outcome Results) (threshold : Z)
    (serializers : list Candidate) (c : Candidate) (results : Results) :
  c ∈ serializers →
  scan (c_path c) = Ok results →
  let unused := (run_batch scan threshold serializers).1 in
  total_usages (serializer_result c results)
  = length (direct_imports results)
    + length (serializer_class_declarations results)
    + length (field_usages results)
    + length (serializer_inheritance results)
    + length (direct_instantiations results)
    + length (many_true_usages results)
    + length (inner_class_usages results)
    + length (meta_class_references results)
  ∧ (serializer_result c results ∈ unused
     ↔ (Z.of_nat (total_usages (serializer_result c results)) ≤ threshold)%Z)
  ∧ StronglySorted by_total_usages unused
  ∧ unused ≡ₚ filter (within_threshold threshold) (completed scan serializers)
  ∧ ∀ k, filter (λ r, total_usages r = k) unused
         = filter (λ r, total_usages r = k)
             (filter (within_threshold threshold) (completed scan serializers)).
Proof.
  intros Hc Hscan unused. unfold unused. rewrite run_batch_unused.
  split_and!.
  - done.
  - rewrite sort_perm, list_elem_of_filter. unfold within_threshold.
    split; [by intros [? _]|]. intros Hle. split; [done|].
    unfold completed. apply list_elem_of_bind. exists c.
    rewrite Hscan. split; [by left|done].
  - apply sort_sorted.
  - apply sort_perm.
  - intros k. apply sort_stable.
Qed.

Lemma C2_unused_iff_sorted_witness :
  handle two_classes default_options
  = Ok (run_batch (analyze_path two_classes) 0 [used_candidate; unused_candidate])
  ∧ (run_batch (analyze_path two_classes) 0
       [used_candidate; unused_candidate]).1
    = [serializer_result unused_candidate no_usages]
  ∧ serializer_result unused_candidate no_usages
    ∈ (run_batch (analyze_path two_classes) 0
         [used_candidate; unused_candidate]).1.
Proof.
  split; [by vm_compute|]. split; [by vm_compute|].
  apply (C2_unused_iff_sorted (analyze_path two_classes) 0
           [used_candidate; unused_candidate] unused_candidate no_usages).
  - right. left.
  - by vm_compute.
  - by vm_compute.
Defined.

(** ** Worked examples *)

Example parse_three :
  _parse_serializer_path "app.views.UserSerializer"
  = Ok ("app", "views", "UserSerializer").
Proof. reflexivity. Qed.

Example parse_nested :
  _parse_serializer_path
    "procurementapi.rest.serializers.procure.ProcureModelSerializer"
  = Ok ("procurementapi", "procure", "ProcureModelSerializer").
Proof. reflexivity. Qed.

Example parse_short :
  _parse_serializer_path "a.b" = Raise ValueError
  ∧ _parse_serializer_path "a" = Raise ValueError.
Proof. split; reflexivity. Qed.

(** The matcher on the two quantifier styles, as [re.findall] answers. *)
Example findall_greedy :
  re_findall (star (Lit "a")) "baac"
  = [EmptyString; "aa"; EmptyString; EmptyString].
Proof. by vm_compute. Qed.

Example findall_lazy :
  re_findall (star_lazy (Lit "a")) "baac"
  = [EmptyString; EmptyString; "a"; EmptyString; "a"; EmptyString; EmptyString].
Proof. by vm_compute. Qed.

(** The multi-line pattern finds the return statement of the method, on
    line 6 of the module. *)
Example get_serializer_match :
  (λ m, f_group1 m) <$> re_finditer get_serializer_pattern views_module
  = [Some (164, "UserSerializer")]
  ∧ count_char newline (take_str 164 views_module) + 1 = 6.
Proof. by vm_compute. Qed.

(** A whole scan: the return statement on line 6 is found twice by the
    declarations pass and kept once, line 9 falls into three categories, and
    the definition on line 12 into none. *)
Example scan_views_module :
  analyze_path (single_file "views.py" "app/views.py" views_module)
    "app.views.UserSerializer"
  = Ok {| direct_imports :=
            [ImportItem "app/views.py"
               "from app.serializers import UserSerializer"];
          serializer_class_declarations :=
            [LineItem "app/views.py" 3 "serializer_class = UserSerializer";
             LineItem "app/views.py" 6 "return UserSerializer"];
          field_usages :=
            [LineItem "app/views.py" 8 "profile = UserSerializer(many=True)"];
          serializer_inheritance :=
            [LineItem "app/views.py" 9 "class Meta(UserSerializer.Meta):"];
          direct_instantiations :=
            [LineItem "app/views.py" 11 "print(UserSerializer(data))"];
          many_true_usages :=
            [LineItem "app/views.py" 8 "profile = UserSerializer(many=True)"];
          inner_class_usages :=
            [LineItem "app/views.py" 9 "class Meta(UserSerializer.Meta):"];
          meta_class_references :=
            [LineItem "app/views.py" 9 "class Meta(UserSerializer.Meta):"] |}.
Proof. by vm_compute. Qed.

(** The enumeration of that module and the batch verdict with the default
    threshold: PSerializer is unused, UserSerializer has nine usages. *)
Example batch_views_module :
  find_all_serializers (single_file "views.py" "app/views.py" views_module)
  = Ok [ {| c_name := "PSerializer"; c_path := "app.views.PSerializer";
            c_file := "app/views.py" |};
         {| c_name := "UserSerializer"; c_path := "app.views.UserSerializer";
            c_file := "app/views.py" |} ]
  ∧ match handle (single_file "views.py" "app/views.py" views_module)
            default_options with
    | Ok (unused, all_results) =>
        map (λ r, (r_name r, total_usages r)) unused = [("PSerializer", 0)]
        ∧ map (λ r, (r_name r, total_usages r)) all_results
          = [("PSerializer", 0); ("UserSerializer", 9)]
    | Raise _ => False
    end.
Proof. by vm_compute. Qed.

(** * Further properties of the scan *)

(** ** Deduplication, once more *)

Lemma unique_from_id seen items :
  NoDup (item_key <$> items) →
  (∀ it, it ∈ items → item_key it ∉ seen) →
  unique_from seen items = items.
Proof.
  revert seen. induction items as [|x items IH]; intros seen Hnd Hfresh;
    [done|].
  rewrite fmap_cons in Hnd. apply NoDup_cons in Hnd as [Hx Hnd].
  cbn [unique_from]. rewrite decide_False by (apply Hfresh; by left).
  f_equal. apply IH; [done|]. intros it Hit.
  rewrite not_elem_of_union, not_elem_of_singleton. split.
  - intros Heq. apply Hx. apply list_elem_of_fmap. exists it. by split.
  - apply Hfresh. by right.
Qed.

Lemma unique_results_idemp items :
  unique_results (unique_results items) = unique_results items.
Proof.
  apply unique_from_id; [apply unique_from_NoDup|]. intros it _.
  apply not_elem_of_empty.
Qed.

(** X1: deduplicating a result twice is the same as deduplicating it
    once. *)
Theorem X1_deduplicate_idempotent (r : Results) :
  _deduplicate_results (_deduplicate_results r) = _deduplicate_results r.
Proof.
  unfold _deduplicate_results. cbn. by rewrite !unique_results_idemp.
Qed.

(** ** The instantiation pass and its seen-set *)

Section Instantiations.

Context (fs : FileSystem) (self : Analyzer).

Lemma line_entry_key_inj it1 it2 :
  line_entry fs it1 → line_entry fs it2 → item_key it1 = item_key it2 →
  it1 = it2.
Proof.
  intros (p1 & c1 & i1 & l1 & _ & Hc1 & Hi1 & ->)
         (p2 & c2 & i2 & l2 & _ & Hc2 & Hi2 & ->) [= -> ->].
  rewrite Hc1 in Hc2. injection Hc2 as <-.
  rewrite Hi1 in Hi2. by injection Hi2 as <-.
Qed.

Lemma instantiations_inv :
  ∃ st, for_files_st (python_files fs (project_dirs fs))
          (λ file_path st,
             content ← read_text fs file_path;
             Ok (instantiation_file self file_path content st))
          (∅, []) = Ok st
        ∧ inst_inv fs st.
Proof.
  rewrite (for_files_st_read fs (instantiation_file self)). eexists.
  split; [done|].
  apply (foldl_invariant _ (inst_inv fs)).
  { split_and!; [constructor|intros it ?%elem_of_nil; done..]. }
  intros st p Hp Hst. destruct (file_text fs p) as [content|] eqn:Hc; [|done].
  unfold instantiation_file. apply (foldl_invariant _ (inst_inv fs)); [done|].
  clear st Hst. intros st [n line] Hn Hst.
  apply elem_of_numbered_lines in Hn as (i & -> & Hi).
  apply (foldl_invariant _ (inst_inv fs)); [done|].
  clear st Hst. intros [seen acc] pattern _ (Hnd & Hseen & Hline).
  unfold instantiation_step. cbn [fst snd] in *.
  destruct (_ && _); [|done].
  destruct (decide _) as [Hin|Hout]; [done|]. cbn [fst snd].
  split_and!.
  - apply NoDup_app. split_and!; [done| |apply NoDup_singleton].
    intros it Hit ->%list_elem_of_singleton. apply Hout.
    by apply Hseen in Hit.
  - intros it [Hit| ->%list_elem_of_singleton]%elem_of_app.
    + apply elem_of_union_r. by apply Hseen.
    + apply elem_of_union_l. by apply elem_of_singleton.
  - intros it [Hit| ->%list_elem_of_singleton]%elem_of_app; [by apply Hline|].
    by exists p, content, i, line.
Qed.

End Instantiations.

(** X4: the direct-instantiation pass never records the same entry twice,
    not even when two patterns match a line or a file is walked twice: its
    seen-set keeps the entries, and their (file, line) keys, pairwise
    distinct, so the final deduplication leaves the category as the pass
    filled it. *)
Theorem X4_instantiations_already_unique (fs : FileSystem) (self : Analyzer) :
  plain_names self = true →
  ∃ recorded, _scan_for_direct_instantiations fs self = Ok recorded
    ∧ NoDup recorded
    ∧ NoDup (item_key <$> recorded)
    ∧ unique_results recorded = recorded
    ∧ ∃ res, analyze fs self = Ok res ∧ direct_instantiations res = recorded.
Proof.
  intros _. destruct (instantiations_inv fs self) as ([seen acc] & Hrun & Hnd & _ & Hline).
  cbn [snd] in *.
  assert (_scan_for_direct_instantiations fs self = Ok acc) as Hpass.
  { unfold _scan_for_direct_instantiations. by rewrite Hrun. }
  assert (NoDup (item_key <$> acc)) as Hkeys.
  { apply NoDup_fmap_2_strong; [|done]. intros x y Hx Hy.
    apply (line_entry_key_inj fs); auto. }
  assert (unique_results acc = acc) as Hsame.
  { apply unique_from_id; [done|]. intros it _. apply not_elem_of_empty. }
  exists acc. split_and!; try done.
  eexists. split; [apply analyze_scanned|].
  cbn [_deduplicate_results scanned direct_instantiations].
  by rewrite Hpass.
Qed.

Lemma X4_instantiations_already_unique_witness :
  ∃ recorded,
    _scan_for_direct_instantiations
      (single_file "views.py" "app/views.py" views_module) user_serializer
    = Ok recorded
    ∧ NoDup recorded
    ∧ NoDup (item_key <$> recorded)
    ∧ unique_results recorded = recorded
    ∧ ∃ res,
        analyze (single_file "views.py" "app/views.py" views_module)
          user_serializer = Ok res
        ∧ direct_instantiations res = recorded.
Proof.
  apply (X4_instantiations_already_unique
           (single_file "views.py" "app/views.py" views_module)
           user_serializer).
  reflexivity.
Defined.

(** ** Categories that exclude each other *)

Lemma lang_seqs_app rs1 rs2 w :
  lang (seqs (rs1 ++ rs2)) w
  ↔ ∃ w1 w2, w = w1 +:+ w2 ∧ lang (seqs rs1) w1 ∧ lang (seqs rs2) w2.
Proof.
  revert w. induction rs1 as [|r rs1 IH]; intros w.
  - split.
    + intros Hw. by exists EmptyString, w.
    + by intros (w1 & w2 & -> & -> & Hw).
  - change (seqs ((r :: rs1) ++ rs2)) with (Seq r (seqs (rs1 ++ rs2))).
    change (seqs (r :: rs1)) with (Seq r (seqs rs1)). cbn [lang]. split.
    + intros (wa & wb & -> & Ha & (w1 & w2 & -> & H1 & H2)%IH).
      exists (wa +:+ w1), w2. rewrite app_assoc_str. split_and!; [done| |done].
      by exists wa, w1.
    + intros (wa & w2 & -> & (w0 & w1 & -> & H0 & H1) & H2).
      exists w0, (w1 +:+ w2). rewrite app_assoc_str. split_and!; [done..|].
      apply IH. by exists w1, w2.
Qed.

(** A pattern with a literal among its parts only matches text that holds
    the literal. *)
Lemma search_contains_literal rs1 t rs2 line :
  re_search (seqs (rs1 ++ Lit t :: rs2)) line = true → contains t line = true.
Proof.
  rewrite re_search_true. intros (pre & w & post & -> & HL).
  apply lang_seqs_app in HL as (w1 & w2 & -> & _ & HL).
  apply lang_seqs_cons in HL as (wt & w3 & -> & ->%lang_Lit & _).
  apply contains_true. exists (pre +:+ w1), (w3 +:+ post).
  by rewrite !app_assoc_str.
Qed.

Lemma contains_trans a b s :
  contains a b = true → contains b s = true → contains a s = true.
Proof.
  rewrite !contains_true. intros (p1 & q1 & ->) (p2 & q2 & ->).
  exists (p2 +:+ p1), (q1 +:+ q2). by rewrite !app_assoc_str.
Qed.

Lemma field_match_has_equals self pattern line :
  pattern ∈ field_patterns self → re_search pattern line = true →
  contains "=" line = true.
Proof.
  unfold field_patterns. intros Hp Hm.
  repeat (apply elem_of_cons in Hp as [->|Hp]);
    [..|by apply elem_of_nil in Hp];
    by apply (search_contains_literal [word; spaces0] "=") in Hm.
Qed.

Lemma many_true_match_has_equals self pattern line :
  pattern ∈ many_true_patterns self → re_search pattern line = true →
  contains "=" line = true.
Proof.
  unfold many_true_patterns. intros Hp Hm.
  apply (contains_trans _ "many=True"); [done|].
  repeat (apply elem_of_cons in Hp as [->|Hp]);
    [..|by apply elem_of_nil in Hp].
  - by apply (search_contains_literal
                [Lit (serializer_name self); Lit "("; any] "many=True" []) in Hm.
  - by apply (search_contains_literal
                [Lit (serializer_name self); Lit "."; word; Lit "("; any]
                "many=True" []) in Hm.
Qed.

Lemma inheritance_match_has_class self line :
  re_search (inheritance_pattern self) line = true →
  contains "class" line = true.
Proof. apply (search_contains_literal [] "class"). Qed.

(** X3: a (file, line) recorded in direct_instantiations is recorded in none
    of field_usages, serializer_inheritance and many_true_usages: the patterns
    of those three need an equals sign or the word class on the line, which the
    instantiation pass refuses. *)
Theorem X3_instantiations_disjoint (fs : FileSystem) (self : Analyzer) :
  plain_names self = true →
  ∃ res, analyze fs self = Ok res
    ∧ ∀ it other,
        it ∈ direct_instantiations res →
        other ∈ field_usages res ++ serializer_inheritance res
                ++ many_true_usages res →
        item_key other ≠ item_key it.
Proof.
  intros _. eexists. split; [apply analyze_scanned|].
  cbn [_deduplicate_results scanned direct_instantiations field_usages
       serializer_inheritance many_true_usages].
  unfold _scan_for_field_usages, _scan_for_serializer_inheritance,
    _scan_for_many_true_usages.
  rewrite !scan_lines_found. cbn [ok_or].
  intros it other Hit Hother Hkey.
  pose proof (elem_of_sublist _ _ _ Hit (unique_from_sublist ∅ _)) as Hraw.
  apply instantiations_guarded in Hraw
    as (p & c & i & line & _ & _ & Hc & Hi & -> & _ & _ & Hclass & Heq).
  assert (∃ l, split newline c !! i = Some l
               ∧ (contains "=" l = true ∨ contains "class" l = true))
    as (l & Hl & Hhas).
  { rewrite !elem_of_app in Hother.
    destruct Hother as [Ho|[Ho|Ho]];
      pose proof (elem_of_sublist _ _ _ Ho (unique_from_sublist ∅ _)) as Ho';
      apply elem_of_found_lines in Ho'
        as (q & c' & j & l & _ & Hc' & Hj & Hper).
    - apply elem_of_per_pattern in Hper as (-> & pat & Hpat & Hm).
      injection Hkey as -> ->. rewrite Hc in Hc'. injection Hc' as <-.
      exists l. split; [done|]. left. by eapply field_match_has_equals.
    - destruct (re_search (inheritance_pattern self) l) eqn:Hm;
        [|by apply elem_of_nil in Hper].
      apply list_elem_of_singleton in Hper as ->.
      injection Hkey as -> ->. rewrite Hc in Hc'. injection Hc' as <-.
      exists l. split; [done|]. right. by eapply inheritance_match_has_class.
    - apply elem_of_per_pattern in Hper as (-> & pat & Hpat & Hm).
      injection Hkey as -> ->. rewrite Hc in Hc'. injection Hc' as <-.
      exists l. split; [done|]. left. by eapply many_true_match_has_equals. }
  rewrite Hi in Hl. injection Hl as <-. destruct Hhas; congruence.
Qed.

Lemma X3_instantiations_disjoint_witness :
  ∃ res,
    analyze (single_file "views.py" "app/views.py" views_module)
      user_serializer = Ok res
    ∧ ∀ it other,
        it ∈ direct_instantiations res →
        other ∈ field_usages res ++ serializer_inheritance res
                ++ many_true_usages res →
        item_key other ≠ item_key it.
Proof.
  apply (X3_instantiations_disjoint
           (single_file "views.py" "app/views.py" views_module)
           user_serializer).
  reflexivity.
Defined.

(** ** Where the entries point *)

Lemma count_char_take c n s : count_char c (take_str n s) ≤ count_char c s.
Proof.
  unfold take_str. revert n. induction s as [|a s IH]; intros [|n]; simpl; try lia.
  specialize (IH n). lia.
Qed.

Lemma found_lines_well_placed fs per_line :
  (∀ q n l it, it ∈ per_line q n l → ∃ c, it = LineItem q n c) →
  ∀ it, it ∈ found_lines fs per_line → well_placed fs it ∧ is_line_item it.
Proof.
  intros Hshape it (p & content & i & line & Hp & Hc & Hi & Hit)%elem_of_found_lines.
  apply Hshape in Hit as [c ->]. split; [|done]. split; [done|].
  exists content. split; [done|]. apply lookup_lt_Some in Hi. simpl. lia.
Qed.

Lemma per_pattern_shape (patterns : list regex) (render : string → string)
    q n l it :
  it ∈ (pattern ← patterns;
        if re_search pattern l then [LineItem q n (render l)] else []) →
  ∃ c, it = LineItem q n c.
Proof.
  intros (pattern & Hit & _)%list_elem_of_bind.
  destruct (re_search pattern l); [|by apply elem_of_nil in Hit].
  apply list_elem_of_singleton in Hit. eauto.
Qed.

Lemma if_shape (b : bool) q n c it :
  it ∈ (if b then [LineItem q n c] else []) → ∃ c, it = LineItem q n c.
Proof.
  destruct b; [|by intros ?%elem_of_nil].
  intros ->%list_elem_of_singleton. eauto.
Qed.

Lemma parent_usages_found fs self parents :
  parent_usages fs self parents
  = Ok (parent ← parents;
        found_lines fs (λ rel_path line_num line,
          if re_search (seqs [Lit parent; Lit "."; Lit (serializer_name self)])
               line
          then [LineItem rel_path line_num
                  ("Used through parent: " +:+ strip line)]
          else [])).
Proof.
  induction parents as [|parent parents IH]; [done|].
  cbn [parent_usages]. by rewrite scan_lines_found, IH.
Qed.

Section Placement.

Context (fs : FileSystem) (self : Analyzer).

Lemma declarations_well_placed it :
  it ∈ ok_or [] (_scan_for_serializer_class_declarations fs self) →
  well_placed fs it ∧ is_line_item it.
Proof.
  unfold _scan_for_serializer_class_declarations. rewrite for_files_read.
  cbn [ok_or]. intros (p & content & Hp & Hc & Hit)%elem_of_visible.
  apply elem_of_app in Hit as [Hit|Hit].
  - apply list_elem_of_bind in Hit as ([n line] & Hit & Hn).
    apply elem_of_numbered_lines in Hn as (i & -> & Hi).
    apply per_pattern_shape in Hit as [c ->]. split; [|done].
    split; [done|]. exists content. split; [done|].
    apply lookup_lt_Some in Hi. simpl. lia.
  - apply list_elem_of_bind in Hit as (m & Hit & _).
    destruct (f_group1 m) as [[start_pos method_body]|];
      [|by apply elem_of_nil in Hit].
    destruct (contains _ _); [|by apply elem_of_nil in Hit].
    apply list_elem_of_singleton in Hit as ->. split; [|done].
    split; [done|]. exists content. split; [done|].
    pose proof (count_char_take newline start_pos content).
    rewrite length_split. simpl. lia.
Qed.

Lemma parent_usages_well_placed it :
  it ∈ ok_or [] (_scan_for_parent_serializer_usages fs self) →
  well_placed fs it ∧ is_line_item it.
Proof.
  unfold _scan_for_parent_serializer_usages.
  destruct (parents_ok fs self) as [parents ->]. cbn [mbind outcome_bind].
  rewrite parent_usages_found. cbn [ok_or].
  intros (parent & Hit & _)%list_elem_of_bind. revert it Hit.
  apply found_lines_well_placed. intros q n l it. apply if_shape.
Qed.

Lemma imports_well_placed it :
  it ∈ ok_or [] (_scan_for_direct_imports fs self) →
  well_placed fs it ∧ ¬ is_line_item it.
Proof.
  unfold _scan_for_direct_imports. rewrite for_files_read. cbn [ok_or].
  intros (p & content & Hp & Hc & Hit)%elem_of_visible.
  apply list_elem_of_bind in Hit as (pattern & Hit & _).
  destruct (re_findall pattern content) as [|m ms];
    [by apply elem_of_nil in Hit|].
  apply list_elem_of_singleton in Hit as ->. split; [|by intros []].
  split; [done|]. by exists content.
Qed.

Lemma instantiations_well_placed it :
  it ∈ ok_or [] (_scan_for_direct_instantiations fs self) →
  well_placed fs it ∧ is_line_item it.
Proof.
  intros (p & content & i & line & pattern & Hp & Hc & Hi & -> & _)%instantiations_guarded.
  split; [|done]. split; [done|]. exists content. split; [done|].
  apply lookup_lt_Some in Hi. simpl. lia.
Qed.

End Placement.

Lemma scanned_well_placed (fs : FileSystem) (self : Analyzer) :
  let res := _deduplicate_results (scanned fs self) in
  Forall (λ category, Forall (well_placed fs) (category res)) categories
  ∧ Forall (λ it, ¬ is_line_item it) (direct_imports res)
  ∧ Forall (λ category, Forall is_line_item (category res)) (tail categories).
Proof.
  cbv zeta.
  assert (∀ l (P : item → Prop), (∀ it, it ∈ l → P it) →
            Forall P (unique_results l)) as Huniq.
  { intros l P HP. apply Forall_forall. intros it Hit. apply HP.
    eapply elem_of_sublist; [done|apply unique_from_sublist]. }
  assert (∀ it, it ∈ ok_or [] (_scan_for_serializer_class_declarations fs self)
                     ++ ok_or [] (_scan_for_parent_serializer_usages fs self) →
                well_placed fs it ∧ is_line_item it) as Hdecl.
  { intros it [?|?]%elem_of_app;
      [by apply (declarations_well_placed fs self)
      |by apply (parent_usages_well_placed fs self)]. }
  assert (∀ per_line,
            (∀ q n l it, it ∈ per_line q n l → ∃ c, it = LineItem q n c) →
            ∀ it, it ∈ ok_or [] (scan_lines fs per_line) →
                  well_placed fs it ∧ is_line_item it) as Hscan.
  { intros per_line Hshape it. rewrite scan_lines_found.
    by apply found_lines_well_placed. }
  assert (Forall (λ category, Forall (λ it, well_placed fs it ∧ is_line_item it)
                                (category (_deduplicate_results (scanned fs self))))
            (tail categories)) as Htail.
  { cbn [tail categories _deduplicate_results scanned
         serializer_class_declarations field_usages serializer_inheritance
         direct_instantiations many_true_usages inner_class_usages
         meta_class_references].
    repeat constructor; apply Huniq; try done.
    - apply Hscan. intros q n l it. apply per_pattern_shape.
    - apply Hscan. intros q n l it. apply if_shape.
    - apply (instantiations_well_placed fs self).
    - apply Hscan. intros q n l it. apply per_pattern_shape.
    - apply Hscan. intros q n l it. apply if_shape.
    - apply Hscan. intros q n l it. apply if_shape. }
  assert (Forall (λ it, well_placed fs it ∧ ¬ is_line_item it)
            (direct_imports (_deduplicate_results (scanned fs self)))) as Himp.
  { cbn [_deduplicate_results scanned direct_imports]. apply Huniq.
    apply (imports_well_placed fs self). }
  assert (Forall (λ category, Forall (well_placed fs)
                    (category (_deduplicate_results (scanned fs self))))
            categories) as Hall.
  { unfold categories. constructor.
    - eapply Forall_impl; [exact Himp|]. by intros it [? _].
    - eapply Forall_impl; [exact Htail|]. intros category Hc. simpl in Hc.
      eapply Forall_impl; [exact Hc|]. by intros it [? _]. }
  split_and!.
  - done.
  - eapply Forall_impl; [exact Himp|]. by intros it [_ ?].
  - eapply Forall_impl; [exact Htail|]. intros category Hc. simpl in Hc.
    eapply Forall_impl; [exact Hc|]. by intros it [_ ?].
Qed.

(** X2: every entry of every category names a readable .py file of the walk;
    import entries carry no line, and every other entry carries a line number
    between 1 and the number of lines of its file, the entries of the
    multi-line method pattern and of the parent fallback included. *)
Theorem X2_entries_well_placed (fs : FileSystem) (self : Analyzer) :
  plain_names self = true →
  ∃ res, analyze fs self = Ok res
    ∧ Forall (λ category, Forall (well_placed fs) (category res)) categories
    ∧ Forall (λ it, ¬ is_line_item it) (direct_imports res)
    ∧ Forall (λ category, Forall is_line_item (category res))
        (tail categories).
Proof.
  intros _. exists (_deduplicate_results (scanned fs self)).
  split; [apply analyze_scanned|apply scanned_well_placed].
Qed.

Lemma X2_entries_well_placed_witness :
  ∃ res,
    analyze (single_file "views.py" "app/views.py" views_module)
      user_serializer = Ok res
    ∧ Forall (λ category,
                Forall (well_placed
                          (single_file "views.py" "app/views.py" views_module))
                  (category res)) categories
    ∧ Forall (λ it, ¬ is_line_item it) (direct_imports res)
    ∧ Forall (λ category, Forall is_line_item (category res))
        (tail categories).
Proof.
  apply (X2_entries_well_placed
           (single_file "views.py" "app/views.py" views_module)
           user_serializer).
  reflexivity.
Defined.

(** ** A tree with nothing to read *)

Lemma visible_nothing {B} fs (g : string → string → list B) files :
  (∀ p, p ∈ files → ∃ e, file_text fs p = inr e) →
  files ≫= visible fs g = [].
Proof.
  induction files as [|p files IH]; intros Hall; [done|].
  rewrite bind_cons, IH by (intros q ?; apply Hall; by right).
  destruct (Hall p) as [e He]; [by left|].
  unfold visible. by rewrite He.
Qed.

Lemma foldl_nothing {S} fs (g : string → string → S → S) files s :
  (∀ p, p ∈ files → ∃ e, file_text fs p = inr e) →
  foldl (λ s p, match file_text fs p with
                | inl content => g p content s
                | inr _ => s
                end) s files = s.
Proof.
  induction files as [|p files IH]; intros Hall; [done|].
  simpl. destruct (Hall p) as [e ->]; [by left|].
  apply IH. intros q ?. apply Hall. by right.
Qed.

(** X5: when the walk yields no Python file that can be read (no file at
    all, or only unreadable ones), the scan still returns, with all eight
    categories empty, so the class counts zero usages. *)
Theorem X5_nothing_readable (fs : FileSystem) (self : Analyzer) :
  plain_names self = true →
  (∀ p, p ∈ python_files fs (project_dirs fs) → ∃ e, file_text fs p = inr e) →
  analyze fs self = Ok no_usages ∧ sum_usages no_usages = 0.
Proof.
  intros _ Hall. split; [|done]. rewrite analyze_scanned. f_equal.
  assert (∀ per_line, found_lines fs per_line = []) as Hlines.
  { intros per_line. by apply visible_nothing. }
  unfold scanned.
  unfold _scan_for_direct_imports, _scan_for_serializer_class_declarations.
  rewrite !for_files_read, !visible_nothing by done.
  unfold _scan_for_field_usages, _scan_for_serializer_inheritance,
    _scan_for_many_true_usages, _scan_for_inner_class_usages,
    _scan_for_meta_class_references.
  rewrite !scan_lines_found, !Hlines.
  unfold _scan_for_direct_instantiations.
  rewrite (for_files_st_read fs (instantiation_file self)), foldl_nothing by done.
  unfold _scan_for_parent_serializer_usages, _find_potential_parent_serializers.
  rewrite for_files_read, visible_nothing by done.
  reflexivity.
Qed.

Lemma X5_nothing_readable_witness :
  analyze (without_file "app/views.py" two_files) user_serializer = Ok no_usages
  ∧ sum_usages no_usages = 0.
Proof.
  apply (X5_nothing_readable (without_file "app/views.py" two_files)
           user_serializer).
  - reflexivity.
  - intros p Hp. change (p ∈ ["app/legacy.py"]) in Hp.
    apply list_elem_of_singleton in Hp as ->. by exists Undecodable.
Defined.

(** * Further properties of the batch command *)

Section BatchMore.

Context (scan : string → outcome Results).

Lemma run_batch_all threshold serializers :
  (run_batch scan threshold serializers).2 = completed scan serializers.
Proof. unfold run_batch. by rewrite batch_loop. Qed.

Lemma elem_of_completed r serializers :
  r ∈ completed scan serializers
  ↔ ∃ c, c ∈ serializers ∧ scan (c_path c) = Ok (details r)
         ∧ r = serializer_result c (details r).
Proof.
  unfold completed. rewrite list_elem_of_bind. split.
  - intros (c & Hr & Hc). destruct (scan (c_path c)) as [results|] eqn:E;
      [|by apply elem_of_nil in Hr].
    apply list_elem_of_singleton in Hr as ->. by exists c.
  - intros (c & Hc & E & Hr). exists c. rewrite E. split; [|done].
    apply list_elem_of_singleton. done.
Qed.

Lemma length_completed serializers :
  length (completed scan serializers) ≤ length serializers.
Proof.
  unfold completed. induction serializers as [|c l IH]; [done|].
  rewrite bind_cons, length_app. destruct (scan (c_path c)); simpl; lia.
Qed.

Lemma length_completed_all serializers :
  (∀ c, c ∈ serializers → ∃ results, scan (c_path c) = Ok results) →
  length (completed scan serializers) = length serializers.
Proof.
  unfold completed. induction serializers as [|c l IH]; intros Hall; [done|].
  rewrite bind_cons, length_app, IH by (intros c' ?; apply Hall; by right).
  destruct (Hall c) as [results ->]; [by left|]. done.
Qed.

(** X6: the batch loop drops a candidate whose scan raises from both lists
    and goes on; all_results holds, in candidate order, one entry per
    candidate whose scan returned, each with the sum of its eight categories,
    and the unused list is drawn from all_results. *)
Theorem X6_batch_results (threshold : Z) (serializers : list Candidate) :
  let report := run_batch scan threshold serializers in
  report.2
  = (c ← serializers;
     match scan (c_path c) with
     | Ok results => [serializer_result c results]
     | Raise _ => []
     end)
  ∧ (∀ r, r ∈ report.2 ↔
          ∃ c, c ∈ serializers ∧ scan (c_path c) = Ok (details r)
               ∧ r = serializer_result c (details r))
  ∧ (∀ r, r ∈ report.1 ↔
          r ∈ report.2 ∧ (Z.of_nat (sum_usages (details r)) ≤ threshold)%Z)
  ∧ length report.1 ≤ length report.2 ≤ length serializers
  ∧ ((∀ c, c ∈ serializers → ∃ results, scan (c_path c) = Ok results) →
     length report.2 = length serializers).
Proof.
  intros report. unfold report. rewrite run_batch_all, run_batch_unused.
  split_and!.
  - done.
  - intros r. apply elem_of_completed.
  - intros r. rewrite sort_perm, list_elem_of_filter. unfold within_threshold.
    split.
    + intros [Hle Hr]. split; [done|].
      apply elem_of_completed in Hr as (c & _ & _ & Heq).
      by rewrite Heq in Hle.
    + intros [Hr Hle]. split; [|done].
      apply elem_of_completed in Hr as (c & _ & _ & Heq).
      by rewrite Heq.
  - rewrite (Permutation_length (sort_perm _)). apply length_filter.
  - apply length_completed.
  - apply length_completed_all.
Qed.

Lemma insert_sorted_filter (P : SerializerResult → Prop)
    `{∀ r, Decision (P r)} x l :
  StronglySorted by_total_usages l →
  filter P (insert_sorted x l)
  = if decide (P x) then insert_sorted x (filter P l) else filter P l.
Proof.
  induction 1 as [|y l Hl IH Hy]; simpl.
  - rewrite filter_cons. by destruct (decide (P x)).
  - destruct (total_usages x <=? total_usages y) eqn:E.
    + apply Nat.leb_le in E. rewrite !filter_cons.
      destruct (decide (P x)) as [Hx|Hx]; [|done].
      destruct (decide (P y)) as [Hy'|Hy'].
      * simpl. apply Nat.leb_le in E. by rewrite E.
      * assert (Forall (λ z, total_usages x ≤ total_usages z) (filter P l))
          as Hge.
        { apply Forall_forall. intros z [_ Hz]%list_elem_of_filter.
          rewrite Forall_forall in Hy. specialize (Hy z Hz).
          unfold by_total_usages in Hy. lia. }
        destruct (filter P l) as [|z l'] eqn:Hf; [done|]. simpl.
        apply Forall_cons in Hge as [Hz _]. apply Nat.leb_le in Hz.
        by rewrite Hz.
    + rewrite filter_cons, IH, filter_cons.
      destruct (decide (P x)), (decide (P y)); simpl; try done.
      by rewrite E.
Qed.

Lemma sort_filter (P : SerializerResult → Prop) `{∀ r, Decision (P r)} l :
  filter P (sort_by_total_usages l) = sort_by_total_usages (filter P l).
Proof.
  induction l as [|x l IH]; [done|]. simpl.
  rewrite insert_sorted_filter by apply sort_sorted.
  rewrite filter_cons, IH. by destruct (decide (P x)).
Qed.

Lemma filter_sorted_prefix threshold l :
  StronglySorted by_total_usages l →
  filter (within_threshold threshold) l `prefix_of` l.
Proof.
  induction 1 as [|y l Hl IH Hy]; [done|].
  rewrite filter_cons. destruct (decide _) as [Hin|Hout].
  - by apply prefix_cons.
  - assert (filter (within_threshold threshold) l = []) as ->;
      [|apply prefix_nil].
    clear IH Hl. induction Hy as [|z l Hz Hy IHy]; [done|].
    rewrite filter_cons, decide_False; [done|].
    unfold within_threshold, by_total_usages in *. lia.
Qed.

(** X7: the threshold is an inclusive upper bound: below zero nothing is
    unused, and a lower threshold keeps a front part of the list a higher
    one gives; the list of all results does not depend on it. *)
Theorem X7_threshold_monotone (t1 t2 : Z) (serializers : list Candidate) :
  (t1 ≤ t2)%Z →
  (run_batch scan t1 serializers).1 `prefix_of` (run_batch scan t2 serializers).1
  ∧ (run_batch scan t1 serializers).2 = (run_batch scan t2 serializers).2
  ∧ ((t1 < 0)%Z → (run_batch scan t1 serializers).1 = []).
Proof.
  intros Hle. rewrite !run_batch_all, !run_batch_unused. split_and!.
  - assert (filter (within_threshold t1) (completed scan serializers)
            = filter (within_threshold t1)
                (filter (within_threshold t2) (completed scan serializers)))
      as ->.
    { rewrite list_filter_filter. apply list_filter_iff.
      unfold within_threshold. intros r. lia. }
    rewrite <-sort_filter. apply filter_sorted_prefix, sort_sorted.
  - done.
  - intros Hneg.
    assert (filter (within_threshold t1) (completed scan serializers) = [])
      as ->; [|done].
    induction (completed scan serializers) as [|r l IH]; [done|].
    rewrite filter_cons, decide_False; [done|].
    unfold within_threshold. lia.
Qed.

End BatchMore.

Lemma X7_threshold_monotone_witness :
  (run_batch (analyze_path two_classes) 0 [used_candidate; unused_candidate]).1
  `prefix_of`
  (run_batch (analyze_path two_classes) 5 [used_candidate; unused_candidate]).1.
Proof.
  apply (X7_threshold_monotone (analyze_path two_classes) 0 5
           [used_candidate; unused_candidate]).
  lia.
Defined.

(** * What a match captures *)

Lemma span_refl st : span EmptyString st st.
Proof. split; [done|simpl; lia]. Qed.

Lemma span_trans w1 w2 st st1 st2 :
  span w1 st st1 → span w2 st1 st2 → span (w1 +:+ w2) st st2.
Proof.
  intros [H1 P1] [H2 P2]. split.
  - by rewrite H1, H2, app_assoc_str.
  - rewrite length_app_str. lia.
Qed.

Lemma captured_trans (G : string → Prop) st st1 st2 :
  captured G st st1 → captured G st1 st2 → captured G st st2.
Proof.
  intros H1 [H2|H2]; [|by right]. destruct H1 as [H1|H1].
  - left. congruence.
  - right. by rewrite H2.
Qed.

Lemma captured_impl (G G' : string → Prop) st st' :
  (∀ t, G t → G' t) → captured G st st' → captured G' st st'.
Proof. intros HG [?|(q & t & ? & ?)]; [by left|right; eauto]. Qed.

Lemma take_str_app w s : take_str (String.length w) (w +:+ s) = w.
Proof.
  unfold take_str. induction w as [|c w IH]; [by destruct s|].
  rewrite str_app_cons. simpl. by rewrite IH.
Qed.

Section Captures.

Context {A : Type}.

Section LoopCaptures.

Variables (body : mstate → (mstate → option A) → option A).
Variables (L G : string → Prop) (lo : nat) (hi : option nat) (greedy : bool).

Hypothesis body_captures : ∀ st (k : mstate → option A) a,
  body st k = Some a →
  ∃ w st', span w st st' ∧ L w ∧ captured G st st' ∧ k st' = Some a.

Lemma rep_loop_captures (k : mstate → option A) fuel : ∀ n st a,
  rep_loop body lo hi greedy k fuel n st = Some a →
  ∃ ws st', span (concat_str ws) st st'
            ∧ Forall (λ x, L x ∧ x ≠ EmptyString) ws
            ∧ lo ≤ n + length ws
            ∧ (upto hi n → upto hi (n + length ws))
            ∧ captured G st st'
            ∧ k st' = Some a.
Proof.
  induction fuel as [|fuel IH]; intros n st a Hrun;
    apply rep_loop_cases in Hrun as [Hstop|Hmore]; unfold rep_stop in *;
    try done.
  - destruct (lo <=? n) eqn:E; [|done]. apply Nat.leb_le in E.
    exists [], st. rewrite Nat.add_0_r.
    split_and!; [apply span_refl|done..|by left|done].
  - destruct (lo <=? n) eqn:E; [|done]. apply Nat.leb_le in E.
    exists [], st. rewrite Nat.add_0_r.
    split_and!; [apply span_refl|done..|by left|done].
  - simpl in Hmore. destruct (below hi n) eqn:Hbelow; [|done].
    apply body_captures in Hmore as (w & st1 & Hw & HL & Hcap & Hk).
    destruct (String.length (rest st1) <? String.length (rest st)) eqn:Hlt;
      [|done].
    apply Nat.ltb_lt in Hlt.
    apply IH in Hk as (ws & st' & Hws & Hall & Hlo & Hhi & Hcap' & Hk).
    exists (w :: ws), st'. split_and!.
    + by apply span_trans with st1.
    + constructor; [|done]. split; [done|].
      destruct Hw as [Hw _]. by eapply length_lt_nonempty.
    + simpl. lia.
    + intros _. simpl.
      replace (n + S (length ws)) with (S n + length ws) by lia.
      apply Hhi. destruct hi as [h|]; simpl in *; [|done].
      apply Nat.ltb_lt in Hbelow. lia.
    + by apply captured_trans with st1.
    + done.
Qed.

End LoopCaptures.

Lemma rmatch_captures r : ∀ st (k : mstate → option A) a,
  rmatch r st k = Some a →
  ∃ w st', span w st st' ∧ lang r w ∧ captured (grp_lang r) st st'
           ∧ k st' = Some a.
Proof.
  induction r as [|c|r1 IH1 r2 IH2|r1 IH1 r2 IH2|r1 IH1 lo hi g|r1 IH1];
    intros st k a Hrun; simpl in Hrun.
  - exists EmptyString, st. split_and!; [apply span_refl|done|by left|done].
  - destruct (rest st) as [|x s] eqn:E; [done|].
    destruct (cls_match c x) eqn:Hc; [|done].
    exists (String x EmptyString), (MState (S (pos st)) s (grp1 st)).
    split_and!; [|by exists x|by left|done].
    split; [done|simpl; lia].
  - apply IH1 in Hrun as (w1 & st1 & H1 & HL1 & Hc1 & Hrun).
    apply IH2 in Hrun as (w2 & st2 & H2 & HL2 & Hc2 & Hk).
    exists (w1 +:+ w2), st2. split_and!.
    + by apply span_trans with st1.
    + by exists w1, w2.
    + apply captured_trans with st1.
      * eapply captured_impl; [|done]. simpl. auto.
      * eapply captured_impl; [|done]. simpl. auto.
    + done.
  - apply or_else_Some in Hrun as [Hrun|[_ Hrun]].
    + apply IH1 in Hrun as (w & st' & ? & ? & Hc & ?). exists w, st'.
      split_and!; [done|by left| |done].
      eapply captured_impl; [|done]. simpl. auto.
    + apply IH2 in Hrun as (w & st' & ? & ? & Hc & ?). exists w, st'.
      split_and!; [done|by right| |done].
      eapply captured_impl; [|done]. simpl. auto.
  - eapply rep_loop_captures in Hrun
      as (ws & st' & Hws & Hall & Hlo & Hhi & Hcap & Hk); [|exact IH1].
    exists (concat_str ws), st'. split_and!; [done| |done|done].
    exists ws. split_and!; [done|lia| |done].
    apply Hhi. destruct hi; simpl; [lia|done].
  - apply IH1 in Hrun as (w & st' & [Hw Hp] & HL & Hcap & Hk).
    eexists w, (MState _ (rest st') _). split_and!; [done|done| |exact Hk].
    right. simpl. do 2 eexists. split; [done|]. left.
    replace (pos st' - pos st) with (String.length w) by lia.
    by rewrite Hw, take_str_app.
Qed.

End Captures.

Lemma search_from_match r : ∀ s p must_advance m,
  search_from r p s must_advance = Some m → match_of r m ∧ p ≤ f_start m.
Proof.
  induction s as [|c s IH]; intros p ma m; simpl; unfold match_at;
    destruct (rmatch _ _ _) as [st|] eqn:E; try done.
  1,2: intros [= <-];
    apply rmatch_captures in E as (w & st' & [Hw Hp] & HL & Hcap & Hk);
    destruct (ma && _); [done|]; injection Hk as ->; simpl in *;
    (split; [|lia]); unfold match_of; simpl;
    replace (pos st - p) with (String.length w) by lia;
    rewrite Hw, take_str_app; (split_and!; [done|lia|]);
    destruct Hcap as [->|(q & t & -> & Ht)]; done.
  intros Hm. apply IH in Hm as [? ?]. split; [done|lia].
Qed.

Lemma finditer_from_match r fuel : ∀ p s must_advance m,
  m ∈ finditer_from fuel r p s must_advance → match_of r m.
Proof.
  induction fuel as [|fuel IH]; intros p s ma m; simpl;
    [by intros ?%elem_of_nil|].
  destruct (search_from r p s ma) as [m0|] eqn:E; [|by intros ?%elem_of_nil].
  intros [->|Hm]%elem_of_cons.
  - by apply search_from_match in E as [? _].
  - by apply IH in Hm.
Qed.

Lemma re_finditer_match r s m : m ∈ re_finditer r s → match_of r m.
Proof. apply finditer_from_match. Qed.

(** * The class enumerator *)

Lemma all_chars_app f s t :
  all_chars f (s +:+ t) = all_chars f s && all_chars f t.
Proof.
  induction s as [|c s IH]; [done|]. rewrite str_app_cons. simpl.
  by rewrite IH, andb_assoc.
Qed.

Lemma word_not_special c : is_word c = true → is_special c = false.
Proof. destruct c as [[] [] [] [] [] [] [] []]; by vm_compute. Qed.

Lemma word_plain s : all_chars is_word s = true → plain s = true.
Proof.
  unfold plain. induction s as [|c s IH]; [done|]. simpl.
  intros [Hc Hs]%andb_prop. by rewrite (word_not_special c Hc), IH.
Qed.

Lemma word_no_dot s : all_chars is_word s = true → count_char "." s = 0.
Proof.
  induction s as [|c s IH]; [done|]. simpl.
  intros [Hc Hs]%andb_prop. rewrite IH by done.
  destruct (Ascii.eqb_spec c ".") as [->|]; [by vm_compute in Hc|done].
Qed.

Lemma count_char_app c s t :
  count_char c (s +:+ t) = count_char c s + count_char c t.
Proof.
  induction s as [|a s IH]; [done|]. rewrite str_app_cons. simpl.
  rewrite IH. lia.
Qed.

Lemma split_app sep s t :
  split sep (s +:+ String sep t) = split sep s ++ split sep t.
Proof.
  induction s as [|c s IH].
  - rewrite str_app_nil_l. simpl. by rewrite Ascii.eqb_refl.
  - rewrite str_app_cons. simpl. rewrite IH.
    destruct (Ascii.eqb c sep); [done|].
    pose proof (split_nonempty sep s). by destruct (split sep s).
Qed.

(** A dotted path that ends in a dot-free name after at least two dots
    resolves, and to that name. *)
Lemma parse_ends_with s name :
  count_char "." name = 0 → 1 ≤ count_char "." s →
  ∃ a f, _parse_serializer_path (s +:+ "." +:+ name) = Ok (a, f, name).
Proof.
  intros Hname Hs. unfold _parse_serializer_path.
  change (s +:+ "." +:+ name) with (s +:+ String "." name).
  rewrite split_app, (split_no_sep _ name Hname).
  pose proof (length_split "." s) as Hlen.
  destruct (split "." s) as [|a [|b l]]; simpl in Hlen; try lia.
  destruct l as [|c l]; [by eexists _, _|].
  cbv zeta.
  assert ((length ((a :: b :: c :: l) ++ [name]) <? 3) = false) as ->.
  { apply Nat.ltb_ge. rewrite length_app. simpl. lia. }
  assert ((3 <? length ((a :: b :: c :: l) ++ [name])) = true) as ->.
  { apply Nat.ltb_lt. rewrite length_app. simpl. lia. }
  unfold last_str. rewrite last_snoc. by eexists _, _.
Qed.

Lemma candidate_path_resolves rel_path name :
  count_char "." name = 0 →
  ∃ a f, _parse_serializer_path (candidate_path rel_path name) = Ok (a, f, name).
Proof.
  intros Hname. unfold candidate_path. cbv zeta.
  set (app := default EmptyString (split "/" rel_path !! 0)).
  set (stem := splitext_root (last_str (split "/" rel_path))).
  destruct (contains "rest/serializers" rel_path);
    [|destruct (contains "serializers" rel_path)].
  - rewrite <-!app_assoc_str, (app_assoc_str _ "." name).
    apply parse_ends_with; [done|]. rewrite !count_char_app. simpl. lia.
  - rewrite <-!app_assoc_str, (app_assoc_str _ "." name).
    apply parse_ends_with; [done|]. rewrite !count_char_app. simpl. lia.
  - rewrite <-!app_assoc_str, (app_assoc_str _ "." name).
    apply parse_ends_with; [done|]. rewrite !count_char_app. simpl. lia.
Qed.

Lemma candidate_path_parse rel_path name :
  count_char "." name = 0 →
  count_char "." (top_dir rel_path) = 0 →
  count_char "." (file_stem rel_path) = 0 →
  _parse_serializer_path (candidate_path rel_path name)
  = Ok (top_dir rel_path, file_stem rel_path, name).
Proof.
  intros Hname Htop Hstem.
  set (top := top_dir rel_path) in *. set (stem := file_stem rel_path) in *.
  assert (∀ middle, Forall (λ p, count_char "." p = 0) middle →
            _parse_serializer_path (join "." (top :: middle ++ [stem; name]))
            = Ok (top, stem, name)) as Hjoin.
  { intros middle Hmiddle. unfold _parse_serializer_path.
    rewrite split_join; [|done|].
    - destruct middle as [|m1 [|m2 middle]]; [done..|].
      cbv zeta.
      assert ((length (top :: (m1 :: m2 :: middle) ++ [stem; name]) <? 3)
              = false) as -> by (apply Nat.ltb_ge; simpl; lia).
      assert ((3 <? length (top :: (m1 :: m2 :: middle) ++ [stem; name]))
              = true) as ->.
      { apply Nat.ltb_lt. simpl. rewrite length_app. simpl. lia. }
      unfold penultimate, last_str.
      change (top :: (m1 :: m2 :: middle) ++ [stem; name])
        with ((top :: m1 :: m2 :: middle) ++ [stem; name]).
      rewrite (assoc_L (++) _ [stem] [name]), last_snoc.
      f_equal. f_equal. f_equal.
      remember (top :: m1 :: m2 :: middle) as l eqn:Hl.
      rewrite lookup_app_l by (rewrite !length_app; simpl; lia).
      rewrite lookup_app_r by (rewrite !length_app; simpl; lia).
      replace (length ((l ++ [stem]) ++ [name]) - 2 - length l)
        with 0 by (rewrite !length_app; simpl; lia).
      done.
    - constructor; [done|]. apply Forall_app. split; [done|].
      by repeat constructor. }
  unfold candidate_path. cbv zeta. fold (top_dir rel_path) (file_stem rel_path).
  fold top stem.
  destruct (contains "rest/serializers" rel_path);
    [|destruct (contains "serializers" rel_path)].
  - apply (Hjoin ["rest"; "serializers"]). by repeat constructor.
  - apply (Hjoin ["serializers"]). by repeat constructor.
  - apply (Hjoin []). by repeat constructor.
Qed.

(** X9: the dotted path the enumerator derives for a class always resolves:
    for a class name without a dot the resolver never raises and gives back
    that class name, and when the top directory and the file stem hold no dot
    either, all three path conventions (rest/serializers, serializers, plain)
    resolve to the triple of top directory, file stem and class name. *)
Theorem X9_candidate_path_resolves (rel_path serializer_name : string) :
  count_char "." serializer_name = 0 →
  ∃ a f,
    _parse_serializer_path (candidate_path rel_path serializer_name)
    = Ok (a, f, serializer_name)
    ∧ (count_char "." (top_dir rel_path) = 0 →
       count_char "." (file_stem rel_path) = 0 →
       a = top_dir rel_path ∧ f = file_stem rel_path).
Proof.
  intros Hname.
  destruct (candidate_path_resolves rel_path serializer_name Hname)
    as (a & f & Hparse).
  exists a, f. split; [done|]. intros Htop Hstem.
  rewrite candidate_path_parse in Hparse by done.
  by injection Hparse as <- <-.
Qed.

Lemma X9_candidate_path_resolves_witness :
  ∃ a f,
    _parse_serializer_path
      (candidate_path "app/rest/serializers/user.py" "UserSerializer")
    = Ok (a, f, "UserSerializer")
    ∧ (count_char "." (top_dir "app/rest/serializers/user.py") = 0 →
       count_char "." (file_stem "app/rest/serializers/user.py") = 0 →
       a = top_dir "app/rest/serializers/user.py"
       ∧ f = file_stem "app/rest/serializers/user.py").
Proof.
  apply (X9_candidate_path_resolves "app/rest/serializers/user.py"
           "UserSerializer").
  reflexivity.
Defined.

Lemma grp_lang_Lit s t : ¬ grp_lang (Lit s) t.
Proof. induction s as [|c s IH]; simpl; tauto. Qed.

Lemma serializer_patterns_capture pattern t :
  pattern ∈ serializer_patterns → grp_lang pattern t →
  ∃ stem, t = stem +:+ "Serializer" ∧ all_chars is_word stem = true
          ∧ 1 ≤ String.length stem.
Proof.
  assert (∀ close,
            grp_lang (seqs [Lit "class"; spaces;
                            Grp (Seq word (Lit "Serializer")); spaces0;
                            Lit close]) t →
            lang (Seq word (Lit "Serializer")) t) as Hshape.
  { intros close.
    change (grp_lang (Lit "class") t
            ∨ False
            ∨ (lang (Seq word (Lit "Serializer")) t
               ∨ False ∨ grp_lang (Lit "Serializer") t)
            ∨ False ∨ grp_lang (Lit close) t ∨ False
            → lang (Seq word (Lit "Serializer")) t).
    pose proof (grp_lang_Lit "class" t). pose proof (grp_lang_Lit close t).
    pose proof (grp_lang_Lit "Serializer" t). tauto. }
  intros Hin Hg.
  assert (lang (Seq word (Lit "Serializer")) t) as (stem & w & -> & Hstem & Hw).
  { unfold serializer_patterns in Hin.
    apply elem_of_cons in Hin as [->|Hin]; [by apply (Hshape "(")|].
    apply elem_of_cons in Hin as [->|Hin]; [by apply (Hshape ":")|].
    by apply elem_of_nil in Hin. }
  apply lang_Lit in Hw as ->. apply lang_rep_chr in Hstem as [Hall Hlen].
  by exists stem.
Qed.

Lemma unique_by_name_elem seen l c :
  c ∈ unique_by_name seen l → c ∈ l ∧ c_name c ∉ seen.
Proof.
  revert seen. induction l as [|x l IH]; intros seen; simpl.
  - by intros ?%elem_of_nil.
  - destruct (decide _) as [|Hout].
    + intros [? ?]%IH. split; [by right|done].
    + intros [->|Hin]%elem_of_cons; [split; [by left|done]|].
      apply IH in Hin as [? Hc]. split; [by right|].
      intros ?. apply Hc. by apply elem_of_union_r.
Qed.

Lemma unique_by_name_NoDup seen l : NoDup (c_name <$> unique_by_name seen l).
Proof.
  revert seen. induction l as [|x l IH]; intros seen; simpl.
  - constructor.
  - destruct (decide _) as [|Hout]; [by apply IH|].
    rewrite fmap_cons. constructor; [|by apply IH].
    intros (c & Heq & Hin)%list_elem_of_fmap.
    apply unique_by_name_elem in Hin as [_ Hc]. apply Hc. rewrite <-Heq.
    apply elem_of_union_l. by apply elem_of_singleton.
Qed.

Lemma unique_by_name_covers seen l c :
  c ∈ l → c_name c ∉ seen → c_name c ∈ c_name <$> unique_by_name seen l.
Proof.
  revert seen. induction l as [|x l IH]; intros seen; simpl.
  - by intros ?%elem_of_nil.
  - intros Hin Hout. destruct (decide (c_name x ∈ seen)) as [Hx|Hx].
    + apply elem_of_cons in Hin as [->|Hin]; [done|]. by apply IH.
    + rewrite fmap_cons. destruct (decide (c_name x = c_name c)) as [Heq|Hne].
      * rewrite Heq. by left.
      * right. apply elem_of_cons in Hin as [->|Hin]; [done|].
        apply IH; [done|]. intros [?%elem_of_singleton|?]%elem_of_union; done.
Qed.

Lemma find_all_serializers_visible fs :
  find_all_serializers fs
  = Ok (unique_by_name ∅
          (python_files fs (app_dirs fs) ≫= visible fs class_matches)).
Proof.
  unfold find_all_serializers.
  by rewrite (for_files_read fs class_matches).
Qed.

Lemma elem_of_class_matches file_path content c :
  c ∈ class_matches file_path content →
  c_file c = file_path
  ∧ c_path c = candidate_path file_path (c_name c)
  ∧ ∃ stem, c_name c = stem +:+ "Serializer" ∧ 1 ≤ String.length stem
            ∧ all_chars is_word stem = true.
Proof.
  unfold class_matches.
  intros (pattern & Hc & Hpattern)%list_elem_of_bind.
  apply list_elem_of_bind in Hc as (m & Hc & Hm).
  apply re_finditer_match in Hm as (_ & _ & Hgroup).
  destruct (f_group1 m) as [[start name]|]; [|by apply elem_of_nil in Hc].
  apply list_elem_of_singleton in Hc as ->. cbn [c_name c_path c_file].
  destruct (serializer_patterns_capture _ _ Hpattern Hgroup)
    as (stem & -> & Hword & Hlen).
  split_and!; [done..|]. by exists stem.
Qed.

Lemma class_name_word stem :
  all_chars is_word stem = true →
  all_chars is_word (stem +:+ "Serializer") = true.
Proof. intros Hword. by rewrite all_chars_app, Hword. Qed.

(** X10: the class enumerator never fails and returns each class name once;
    every candidate comes from a readable Python file under an application
    directory, its name is a non-empty run of word characters followed by
    [Serializer], its dotted path is the one derived from its file and name,
    and that path is always accepted by the analyzer's constructor, which
    recovers the class name; conversely the name captured by any match of
    either pattern in such a file is one of the returned names. *)
Theorem X10_find_all_serializers (fs : FileSystem) :
  ∃ candidates,
    find_all_serializers fs = Ok candidates
    ∧ NoDup (c_name <$> candidates)
    ∧ (∀ c, c ∈ candidates →
         c_file c ∈ python_files fs (app_dirs fs)
         ∧ (∃ content, file_text fs (c_file c) = inl content)
         ∧ (∃ stem, c_name c = stem +:+ "Serializer" ∧ stem ≠ EmptyString
                    ∧ all_chars is_word stem = true)
         ∧ c_path c = candidate_path (c_file c) (c_name c)
         ∧ ∃ self, SerializerUsageAnalyzer (c_path c) = Ok self
                   ∧ serializer_name self = c_name c
                   ∧ plain (serializer_name self) = true)
    ∧ (∀ file_path content pattern m start name,
         file_path ∈ python_files fs (app_dirs fs) →
         file_text fs file_path = inl content →
         pattern ∈ serializer_patterns →
         m ∈ re_finditer pattern content →
         f_group1 m = Some (start, name) →
         name ∈ c_name <$> candidates).
Proof.
  rewrite find_all_serializers_visible. eexists. split; [done|].
  split; [apply unique_by_name_NoDup|]. split.
  - intros c [Hc _]%unique_by_name_elem.
    apply elem_of_visible in Hc as (p & content & Hp & Hread & Hc).
    apply elem_of_class_matches in Hc
      as (Hfile & Hpath & stem & Hname & Hlen & Hword).
    rewrite Hfile. split_and!; [done|by exists content| |done|].
    + exists stem. split_and!; [done| |done]. intros ->. simpl in Hlen. lia.
    + apply class_name_word in Hword. rewrite <-Hname in Hword.
      destruct (candidate_path_resolves p (c_name c) (word_no_dot _ Hword))
        as (a & f & Hparse).
      unfold SerializerUsageAnalyzer. rewrite Hpath, Hparse.
      cbn [mbind outcome_bind].
      eexists. split; [done|]. split; [done|]. by apply word_plain.
  - intros p content pattern m start name Hp Hread Hpattern Hm Hgroup.
    apply (unique_by_name_covers ∅ _
             {| c_name := name; c_path := candidate_path p name;
                c_file := p |}); [|by apply not_elem_of_empty].
    apply elem_of_visible. exists p, content. split_and!; [done..|].
    apply list_elem_of_bind. exists pattern. split; [|done].
    apply list_elem_of_bind. exists m. split; [|done].
    rewrite Hgroup. by apply list_elem_of_singleton.
Qed.

(** * The batch command as a whole *)

Lemma names_completed_all scan serializers :
  (∀ c, c ∈ serializers → ∃ results, scan (c_path c) = Ok results) →
  r_name <$> completed scan serializers = c_name <$> serializers.
Proof.
  unfold completed. induction serializers as [|c l IH]; intros Hall; [done|].
  rewrite bind_cons, fmap_app, fmap_cons, IH
    by (intros c' ?; apply Hall; by right).
  destruct (Hall c) as [results ->]; [by left|]. done.
Qed.

Lemma candidate_analyzer fs c :
  identifier_modules fs = true →
  c ∈ python_files fs (app_dirs fs) ≫= visible fs class_matches →
  SerializerUsageAnalyzer (c_path c)
  = Ok {| app_name := top_dir (c_file c); file_name := file_stem (c_file c);
          serializer_name := c_name c |}
  ∧ plain (top_dir (c_file c)) = true ∧ plain (file_stem (c_file c)) = true
  ∧ plain (c_name c) = true.
Proof.
  intros Hmodules (p & content & Hp & _ & Hc)%elem_of_visible.
  apply elem_of_class_matches in Hc
    as (Hfile & Hpath & stem & Hname & _ & Hword).
  apply class_name_word in Hword. rewrite <-Hname in Hword.
  unfold identifier_modules in Hmodules. rewrite forallb_forall in Hmodules.
  apply list_elem_of_In, Hmodules, andb_prop in Hp as [Htop Hstem].
  rewrite Hfile. split_and!; [|by apply word_plain..].
  unfold SerializerUsageAnalyzer.
  rewrite Hpath, candidate_path_parse by by apply word_no_dot.
  done.
Qed.

(** X8: when module names are identifiers, the batch command analyses every
    selected candidate: no constructor or scan failure drops one, so
    all_results lists the selected candidates by name, in order and without
    repetition; a positive limit bounds its length, an app option leaves only
    paths starting with that app and a dot, and each result holds the
    analysis of the analyzer built from the top directory, the file stem and
    the class name, with the sum of its eight categories as total. *)
Theorem X8_handle_analyses_every_candidate (fs : FileSystem) (opts : Options) :
  identifier_modules fs = true →
  ∃ candidates unused all_results,
    find_all_serializers fs = Ok candidates
    ∧ handle fs opts = Ok (unused, all_results)
    ∧ r_name <$> all_results = c_name <$> select_candidates opts candidates
    ∧ sublist (r_name <$> all_results) (c_name <$> candidates)
    ∧ NoDup (r_name <$> all_results)
    ∧ (∀ n, limit opts = Some n → (0 < n)%Z →
            length all_results ≤ Z.to_nat n)
    ∧ (∀ app, target_app opts = Some app → app ≠ EmptyString →
              ∀ r, r ∈ all_results →
                   startswith (r_path r) (app +:+ ".") = true)
    ∧ (∀ r, r ∈ all_results →
            let self := {| app_name := top_dir (r_file r);
                           file_name := file_stem (r_file r);
                           serializer_name := r_name r |} in
            SerializerUsageAnalyzer (r_path r) = Ok self
            ∧ plain_names self = true
            ∧ analyze fs self = Ok (details r)
            ∧ total_usages r = sum_usages (details r)).
Proof.
  intros Hmodules.
  pose proof (find_all_serializers_visible fs) as Hfound.
  set (candidates := unique_by_name ∅ _) in Hfound.
  destruct (handle_run_batch fs opts candidates Hfound) as [Hhandle Hsub].
  set (selected := select_candidates opts candidates) in *.
  assert (∀ c, c ∈ selected →
            let self := {| app_name := top_dir (c_file c);
                           file_name := file_stem (c_file c);
                           serializer_name := c_name c |} in
            SerializerUsageAnalyzer (c_path c) = Ok self
            ∧ plain_names self = true
            ∧ analyze_path fs (c_path c)
              = Ok (_deduplicate_results (scanned fs self))) as Hscan.
  { intros c Hc self. apply (elem_of_sublist _ _ _ Hc) in Hsub.
    apply unique_by_name_elem in Hsub as [Hsub _].
    destruct (candidate_analyzer fs c Hmodules Hsub)
      as (Hself & Htop & Hstem & Hname).
    split_and!; [done| |].
    - unfold plain_names, self. cbn [app_name file_name serializer_name].
      by rewrite Htop, Hstem, Hname.
    - unfold analyze_path. rewrite Hself. cbn [mbind outcome_bind].
      apply analyze_scanned. }
  exists candidates, (run_batch (analyze_path fs) (threshold opts) selected).1,
    (completed (analyze_path fs) selected).
  assert (r_name <$> completed (analyze_path fs) selected
          = c_name <$> selected) as Hnames.
  { apply names_completed_all. intros c Hc.
    destruct (Hscan c Hc) as (_ & _ & ->). by eexists. }
  split_and!.
  - done.
  - rewrite Hhandle. f_equal.
    rewrite <-(run_batch_all (analyze_path fs) (threshold opts) selected).
    by destruct (run_batch _ _ _).
  - done.
  - rewrite Hnames. by apply fmap_sublist.
  - rewrite Hnames. apply (sublist_NoDup _ (c_name <$> candidates)).
    + apply unique_by_name_NoDup.
    + by apply fmap_sublist.
  - intros n Hlimit Hpos.
    etrans; [apply length_completed|].
    unfold selected, select_candidates. rewrite Hlimit.
    apply Z.ltb_lt in Hpos as ->. rewrite length_take. lia.
  - intros app Happ Hne r (c & Hc & _ & ->)%elem_of_completed.
    cbn [r_path serializer_result].
    unfold selected, select_candidates in Hc. rewrite Happ in Hc.
    rewrite decide_False in Hc by done.
    assert (c ∈ filter (λ s, startswith (c_path s) (app +:+ ".") = true)
                  candidates) as Hin.
    { destruct (limit opts) as [n|]; [|done].
      destruct (0 <? n)%Z; [|done].
      by apply (elem_of_sublist _ _ _ Hc), sublist_take. }
    by apply list_elem_of_filter in Hin as [? _].
  - intros r (c & Hc & Hr & ->)%elem_of_completed.
    cbn [r_path r_file r_name details total_usages serializer_result] in *.
    destruct (Hscan c Hc) as (Hself & Hplain & Hpath).
    split_and!; [done..| |done].
    rewrite Hr in Hpath. unfold analyze_path in Hr.
    rewrite Hself in Hr. done.
Qed.

Lemma X8_handle_analyses_every_candidate_witness :
  ∃ candidates unused all_results,
    find_all_serializers two_classes = Ok candidates
    ∧ handle two_classes default_options = Ok (unused, all_results)
    ∧ r_name <$> all_results
      = c_name <$> select_candidates default_options candidates.
Proof.
  destruct (X8_handle_analyses_every_candidate two_classes default_options)
    as (candidates & unused & all_results & Hfound & Hhandle & Hnames & _).
  - vm_compute. reflexivity.
  - exists candidates, unused, all_results. split_and!; assumption.
Defined.

(** * The class locator and the parent pass *)

Lemma search_class_header rs1 name rs2 content :
  re_search (seqs (rs1 ++ [Lit "class"; spaces; Lit name] ++ rs2)) content
  = true →
  class_header name content.
Proof.
  rewrite re_search_true. intros (pre & w & post & -> & HL).
  apply lang_seqs_app in HL as (w1 & w2 & -> & _ & HL).
  apply lang_seqs_app in HL as (wh & w3 & -> & HL & _).
  apply lang_seqs_cons in HL as (wc & wr & -> & ->%lang_Lit & HL).
  apply lang_seqs_cons in HL as (blanks & wr' & -> & Hblanks & HL).
  apply lang_seqs_cons in HL as (wn & we & -> & ->%lang_Lit & ->).
  apply lang_rep_chr in Hblanks as [Hall Hlen].
  exists blanks. split_and!; [done| |].
  - intros ->. simpl in Hlen. lia.
  - apply contains_true. exists (pre +:+ w1), (w3 +:+ post).
    by rewrite str_app_nil_r, !app_assoc_str.
Qed.

Lemma search_literals a b c line :
  re_search (seqs [Lit a; Lit b; Lit c]) line = true
  ↔ contains (a +:+ b +:+ c) line = true.
Proof.
  rewrite re_search_true, contains_true. split.
  - intros (pre & w & post & -> & HL).
    apply lang_seqs_cons in HL as (wa & w1 & -> & ->%lang_Lit & HL).
    apply lang_seqs_cons in HL as (wb & w2 & -> & ->%lang_Lit & HL).
    apply lang_seqs_cons in HL as (wc & w3 & -> & ->%lang_Lit & ->).
    exists pre, post. by rewrite str_app_nil_r, !app_assoc_str.
  - intros (pre & post & ->). exists pre, (a +:+ b +:+ c), post.
    split; [done|].
    apply lang_seqs_cons. exists a, (b +:+ c). split_and!; [done|by apply lang_Lit|].
    apply lang_seqs_cons. exists b, c. split_and!; [done|by apply lang_Lit|].
    apply lang_seqs_cons. exists c, EmptyString.
    split_and!; [by rewrite str_app_nil_r|by apply lang_Lit|done].
Qed.

Lemma finditer_search r s m : m ∈ re_finditer r s → re_search r s = true.
Proof.
  unfold re_finditer, re_search. cbn [finditer_from Nat.add].
  destruct (2 * String.length s + 2) as [|fuel] eqn:E; [lia|].
  cbn [finditer_from].
  destruct (search_from r 0 s false); [|by intros ?%elem_of_nil].
  intros _. by apply bool_decide_eq_true.
Qed.

Section Locator.

Context (fs : FileSystem) (self : Analyzer).

Lemma parents_visible :
  _find_potential_parent_serializers fs self
  = Ok (python_files fs (project_dirs fs) ≫= visible fs (parent_matches self)).
Proof. apply (for_files_read fs (parent_matches self)). Qed.

Lemma parent_shape parent :
  parent ∈ python_files fs (project_dirs fs) ≫= visible fs (parent_matches self) →
  (∃ stem, parent = stem +:+ "Serializer" ∧ 1 ≤ String.length stem
           ∧ all_chars is_word stem = true)
  ∧ header_somewhere fs (serializer_name self).
Proof.
  intros (p & content & _ & Hread & Hm)%elem_of_visible.
  apply list_elem_of_bind in Hm as (m & Hparent & Hm). split.
  - apply re_finditer_match in Hm as (_ & _ & Hgroup).
    destruct (f_group1 m) as [[start t]|]; [|by apply elem_of_nil in Hparent].
    apply list_elem_of_singleton in Hparent. subst t.
    assert (lang (Seq word (Lit "Serializer")) parent)
      as (stem & w & -> & Hstem & ->%lang_Lit).
    { revert Hgroup. unfold potential_parent_pattern.
      change (grp_lang (Lit "class") parent
              ∨ False
              ∨ (lang (Seq word (Lit "Serializer")) parent
                 ∨ False ∨ grp_lang (Lit "Serializer") parent)
              ∨ False ∨ grp_lang (Lit "class") parent ∨ False
              ∨ grp_lang (Lit (serializer_name self)) parent ∨ False
              → lang (Seq word (Lit "Serializer")) parent).
      pose proof (grp_lang_Lit "class" parent).
      pose proof (grp_lang_Lit "Serializer" parent).
      pose proof (grp_lang_Lit (serializer_name self) parent). tauto. }
    apply lang_rep_chr in Hstem as [Hall Hlen]. by exists stem.
  - apply finditer_search in Hm. exists p, content. split; [done|].
    apply (search_class_header
             [Lit "class"; spaces; Grp (Seq word (Lit "Serializer"));
              star_lazy (Chr CDotAll)] _ []).
    exact Hm.
Qed.

Lemma check_possible_files_sound l :
  check_possible_files fs self l = Ok true →
  header_somewhere fs (serializer_name self).
Proof.
  induction l as [|p l IH]; [done|]. cbn [check_possible_files].
  destruct (path_exists fs p); [|done].
  unfold read_text. destruct (file_text fs p) as [content|[]] eqn:Hread;
    [|done..].
  cbn [mbind outcome_bind].
  match goal with |- context [re_search ?r content || _] =>
    destruct (re_search r content) eqn:Hclass end.
  - intros _. exists p, content. split; [done|].
    by apply (search_class_header [] _ [Lit "("]).
  - cbn [orb].
    match goal with |- context [re_search ?r content] =>
      destruct (re_search r content) eqn:Hinner end; [|exact IH].
    intros _. exists p, content. split; [done|].
    by apply (search_class_header
                [Lit "class"; spaces; word; Lit "Serializer";
                 star_lazy (Chr CDotAll)] _ [Lit "("]).
Qed.

Lemma check_app_files_sound l :
  check_app_files fs self l = Ok true →
  header_somewhere fs (serializer_name self).
Proof.
  induction l as [|p l IH]; [done|]. cbn [check_app_files].
  unfold read_text. destruct (file_text fs p) as [content|[]] eqn:Hread;
    [|done..].
  cbn [mbind outcome_bind].
  destruct (re_search _ content) eqn:Hinner; [|exact IH].
  intros _. exists p, content. split; [done|].
  by apply (search_class_header
              [Lit "class"; spaces; word; star_lazy (Chr CDotAll)] _
              [Lit "("]).
Qed.

Lemma check_possible_files_complete l p content :
  p ∈ l → path_exists fs p = true → file_text fs p = inl content →
  contains ("class " +:+ serializer_name self +:+ "(") content = true →
  check_possible_files fs self l = Ok true.
Proof.
  intros Hp Hexists Hread Hheader.
  induction l as [|q l IH]; [by apply elem_of_nil in Hp|].
  cbn [check_possible_files].
  destruct (decide (q = p)) as [->|Hne].
  - rewrite Hexists. unfold read_text. rewrite Hread.
    cbn [mbind outcome_bind].
    assert (re_search (seqs [Lit "class"; spaces; Lit (serializer_name self);
                             Lit "("]) content = true) as ->; [|done].
    apply contains_true in Hheader as (pre & post & ->).
    apply re_search_true.
    exists pre, ("class " +:+ serializer_name self +:+ "("), post.
    split; [done|].
    apply lang_seqs_cons.
    exists "class", (" " +:+ serializer_name self +:+ "(").
    split_and!; [done|by apply lang_Lit|].
    apply lang_seqs_cons. exists " ", (serializer_name self +:+ "(").
    split_and!; [done|by apply lang_rep_chr|].
    apply lang_seqs_cons. exists (serializer_name self), "(".
    split_and!; [done|by apply lang_Lit|].
    apply lang_seqs_cons. exists "(", EmptyString.
    split_and!; [done|by apply lang_Lit|done].
  - apply elem_of_cons in Hp as [->|Hp]; [done|]. specialize (IH Hp).
    destruct (path_exists fs q); [|done].
    unfold read_text. destruct (file_text fs q) as [c|[]]; [|done..].
    cbn [mbind outcome_bind].
    by destruct (re_search _ c || re_search _ c).
Qed.

End Locator.

(** X11: the class locator never raises, and it answers True only when some
    readable file holds the word class, white space and the target name in a
    row; it does answer True when one of the four conventional files exists,
    is readable and holds the class keyword, one blank, the name and an
    opening parenthesis. *)
Theorem X11_locator (fs : FileSystem) (self : Analyzer) :
  plain_names self = true →
  ∃ found_it,
    find_serializer_in_file fs self = Ok found_it
    ∧ (found_it = true → header_somewhere fs (serializer_name self))
    ∧ (∀ p content,
         p ∈ possible_file_patterns self → path_exists fs p = true →
         file_text fs p = inl content →
         contains ("class " +:+ serializer_name self +:+ "(") content = true →
         found_it = true).
Proof.
  intros _. unfold find_serializer_in_file. cbv zeta.
  fold (possible_file_patterns self).
  destruct (check_possible_files_ok fs self (possible_file_patterns self))
    as [direct Hdirect].
  rewrite Hdirect. cbn [mbind outcome_bind].
  destruct direct.
  { exists true. split_and!; [done| |done].
    intros _. by apply (check_possible_files_sound fs self _ Hdirect). }
  assert (∀ p content,
            p ∈ possible_file_patterns self → path_exists fs p = true →
            file_text fs p = inl content →
            contains ("class " +:+ serializer_name self +:+ "(") content
            = true → False) as Hnone.
  { intros p content Hp Hexists Hread Hheader.
    rewrite (check_possible_files_complete fs self _ p content) in Hdirect;
      done. }
  rewrite parents_visible. cbn [mbind outcome_bind].
  destruct (python_files fs (project_dirs fs) ≫= visible fs (parent_matches self))
    as [|parent parents] eqn:Hparents.
  - destruct (head _) as [app_dir|].
    + destruct (decide (app_dir = EmptyString)).
      * exists false. split_and!; [done..|]. intros. exfalso. eauto.
      * destruct (check_app_files_ok fs self (python_files fs [app_dir]))
          as [b Hb].
        exists b. split_and!; [done| |intros; exfalso; eauto].
        intros ->. by apply (check_app_files_sound fs self _ Hb).
    + exists false. split_and!; [done..|]. intros. exfalso. eauto.
  - exists true. split_and!; [done| |done]. intros _.
    apply (parent_shape fs self parent). rewrite Hparents. by left.
Qed.

Lemma X11_locator_witness :
  ∃ found_it,
    find_serializer_in_file two_classes
      {| app_name := "app"; file_name := "serializers";
         serializer_name := "UsedSerializer" |} = Ok found_it
    ∧ (found_it = true → header_somewhere two_classes "UsedSerializer").
Proof.
  destruct (X11_locator two_classes
              {| app_name := "app"; file_name := "serializers";
                 serializer_name := "UsedSerializer" |})
    as (found_it & Hfound & Hsound & _).
  - vm_compute. reflexivity.
  - exists found_it. split; assumption.
Defined.

(** X12: the parent pass.  Every potential parent is a non-empty run of word
    characters followed by [Serializer], so free of special characters, and
    is found only when some readable file holds a class header of the target;
    an entry is recorded exactly for a line of a readable project file that
    holds a parent, a dot and the target name in a row, with the stripped
    line after the words [Used through parent: ]; and after the analysis the
    place of every such entry is among the serializer_class_declarations. *)
Theorem X12_parent_usages (fs : FileSystem) (self : Analyzer) :
  plain_names self = true →
  ∃ parents through_parent,
    _find_potential_parent_serializers fs self = Ok parents
    ∧ _scan_for_parent_serializer_usages fs self = Ok through_parent
    ∧ (∀ parent, parent ∈ parents →
         (∃ stem, parent = stem +:+ "Serializer" ∧ stem ≠ EmptyString
                  ∧ all_chars is_word stem = true)
         ∧ plain parent = true
         ∧ header_somewhere fs (serializer_name self))
    ∧ (∀ it, it ∈ through_parent ↔
         ∃ parent p content i line,
           parent ∈ parents
           ∧ p ∈ python_files fs (project_dirs fs)
           ∧ file_text fs p = inl content
           ∧ split newline content !! i = Some line
           ∧ contains (parent +:+ "." +:+ serializer_name self) line = true
           ∧ it = LineItem p (S i) ("Used through parent: " +:+ strip line))
    ∧ ∃ res, analyze fs self = Ok res
             ∧ ∀ it, it ∈ through_parent →
                     ∃ kept, kept ∈ serializer_class_declarations res
                             ∧ item_key kept = item_key it.
Proof.
  intros _. unfold _scan_for_parent_serializer_usages.
  rewrite analyze_scanned. unfold scanned at 1.
  unfold _scan_for_parent_serializer_usages.
  rewrite parents_visible. cbn [mbind outcome_bind].
  set (parents := python_files fs (project_dirs fs) ≫= _).
  rewrite parent_usages_found. cbn [ok_or].
  eexists _, _. split_and!; [done..| | |].
  - intros parent Hparent.
    apply parent_shape in Hparent as [(stem & -> & Hlen & Hword) Hheader].
    split_and!; [|by apply word_plain, class_name_word|done].
    exists stem. split_and!; [done| |done]. intros ->. simpl in Hlen. lia.
  - intros it. rewrite list_elem_of_bind. split.
    + intros (parent & Hit & Hparent).
      apply elem_of_found_lines in Hit
        as (p & content & i & line & Hp & Hread & Hline & Hit).
      destruct (re_search _ line) eqn:Hm; [|by apply elem_of_nil in Hit].
      apply list_elem_of_singleton in Hit as ->.
      apply search_literals in Hm.
      by exists parent, p, content, i, line.
    + intros (parent & p & content & i & line
              & Hparent & Hp & Hread & Hline & Hm & ->).
      exists parent. split; [|done].
      apply elem_of_found_lines. exists p, content, i, line.
      split_and!; [done..|].
      apply search_literals in Hm. rewrite Hm. by left.
  - eexists. split; [done|]. intros it Hit.
    cbn [serializer_class_declarations _deduplicate_results].
    apply (unique_from_covers ∅); [|by apply not_elem_of_empty].
    apply elem_of_app. by right.
Qed.

Lemma X12_parent_usages_witness :
  ∃ parents through_parent,
    _find_potential_parent_serializers nested_classes inner_serializer
    = Ok parents
    ∧ _scan_for_parent_serializer_usages nested_classes inner_serializer
      = Ok through_parent
    ∧ ∀ parent, parent ∈ parents → plain parent = true.
Proof.
  destruct (X12_parent_usages nested_classes inner_serializer)
    as (parents & through_parent & Hparents & Hthrough & Hshape & _).
  - vm_compute. reflexivity.
  - exists parents, through_parent. split_and!; [assumption..|].
    intros parent Hparent. by destruct (Hshape parent Hparent) as (_ & ? & _).
Defined.

(** * The instantiation pass as first occurrences *)

Section UniqueBy.

Context {A K : Type} `{Countable K} (key : A → K).

Lemma unique_by_app seen l1 l2 :
  unique_by key seen (l1 ++ l2)
  = unique_by key seen l1
    ++ unique_by key (list_to_set (key <$> l1) ∪ seen) l2.
Proof.
  revert seen. induction l1 as [|x l1 IH]; intros seen; simpl.
  - f_equal. set_solver.
  - destruct (decide (key x ∈ seen)) as [Hin|Hout].
    + rewrite IH. do 2 f_equal. set_solver.
    + simpl. rewrite IH. do 3 f_equal. set_solver.
Qed.

Lemma unique_by_seen seen l :
  (∀ x, x ∈ l → key x ∈ seen) → unique_by key seen l = [].
Proof.
  induction l as [|x l IH]; intros Hseen; [done|]. simpl.
  rewrite decide_True by (apply Hseen; by left).
  apply IH. intros y Hy. apply Hseen. by right.
Qed.

(** Elements met before add nothing, wherever they come again. *)
Lemma unique_by_absorb seen l1 again l2 :
  (∀ x, x ∈ again → x ∈ l1) →
  unique_by key seen (l1 ++ again ++ l2) = unique_by key seen (l1 ++ l2).
Proof.
  intros Hagain. rewrite !unique_by_app. f_equal.
  rewrite unique_by_seen.
  - simpl. f_equal.
    assert (list_to_set (key <$> again) ⊆@{gset K} list_to_set (key <$> l1))
      as Hsub; [|set_solver].
    intros k (x & -> & Hx)%elem_of_list_to_set%list_elem_of_fmap.
    apply elem_of_list_to_set, list_elem_of_fmap. eauto.
  - intros x Hx. apply elem_of_union_l, elem_of_list_to_set, list_elem_of_fmap.
    eauto.
Qed.

Lemma elem_of_unique_by seen l x :
  (∀ y, y ∈ l → key y = key x → y = x) →
  x ∈ unique_by key seen l ↔ x ∈ l ∧ key x ∉ seen.
Proof.
  revert seen. induction l as [|y l IH]; intros seen Hinj; simpl.
  - split; [by intros ?%elem_of_nil|by intros [?%elem_of_nil _]].
  - assert (∀ z, z ∈ l → key z = key x → z = x) as Hl
      by (intros z ?; apply Hinj; by right).
    destruct (decide (key y ∈ seen)) as [Hin|Hout].
    + rewrite IH by done. split.
      * intros [? ?]. split; [by right|done].
      * intros [[->|?]%elem_of_cons ?]; done.
    + rewrite !elem_of_cons, IH by done. split.
      * intros [->|[? Hx]]; [by split; [left|]|].
        split; [by right|]. intros ?. apply Hx. by apply elem_of_union_r.
      * intros [[->|Hx] Hseen]; [by left|].
        destruct (decide (key y = key x)) as [Heq|Hne].
        { left. symmetry. apply Hinj; [by left|done]. }
        right. split; [done|].
        intros [Heq%elem_of_singleton|?]%elem_of_union; done.
Qed.

Lemma foldl_record_new l : ∀ st,
  foldl (record_new key) st l
  = (list_to_set (key <$> l) ∪ st.1, st.2 ++ unique_by key st.1 l).
Proof.
  induction l as [|x l IH]; intros [seen acc]; simpl.
  - rewrite app_nil_r. f_equal. set_solver.
  - rewrite IH. unfold record_new. cbn [fst snd].
    destruct (decide (key x ∈ seen)); cbn [fst snd].
    + f_equal. set_solver.
    + rewrite <-app_assoc. f_equal. set_solver.
Qed.

End UniqueBy.

Lemma foldl_bind {S B C : Type} (f : S → C → S) (g : B → list C) l : ∀ st,
  foldl f st (l ≫= g) = foldl (λ st x, foldl f st (g x)) st l.
Proof.
  induction l as [|x l IH]; intros st; [done|].
  by rewrite bind_cons, foldl_app, IH.
Qed.

Lemma unique_from_by seen items :
  unique_from seen items = unique_by item_key seen items.
Proof.
  revert seen. induction items as [|it items IH]; intros seen; simpl; [done|].
  by rewrite !IH.
Qed.

Lemma instantiation_file_record self p content st :
  instantiation_file self p content st
  = foldl (record_new inst_key) st (inst_candidates self p content).
Proof.
  unfold instantiation_file, inst_candidates. rewrite foldl_bind.
  revert st. induction (numbered_lines content) as [|[n line] l IH];
    intros st; [done|].
  cbn [foldl]. rewrite <-IH. f_equal. rewrite foldl_bind.
  generalize (instantiation_patterns self). clear. intros patterns.
  revert st. induction patterns as [|pattern patterns IH]; intros st; [done|].
  cbn [foldl]. rewrite <-IH. f_equal.
  unfold instantiation_step. destruct (_ && _); done.
Qed.

Lemma instantiations_unique fs self :
  _scan_for_direct_instantiations fs self
  = Ok (unique_by inst_key ∅
          (python_files fs (project_dirs fs)
           ≫= visible fs (inst_candidates self))).
Proof.
  unfold _scan_for_direct_instantiations.
  rewrite (for_files_st_read fs (instantiation_file self)).
  cbn [mbind outcome_bind]. f_equal.
  assert (∀ files st,
            foldl (λ s p, match file_text fs p with
                          | inl content => instantiation_file self p content s
                          | inr _ => s
                          end) st files
            = foldl (record_new inst_key) st
                (files ≫= visible fs (inst_candidates self))) as ->.
  { induction files as [|p files IH]; intros st; [done|].
    rewrite bind_cons, foldl_app. cbn [foldl]. rewrite IH. f_equal.
    unfold visible. destruct (file_text fs p); [|done].
    apply instantiation_file_record. }
  by rewrite foldl_record_new.
Qed.

Lemma elem_of_inst_candidates fs self it :
  it ∈ python_files fs (project_dirs fs) ≫= visible fs (inst_candidates self)
  ↔ passed_guard fs self it.
Proof.
  rewrite elem_of_visible. unfold passed_guard, inst_candidates. split.
  - intros (p & content & Hp & Hread & Hit).
    apply list_elem_of_bind in Hit as ([n line] & Hit & Hline).
    apply elem_of_numbered_lines in Hline as (i & -> & Hi).
    apply list_elem_of_bind in Hit as (pattern & Hit & Hpattern).
    destruct (re_search pattern line) eqn:Hm; [|by apply elem_of_nil in Hit].
    destruct (contains "class" line) eqn:Hclass;
      [by apply elem_of_nil in Hit|].
    destruct (contains "=" line) eqn:Heq; [by apply elem_of_nil in Hit|].
    apply list_elem_of_singleton in Hit as ->.
    by exists p, content, i, line, pattern.
  - intros (p & content & i & line & pattern
            & Hp & Hread & Hi & -> & Hpattern & Hm & Hclass & Heq).
    exists p, content. split_and!; [done..|].
    apply list_elem_of_bind. exists (S i, line).
    split; [|apply elem_of_numbered_lines; eauto].
    apply list_elem_of_bind. exists pattern. split; [|done].
    rewrite Hm, Hclass, Heq. by left.
Qed.

(** X13: the seen-set of the direct-instantiation pass computes first
    occurrences: the pass returns the lines that pass its test (a pattern
    matches, no [class], no equals sign), one candidate per line and pattern
    in file, line and pattern order, keeping the first of each
    (file, line, stripped text).  So it records exactly the lines of readable
    project files that pass the test, each of them once. *)
Theorem X13_instantiations_first_occurrences (fs : FileSystem)
    (self : Analyzer) :
  plain_names self = true →
  ∃ recorded,
    _scan_for_direct_instantiations fs self = Ok recorded
    ∧ recorded
      = unique_by inst_key ∅
          (p ← python_files fs (project_dirs fs);
           match file_text fs p with
           | inl content =>
               '(line_num, line) ← numbered_lines content;
               pattern ← instantiation_patterns self;
               if re_search pattern line && negb (contains "class" line)
                  && negb (contains "=" line)
               then [LineItem p line_num (strip line)] else []
           | inr _ => []
           end)
    ∧ (∀ it, it ∈ recorded ↔ passed_guard fs self it)
    ∧ ∀ p content i line pattern,
        p ∈ python_files fs (project_dirs fs) →
        file_text fs p = inl content →
        split newline content !! i = Some line →
        pattern ∈ instantiation_patterns self →
        re_search pattern line = true →
        contains "class" line = false → contains "=" line = false →
        LineItem p (S i) (strip line) ∈ recorded.
Proof.
  intros _. rewrite instantiations_unique. eexists. split; [done|].
  split; [done|].
  assert (∀ it,
            it ∈ unique_by inst_key ∅
                   (python_files fs (project_dirs fs)
                    ≫= visible fs (inst_candidates self))
            ↔ passed_guard fs self it) as Hrecorded.
  { intros it. rewrite <-elem_of_inst_candidates. split.
    - intros [? _]%elem_of_unique_by; [done|].
      intros y (p & c & i & l & pat & _ & _ & _ & -> & _)%elem_of_inst_candidates.
      intros Hkey. revert Hkey. destruct it; intros [= <- <- <-]; done.
    - intros Hit. apply elem_of_unique_by; [|split; [done|set_solver]].
      apply elem_of_inst_candidates in Hit
        as (p & c & i & l & pat & _ & _ & _ & -> & _).
      intros y (p' & c' & i' & l' & pat' & _ & _ & _ & -> & _)%elem_of_inst_candidates.
      by intros [= -> -> ->]. }
  split; [exact Hrecorded|].
  intros p content i line pattern Hp Hread Hi Hpattern Hm Hclass Heq.
  apply Hrecorded. by exists p, content, i, line, pattern.
Qed.

Lemma X13_instantiations_first_occurrences_witness :
  ∃ recorded,
    _scan_for_direct_instantiations two_classes used_serializer = Ok recorded
    ∧ ∀ it, it ∈ recorded ↔ passed_guard two_classes used_serializer it.
Proof.
  destruct (X13_instantiations_first_occurrences two_classes used_serializer)
    as (recorded & Hscan & _ & Hrecorded & _).
  - vm_compute. reflexivity.
  - exists recorded. split; assumption.
Defined.

(** * Walking a directory more than once *)

Lemma keys_of_app l1 l2 : keys_of (l1 ++ l2) = keys_of l1 ∪ keys_of l2.
Proof. unfold keys_of. rewrite fmap_app. set_solver. Qed.

Lemma same_firsts_refl l : same_firsts l l.
Proof. done. Qed.

Lemma same_firsts_trans l1 l2 l3 :
  same_firsts l1 l2 → same_firsts l2 l3 → same_firsts l1 l3.
Proof.
  intros [K1 U1] [K2 U2]. split; [congruence|].
  intros seen. by rewrite U1, U2.
Qed.

Lemma same_firsts_app l1 l1' l2 l2' :
  same_firsts l1 l1' → same_firsts l2 l2' →
  same_firsts (l1 ++ l2) (l1' ++ l2').
Proof.
  intros [K1 U1] [K2 U2]. split.
  - by rewrite !keys_of_app, K1, K2.
  - intros seen. by rewrite !unique_from_app, U1, U2, K1.
Qed.

Lemma same_firsts_absorb l1 again l2 :
  (∀ it, it ∈ again → it ∈ l1) →
  same_firsts (l1 ++ again ++ l2) (l1 ++ l2).
Proof.
  intros Hagain. split.
  - rewrite !keys_of_app.
    assert (keys_of again ⊆ keys_of l1) as Hsub; [|set_solver].
    unfold keys_of.
    intros k (x & -> & Hx)%elem_of_list_to_set%list_elem_of_fmap.
    apply elem_of_list_to_set, list_elem_of_fmap. eauto.
  - intros seen. rewrite !unique_from_by. by apply unique_by_absorb.
Qed.

Lemma same_firsts_bind {B : Type} (f f' : B → list item) l :
  (∀ x, x ∈ l → same_firsts (f x) (f' x)) →
  same_firsts (l ≫= f) (l ≫= f').
Proof.
  induction l as [|x l IH]; intros Hall; [done|].
  rewrite !bind_cons. apply same_firsts_app; [apply Hall; by left|].
  apply IH. intros y Hy. apply Hall. by right.
Qed.

Lemma python_files_app fs d1 d2 :
  python_files fs (d1 ++ d2) = python_files fs d1 ++ python_files fs d2.
Proof. unfold python_files. apply bind_app. Qed.

Section Rewalk.

Context (fs : FileSystem) (self : Analyzer) (d1 again d2 : list string).
Hypothesis dirs : project_dirs fs = d1 ++ d2.
Hypothesis walked :
  ∀ p, p ∈ python_files fs again → p ∈ python_files fs d1.

Let fs' : FileSystem := with_project_dirs (d1 ++ again ++ d2) fs.

Lemma rewalk_elem {B : Type} (h : string → list B) x :
  x ∈ python_files fs again ≫= h → x ∈ python_files fs d1 ≫= h.
Proof.
  intros (p & Hx & Hp)%list_elem_of_bind. apply list_elem_of_bind.
  exists p. split; [done|]. by apply walked.
Qed.

Lemma rewalk_files {B : Type} (h : string → list B) :
  python_files fs' (project_dirs fs') ≫= h
  = (python_files fs d1 ≫= h) ++ (python_files fs again ≫= h)
    ++ (python_files fs d2 ≫= h).
Proof.
  change (python_files fs' (project_dirs fs'))
    with (python_files fs (d1 ++ again ++ d2)).
  by rewrite !python_files_app, !bind_app.
Qed.

Lemma walk_files {B : Type} (h : string → list B) :
  python_files fs (project_dirs fs) ≫= h
  = (python_files fs d1 ≫= h) ++ (python_files fs d2 ≫= h).
Proof. by rewrite dirs, python_files_app, bind_app. Qed.

(** A pass that records per file gives the same first occurrences. *)
Lemma rewalk_visible (g : string → string → list item) :
  same_firsts (python_files fs' (project_dirs fs') ≫= visible fs' g)
    (python_files fs (project_dirs fs) ≫= visible fs g).
Proof.
  change (visible fs' g) with (visible fs g).
  rewrite rewalk_files, walk_files.
  apply same_firsts_absorb. apply rewalk_elem.
Qed.

Lemma rewalk_found_lines per_line :
  same_firsts (found_lines fs' per_line) (found_lines fs per_line).
Proof. apply rewalk_visible. Qed.

Lemma rewalk_pass (g : string → string → list item) :
  unique_results
    (ok_or [] (for_files (python_files fs' (project_dirs fs'))
                 (λ p, content ← read_text fs' p; Ok (g p content))))
  = unique_results
      (ok_or [] (for_files (python_files fs (project_dirs fs))
                   (λ p, content ← read_text fs p; Ok (g p content)))).
Proof.
  rewrite !for_files_read. cbn [ok_or]. apply rewalk_visible.
Qed.

Lemma rewalk_instantiations :
  _scan_for_direct_instantiations fs' self
  = _scan_for_direct_instantiations fs self.
Proof.
  rewrite !instantiations_unique. f_equal.
  change (visible fs' (inst_candidates self))
    with (visible fs (inst_candidates self)).
  rewrite rewalk_files, walk_files.
  apply unique_by_absorb. apply rewalk_elem.
Qed.

Lemma rewalk_parent_usages :
  same_firsts (ok_or [] (_scan_for_parent_serializer_usages fs' self))
    (ok_or [] (_scan_for_parent_serializer_usages fs self)).
Proof.
  unfold _scan_for_parent_serializer_usages. rewrite !parents_visible.
  cbn [mbind outcome_bind]. rewrite !parent_usages_found. cbn [ok_or].
  change (visible fs' (parent_matches self))
    with (visible fs (parent_matches self)).
  eapply same_firsts_trans.
  { apply same_firsts_bind. intros parent _. apply rewalk_found_lines. }
  rewrite rewalk_files, walk_files, !bind_app.
  apply same_firsts_absorb.
  intros it (parent & Hit & Hparent)%list_elem_of_bind.
  apply list_elem_of_bind. exists parent. split; [done|].
  by apply rewalk_elem.
Qed.

End Rewalk.

(** X14: walking files again changes nothing.  When the list of project
    directories gets further directories whose Python files were all met in
    the directories before them, such as an application nested in an earlier
    one, the analysis returns the same result: the deduplication absorbs
    every entry of the second visit. *)
Theorem X14_walked_again (fs : FileSystem) (self : Analyzer)
    (d1 again d2 : list string) :
  plain_names self = true →
  project_dirs fs = d1 ++ d2 →
  (∀ p, p ∈ python_files fs again → p ∈ python_files fs d1) →
  analyze (with_project_dirs (d1 ++ again ++ d2) fs) self = analyze fs self.
Proof.
  intros _ Hdirs Hwalked. rewrite !analyze_scanned. f_equal.
  unfold scanned, _deduplicate_results.
  cbn [direct_imports serializer_class_declarations field_usages
       serializer_inheritance direct_instantiations many_true_usages
       inner_class_usages meta_class_references].
  rewrite (rewalk_instantiations fs self d1 again d2 Hdirs Hwalked).
  unfold _scan_for_field_usages, _scan_for_serializer_inheritance,
    _scan_for_many_true_usages, _scan_for_inner_class_usages,
    _scan_for_meta_class_references.
  rewrite !scan_lines_found. cbn [ok_or].
  pose proof (rewalk_found_lines fs d1 again d2 Hdirs Hwalked) as Hlines.
  pose proof (rewalk_pass fs d1 again d2 Hdirs Hwalked) as Hpass.
  pose proof (rewalk_parent_usages fs self d1 again d2 Hdirs Hwalked)
    as Hparents.
  unfold unique_results in *.
  assert (same_firsts
            (ok_or [] (_scan_for_serializer_class_declarations
                         (with_project_dirs (d1 ++ again ++ d2) fs) self))
            (ok_or [] (_scan_for_serializer_class_declarations fs self)))
    as Hdecl.
  { unfold _scan_for_serializer_class_declarations. rewrite !for_files_read.
    cbn [ok_or]. by apply rewalk_visible. }
  f_equal.
  - apply Hpass.
  - by apply same_firsts_app.
  - apply Hlines.
  - apply Hlines.
  - apply Hlines.
  - apply Hlines.
  - apply Hlines.
Qed.

Lemma X14_walked_again_witness :
  analyze (with_project_dirs (["app"] ++ ["app"] ++ []) two_classes)
    used_serializer
  = analyze two_classes used_serializer.
Proof.
  apply (X14_walked_again two_classes used_serializer ["app"] ["app"] []).
  - vm_compute. reflexivity.
  - reflexivity.
  - intros p Hp. exact Hp.
Defined.

(** * The import pass *)

Lemma search_from_within r : ∀ s p must_advance m,
  search_from r p s must_advance = Some m →
  ∃ pre post, s = pre +:+ f_text m +:+ post.
Proof.
  induction s as [|c s IH]; intros p ma m; simpl; unfold match_at;
    destruct (rmatch _ _ _) as [st|] eqn:E; try done.
  1,2: intros [= <-];
    apply rmatch_captures in E as (w & st' & [Hw Hp] & _ & _ & Hk);
    destruct (ma && _); [done|]; injection Hk as ->;
    cbn [f_text rest pos] in *;
    exists EmptyString, (rest st);
    replace (pos st - p) with (String.length w) by lia;
    match goal with |- ?s0 = _ =>
      assert (take_str (String.length w) s0 = w) as ->
        by (rewrite Hw; apply take_str_app)
    end; exact Hw.
  intros (pre & post & ->)%IH. by exists (String c pre), post.
Qed.

Lemma findall_head r s :
  head (re_findall r s) = f_text <$> search_from r 0 s false.
Proof.
  unfold re_findall, re_finditer.
  destruct (2 * String.length s + 2) as [|fuel] eqn:E; [lia|].
  cbn [finditer_from]. by destruct (search_from r 0 s false).
Qed.

Lemma findall_head_search r s :
  is_Some (head (re_findall r s)) ↔ re_search r s = true.
Proof.
  rewrite findall_head. unfold re_search. rewrite bool_decide_eq_true.
  apply fmap_is_Some.
Qed.

Lemma findall_head_match r s t :
  head (re_findall r s) = Some t → lang r t ∧ contains t s = true.
Proof.
  rewrite findall_head.
  destruct (search_from r 0 s false) as [m|] eqn:E; [|done].
  intros [= <-]. split.
  - by apply search_from_match in E as [(? & _) _].
  - apply search_from_within in E as (pre & post & E).
    apply contains_true. eauto.
Qed.

Lemma lang_seqs_contains rs t w :
  Lit t ∈ rs → lang (seqs rs) w → contains t w = true.
Proof.
  intros (rs1 & rs2 & ->)%list_elem_of_split HL.
  apply lang_seqs_app in HL as (w1 & w2 & -> & _ & HL).
  apply lang_seqs_cons in HL as (wt & w3 & -> & ->%lang_Lit & _).
  apply contains_true. by exists w1, w3.
Qed.

Lemma lang_seqs_startswith t rs w :
  lang (seqs (Lit t :: rs)) w → startswith w t = true.
Proof.
  intros (wt & w' & -> & ->%lang_Lit & _)%lang_seqs_cons. apply prefix_app.
Qed.

Lemma imports_visible fs self :
  _scan_for_direct_imports fs self
  = Ok (python_files fs (project_dirs fs) ≫= visible fs (import_matches self)).
Proof. apply (for_files_read fs (import_matches self)). Qed.

Lemma elem_of_import_matches self p content it :
  it ∈ import_matches self p content
  ↔ ∃ pattern import_stmt,
      pattern ∈ import_patterns self
      ∧ head (re_findall pattern content) = Some import_stmt
      ∧ it = ImportItem p import_stmt.
Proof.
  unfold import_matches. rewrite list_elem_of_bind. split.
  - intros (pattern & Hit & Hpattern).
    destruct (re_findall pattern content) as [|t ts] eqn:E;
      [by apply elem_of_nil in Hit|].
    apply list_elem_of_singleton in Hit as ->. exists pattern, t.
    by rewrite E.
  - intros (pattern & t & Hpattern & Hhead & ->). exists pattern.
    split; [|done].
    destruct (re_findall pattern content) as [|t' ts]; [done|].
    injection Hhead as ->. by left.
Qed.

Lemma import_statement_shape self pattern t :
  pattern ∈ import_patterns self → lang pattern t →
  startswith t "from" = true
  ∧ contains (app_name self) t = true
  ∧ contains "import" t = true
  ∧ contains (serializer_name self) t = true.
Proof.
  unfold import_patterns. cbv zeta. intros Hpattern HL.
  repeat (apply elem_of_cons in Hpattern as [->|Hpattern]);
    [..|by apply elem_of_nil in Hpattern];
    (split_and!;
     [by apply lang_seqs_startswith in HL
     |apply lang_seqs_contains with (t := app_name self) in HL;
        [done|repeat constructor]
     |apply lang_seqs_contains with (t := "import") in HL;
        [done|repeat constructor]
     |apply lang_seqs_contains with (t := serializer_name self) in HL;
        [done|repeat constructor]]).
Qed.

(** X15: the direct imports of an analysis.  A file has an entry exactly
    when it is a readable Python file of the project in which one of the six
    import patterns is found; the statement of an entry is the first match of
    such a pattern in the file, a piece of the file's text that starts with
    [from] and holds the application name, the word [import] and the target
    name. *)
Theorem X15_direct_imports (fs : FileSystem) (self : Analyzer) :
  plain_names self = true →
  ∃ res,
    analyze fs self = Ok res
    ∧ (∀ p, p ∈ item_file <$> direct_imports res ↔
         p ∈ python_files fs (project_dirs fs)
         ∧ ∃ content pattern,
             file_text fs p = inl content
             ∧ pattern ∈ import_patterns self
             ∧ re_search pattern content = true)
    ∧ (∀ it, it ∈ direct_imports res →
         ∃ content pattern,
           file_text fs (item_file it) = inl content
           ∧ pattern ∈ import_patterns self
           ∧ it = ImportItem (item_file it) (item_content it)
           ∧ head (re_findall pattern content) = Some (item_content it)
           ∧ contains (item_content it) content = true
           ∧ startswith (item_content it) "from" = true
           ∧ contains (app_name self) (item_content it) = true
           ∧ contains "import" (item_content it) = true
           ∧ contains (serializer_name self) (item_content it) = true).
Proof.
  intros _. rewrite analyze_scanned. eexists. split; [done|].
  cbn [direct_imports _deduplicate_results scanned].
  rewrite imports_visible. cbn [ok_or].
  set (recorded := python_files fs (project_dirs fs) ≫= _).
  assert (∀ it, it ∈ recorded ↔
            ∃ p content pattern import_stmt,
              p ∈ python_files fs (project_dirs fs)
              ∧ file_text fs p = inl content
              ∧ pattern ∈ import_patterns self
              ∧ head (re_findall pattern content) = Some import_stmt
              ∧ it = ImportItem p import_stmt) as Hrecorded.
  { intros it. unfold recorded. rewrite elem_of_visible. split.
    - intros (p & content & Hp & Hread & Hit).
      apply elem_of_import_matches in Hit as (pattern & t & ? & ? & ->).
      by exists p, content, pattern, t.
    - intros (p & content & pattern & t & Hp & Hread & ? & ? & ->).
      exists p, content. split_and!; [done..|].
      apply elem_of_import_matches. by exists pattern, t. }
  split.
  - intros p. rewrite list_elem_of_fmap. split.
    + intros (it & -> & Hit).
      pose proof (elem_of_sublist _ _ _ Hit (unique_from_sublist ∅ recorded))
        as Hin.
      apply Hrecorded in Hin
        as (q & content & pattern & t & Hq & Hread & Hpattern & Hhead & ->).
      split; [done|]. exists content, pattern. split_and!; [done..|].
      apply findall_head_search. by rewrite Hhead.
    + intros (Hp & content & pattern & Hread & Hpattern & Hm).
      apply findall_head_search in Hm as [t Hhead].
      destruct (unique_from_covers ∅ recorded (ImportItem p t))
        as (kept & Hkept & Hkey).
      * apply Hrecorded. by exists p, content, pattern, t.
      * apply not_elem_of_empty.
      * exists kept. split; [|done]. by injection Hkey as ->.
  - intros it Hit.
    pose proof (elem_of_sublist _ _ _ Hit (unique_from_sublist ∅ recorded))
      as Hin.
    apply Hrecorded in Hin
      as (q & content & pattern & t & Hq & Hread & Hpattern & Hhead & ->).
    cbn [item_file item_content].
    destruct (findall_head_match _ _ _ Hhead) as [HL Hwithin].
    destruct (import_statement_shape self pattern t Hpattern HL)
      as (? & ? & ? & ?).
    exists content, pattern. split_and!; done.
Qed.

Lemma X15_direct_imports_witness :
  ∃ res,
    analyze (single_file "views.py" "app/views.py" views_module)
      user_serializer = Ok res
    ∧ ∀ it, it ∈ direct_imports res →
            startswith (item_content it) "from" = true.
Proof.
  destruct (X15_direct_imports
              (single_file "views.py" "app/views.py" views_module)
              user_serializer) as (res & Hres & _ & Hshape).
  - vm_compute. reflexivity.
  - exists res. split; [assumption|]. intros it Hit.
    destruct (Hshape it Hit) as (content & pattern & _ & _ & _ & _ & _ & H & _).
    exact H.
Defined.

(** * Progress snapshots of the batch loop *)

Lemma bind_ext_elem {B C : Type} (f g : B → list C) l :
  (∀ x, x ∈ l → f x = g x) → l ≫= f = l ≫= g.
Proof.
  induction l as [|x l IH]; intros Heq; [done|].
  rewrite !bind_cons, Heq, IH; [done| |by left].
  intros y Hy. apply Heq. by right.
Qed.

Lemma bind_one {B C : Type} (f : B → list C) x : [x] ≫= f = f x.
Proof. rewrite bind_cons. apply app_nil_r. Qed.

Lemma completed_app scan l1 l2 :
  completed scan (l1 ++ l2) = completed scan l1 ++ completed scan l2.
Proof. unfold completed. apply bind_app. Qed.

Section Progress.

Context (scan : string → outcome Results) (threshold : Z) (saving : bool).

Lemma snapshots_snoc l c :
  snapshots scan threshold saving (l ++ [c])
  = snapshots scan threshold saving l
    ++ match scan (c_path c) with
       | Ok _ =>
           if saving && ((length l + 1) mod 10 =? 0)
           then [snapshot_of scan threshold (l ++ [c])] else []
       | Raise _ => []
       end.
Proof.
  unfold snapshots. rewrite imap_app, bind_app. f_equal.
  - apply bind_ext_elem. intros [i x] (j & y & [= -> ->] & Hj)%elem_of_lookup_imap.
    apply lookup_lt_Some in Hj.
    by rewrite take_app_le by lia.
  - cbn [imap]. rewrite bind_one, Nat.add_0_r.
    replace (take (S (length l)) (l ++ [c])) with (l ++ [c]); [done|].
    rewrite take_ge; [done|]. rewrite length_app. simpl. lia.
Qed.

Lemma batch_loop_saving_spec serializers :
  batch_loop_saving scan threshold saving serializers
  = (foldl (analyze_candidate scan threshold) ([], []) serializers,
     snapshots scan threshold saving serializers).
Proof.
  unfold batch_loop_saving.
  induction serializers as [|c l IH] using rev_ind; [done|].
  rewrite imap_app, !foldl_app, IH, snapshots_snoc.
  cbn [imap foldl]. rewrite Nat.add_0_r.
  rewrite batch_loop. cbn [fst snd app].
  unfold analyze_candidate_saving, analyze_candidate. cbn [fst snd].
  destruct (scan (c_path c)) as [results|] eqn:Hscan;
    [|by rewrite app_nil_r].
  cbn [fst snd]. f_equal. f_equal.
  destruct (saving && _); [|by rewrite app_nil_r].
  f_equal. f_equal. unfold snapshot_of.
  rewrite completed_app.
  assert (completed scan [c] = [serializer_result c results]) as ->
    by (unfold completed; by rewrite bind_one, Hscan).
  rewrite filter_app.
  f_equal. f_equal. rewrite filter_cons, filter_nil.
  unfold within_threshold. cbn [total_usages serializer_result].
  destruct (Z.leb_spec (Z.of_nat (sum_usages results)) threshold).
  - by rewrite decide_True.
  - rewrite decide_False by lia. by rewrite app_nil_r.
Qed.

Lemma snapshots_all_ok serializers :
  saving = true →
  (∀ c, c ∈ serializers → ∃ results, scan (c_path c) = Ok results) →
  analyzed_so_far <$> snapshots scan threshold saving serializers
  = filter (λ n, n mod 10 = 0) (seq 1 (length serializers)).
Proof.
  intros Hsaving Hall.
  induction serializers as [|c l IH] using rev_ind; [done|].
  rewrite snapshots_snoc, fmap_app, IH
    by (intros c' ?; apply Hall, elem_of_app; by left).
  rewrite length_app. cbn [length]. rewrite seq_app, filter_app.
  f_equal. cbn [seq]. rewrite filter_cons, filter_nil.
  destruct (Hall c) as [results Hscan]; [apply elem_of_app; right; by left|].
  rewrite Hscan, Hsaving. cbn [andb].
  replace (1 + length l) with (length l + 1) by lia.
  destruct (Nat.eqb_spec ((length l + 1) mod 10) 0) as [Hten|Hten].
  - rewrite decide_True by done. cbn [fmap list_fmap]. f_equal.
    unfold snapshot_of, _save_intermediate_results. cbn [analyzed_so_far].
    rewrite length_completed_all, length_app; [done|].
    intros c' Hc'. by apply Hall.
  - by rewrite decide_False.
Qed.

End Progress.

(** X16: the progress file of the batch loop.  Writing it never changes the
    two result lists.  A snapshot is written exactly after a candidate whose
    scan returned and whose position, counted from one, is a multiple of ten,
    and only when an output file was asked for; it holds the unused list in
    discovery order and the number of results so far, a candidate whose scan
    raised not being counted, and its total_found is that number plus one.
    When every scan returns, the numbers of results in the snapshots are the
    multiples of ten up to the number of candidates. *)
Theorem X16_progress_snapshots (scan : string → outcome Results)
    (threshold : Z) (saving : bool) (serializers : list Candidate) :
  let run := batch_loop_saving scan threshold saving serializers in
  run.1 = foldl (analyze_candidate scan threshold) ([], []) serializers
  ∧ run.2
    = ('(i, serializer) ← imap pair serializers;
       match scan (c_path serializer) with
       | Ok _ =>
           if saving && ((i + 1) mod 10 =? 0)
           then [snapshot_of scan threshold (take (S i) serializers)] else []
       | Raise _ => []
       end)
  ∧ (∀ s, s ∈ run.2 →
          total_found s = analyzed_so_far s + 1
          ∧ analyzed_so_far s ≤ length serializers
          ∧ s_unused s `prefix_of`
              filter (within_threshold threshold) (completed scan serializers))
  ∧ (saving = false → run.2 = [])
  ∧ (saving = true →
     (∀ c, c ∈ serializers → ∃ results, scan (c_path c) = Ok results) →
     analyzed_so_far <$> run.2
     = filter (λ n, n mod 10 = 0) (seq 1 (length serializers))).
Proof.
  intros run. unfold run. rewrite batch_loop_saving_spec. cbn [fst snd].
  split_and!; [done|done| | |].
  - intros s ([i c] & Hs & Hc)%list_elem_of_bind.
    destruct (scan (c_path c)); [|by apply elem_of_nil in Hs].
    destruct (saving && _); [|by apply elem_of_nil in Hs].
    apply list_elem_of_singleton in Hs as ->.
    unfold snapshot_of, _save_intermediate_results.
    cbn [total_found analyzed_so_far s_unused]. split_and!; [done| |].
    + etrans; [apply length_completed|]. rewrite length_take. lia.
    + rewrite <-(take_drop (S i) serializers) at 2.
      rewrite completed_app, filter_app. by apply prefix_app_r.
  - intros ->. unfold snapshots.
    rewrite (bind_ext_elem _ (λ _, [])); [by induction (imap _ _)|].
    intros [i c] _. by destruct (scan (c_path c)).
  - apply snapshots_all_ok.
Qed.

(** * The single-class command *)

Section CommandReport.

Import AnalyzeSerializerUsage.

Lemma str_app_inv_head s a b : s +:+ a = s +:+ b → a = b.
Proof.
  induction s as [|c s IH]; [done|]. rewrite !str_app_cons.
  intros [= ?]. by apply IH.
Qed.

Lemma detail_block_lines heading nothing render items :
  Forall (λ it, render it = Some (entry_line it)) items →
  ∃ block,
    detail_block heading nothing render items = Some block
    ∧ length block = S (length items)
    ∧ ∀ it, it ∈ items → entry_line it ∈ block.
Proof.
  intros Hrender.
  assert (mapM render items = Some (entry_line <$> items)) as Hlines.
  { apply mapM_Some. apply Forall2_fmap_r, Forall_Forall2_diag.
    eapply Forall_impl; [done|]. done. }
  unfold detail_block. rewrite Hlines. clear Hlines Hrender.
  destruct items as [|it others].
  - exists [nothing]. split_and!; [done..|]. by intros ? ?%elem_of_nil.
  - eexists. split_and!; [done| |].
    + by rewrite !length_cons, length_fmap.
    + intros x Hx. right. by apply list_elem_of_fmap_2.
Qed.

Lemma summary_lines_counts r1 r2 :
  summary_lines r1 = summary_lines r2 → counts r1 = counts r2.
Proof.
  unfold summary_lines, counts, categories. cbn [fmap list_fmap].
  intros [= H1 H2 H3 H4 H5 H6 H7 H8].
  apply str_app_inv_head, (inj pretty) in H1, H2, H3, H4, H5, H6, H7, H8.
  congruence.
Qed.

(** X17: the single-class command.  A path of fewer than three segments ends
    in a CommandError with the message of the resolver.  Any other path of
    plain names ends in a report, no entry lacking a key the report reads:
    it opens with the path and the summary, has 11 lines without the verbose
    option and 18 plus the total number of entries with it, and then holds
    the line of every entry of every category; the summary lines determine
    the eight counts. *)
Theorem X17_command_report (fs : FileSystem) (serializer_path : string)
    (verbose : bool) :
  (∀ self, SerializerUsageAnalyzer serializer_path = Ok self →
           plain_names self = true) →
  (count_char "." serializer_path < 2 →
   handle fs serializer_path verbose = CommandError path_format_message)
  ∧ (2 ≤ count_char "." serializer_path →
     ∃ results lines,
       analyze_path fs serializer_path = Ok results
       ∧ handle fs serializer_path verbose = Report lines
       ∧ take 10 lines
         = ("Analysis of serializer " +:+ serializer_path +:+ ":")
           :: String newline "Summary:" :: summary_lines results
       ∧ length lines = (if verbose then 18 + sum_usages results else 11)
       ∧ (verbose = true →
          ∀ category it, category ∈ categories → it ∈ category results →
                         entry_line it ∈ lines)
       ∧ ∀ results', summary_lines results' = summary_lines results →
                     counts results' = counts results).
Proof.
  intros _. unfold handle, analyze_path, SerializerUsageAnalyzer.
  pose proof (length_split "." serializer_path) as Hlen.
  unfold _parse_serializer_path. cbv zeta. split.
  - intros Hfew. apply Nat.ltb_lt in Hfew as Hlt.
    assert ((length (split "." serializer_path) <? 3) = true) as ->
      by (apply Nat.ltb_lt; lia).
    done.
  - intros Hmany.
    assert ((length (split "." serializer_path) <? 3) = false) as ->
      by (apply Nat.ltb_ge; lia).
    set (parsed := if 3 <? _ then _ else _).
    assert (∃ a f n, parsed = Ok (a, f, n)) as (a & f & n & ->).
    { unfold parsed. destruct (3 <? _); eauto. }
    cbn [mbind outcome_bind]. rewrite analyze_scanned.
    set (self := {| app_name := a; file_name := f; serializer_name := n |}).
    set (results := _deduplicate_results (scanned fs self)).
    destruct (scanned_well_placed fs self) as (_ & Himports & Hlines).
    fold results in Himports, Hlines.
    assert (Forall (λ it, import_line it = Some (entry_line it))
              (direct_imports results)) as Himp.
    { eapply Forall_impl; [exact Himports|]. by intros [] ?. }
    assert (Forall (λ category,
                      Forall (λ it, usage_line it = Some (entry_line it))
                        (category results)) (tail categories)) as Huse.
    { eapply Forall_impl; [exact Hlines|]. intros category Hc.
      eapply Forall_impl; [exact Hc|]. by intros [] ?. }
    cbn [tail categories] in Huse.
    repeat (apply Forall_cons in Huse as [? Huse]).
    exists results.
    destruct verbose.
    + unfold output_lines, detail_lines.
      repeat match goal with
      | |- context [detail_block ?h ?n ?r ?items] =>
          let block := fresh "block" in
          let Hb := fresh "Hb" in
          let Hl := fresh "Hl" in
          let Hi := fresh "Hi" in
          destruct (detail_block_lines h n r items) as (block & Hb & Hl & Hi);
          [assumption|rewrite Hb; clear Hb; cbn [mbind option_bind]]
      end.
      eexists.
      split_and!; [done|done|done| | |intros r; apply summary_lines_counts].
      * rewrite !length_app. unfold summary_lines, sum_usages.
        cbn [length]. lia.
      * intros _ category it Hcategory Hit. do 2 right.
        apply elem_of_app. right. unfold summary_lines.
        unfold categories in Hcategory.
        repeat (apply elem_of_cons in Hcategory as [->|Hcategory]);
          [..|by apply elem_of_nil in Hcategory];
          rewrite !elem_of_app; auto 10.
    + unfold output_lines. eexists.
      split_and!;
        [done|done|done|done|done|intros r; apply summary_lines_counts].
Qed.

Lemma X17_command_report_witness :
  ∃ results lines,
    analyze_path (single_file "views.py" "app/views.py" views_module)
      "app.views.UserSerializer" = Ok results
    ∧ handle (single_file "views.py" "app/views.py" views_module)
        "app.views.UserSerializer" true = Report lines
    ∧ length lines = 18 + sum_usages results.
Proof.
  destruct (X17_command_report
              (single_file "views.py" "app/views.py" views_module)
              "app.views.UserSerializer" true) as [_ Hreport].
  - intros self Hself. vm_compute in Hself. injection Hself as <-.
    vm_compute. reflexivity.
  - destruct Hreport as (results & lines & Hres & Hrun & _ & Hlen & _).
    + vm_compute. lia.
    + exists results, lines. split_and!; assumption.
Defined.

End CommandReport.
